(** * dave.c: an 8x8x8 LED cube driver (icubesmart 3D8S, stc12/8051)

    A shallow embedding of [dave.c] and the properties of its button
    polling, display primitives, pattern generators, dispatch loop and
    refresh interrupt.

    Conventions of the embedding.
    - [unsigned char] and [unsigned int] values are integers of [Z]; the
      truncation of a store into an [unsigned char] is written [uchar].
    - The statics and globals of the program are the fields of [machine].
      Every store the program performs (to a variable, to a byte of
      [display], to a special function register) is also appended to the
      field [trace], so that statements such as "written once" or "not
      written" can be made about a run.
    - The input port P4 is volatile: every read of one of its bits samples
      the port anew.  A run is given the finite list of port values that
      the successive reads observe; a routine that needs a sample when the
      list is exhausted is [Starved], and the machine it had reached is
      kept.  *)

From Stdlib Require Import ZArith List Lia Bool.
From stdpp Require Import base tactics option list list_numbers.
Import ListNotations.

Open Scope Z_scope.

(** ** Memory, registers and the store trace *)

(** The special function registers the program writes ([stc12.h]). *)
Inductive sfr : Type := P0 | P1 | P2 | P4 | IE | TCON | TH0 | TL0 | TR0.

(** The places the program stores to. *)
Inductive loc : Type :=
| Ldisplay (z y : Z)      (* display[z][y] *)
| Lmode                   (* static int mode *)
| Lpause                  (* static unsigned char pause, of pause() *)
| Lp41key | Lp42key | Lp43key
| Llayer                  (* static unsigned char layer, of timer_isr() *)
| Lsfr (r : sfr).

Inductive event : Type := Store (l : loc) (v : Z).

#[global] Instance sfr_eq_dec : EqDecision sfr.
Proof. solve_decision. Defined.
#[global] Instance loc_eq_dec : EqDecision loc.
Proof. solve_decision. Defined.
#[global] Instance event_eq_dec : EqDecision event.
Proof. solve_decision. Defined.

Definition target (e : event) : loc := match e with Store l _ => l end.
Definition written (e : event) : Z := match e with Store _ v => v end.

Record machine : Type := Machine {
  display : list (list Z);   (* __xdata volatile unsigned char display[8][8] *)
  mode : Z;                  (* static int mode = 0 *)
  pause_flag : Z;            (* the static [pause] of pause() *)
  p41key : Z;
  p42key : Z;
  p43key : Z;
  layer : Z;                 (* the static [layer] of timer_isr() *)
  ticks : Z;                 (* elapsed delay5us() units *)
  trace : list event         (* every store so far, oldest first *)
}.

Definition uchar (v : Z) : Z := v mod 256.
Definition uint (v : Z) : Z := v mod 65536.

(** C truth value of [!v]. *)
Definition lnot (v : Z) : Z := if v =? 0 then 1 else 0.

Definition log (e : event) (m : machine) : machine :=
  Machine (display m) (mode m) (pause_flag m) (p41key m) (p42key m) (p43key m)
          (layer m) (ticks m) (trace m ++ [e]).

(** [display[z][y]]; the array has 8 rows of 8 bytes.  An index outside
    the array is undefined in C; here such a read gives 0 and such a store
    changes no byte. *)
Definition peek (d : list (list Z)) (z y : Z) : Z :=
  (d !!! Z.to_nat z) !!! Z.to_nat y.

Definition poke (d : list (list Z)) (z y v : Z) : list (list Z) :=
  <[Z.to_nat z := <[Z.to_nat y := v]> (d !!! Z.to_nat z)]> d.

Definition store_display (z y v : Z) (m : machine) : machine :=
  log (Store (Ldisplay z y) v)
      (Machine (poke (display m) z y v) (mode m) (pause_flag m) (p41key m)
               (p42key m) (p43key m) (layer m) (ticks m) (trace m)).

Definition store_mode (v : Z) (m : machine) : machine :=
  log (Store Lmode v)
      (Machine (display m) v (pause_flag m) (p41key m) (p42key m) (p43key m)
               (layer m) (ticks m) (trace m)).

Definition store_pause (v : Z) (m : machine) : machine :=
  log (Store Lpause v)
      (Machine (display m) (mode m) v (p41key m) (p42key m) (p43key m)
               (layer m) (ticks m) (trace m)).

Definition store_p41key (v : Z) (m : machine) : machine :=
  log (Store Lp41key v)
      (Machine (display m) (mode m) (pause_flag m) v (p42key m) (p43key m)
               (layer m) (ticks m) (trace m)).

Definition store_p42key (v : Z) (m : machine) : machine :=
  log (Store Lp42key v)
      (Machine (display m) (mode m) (pause_flag m) (p41key m) v (p43key m)
               (layer m) (ticks m) (trace m)).

Definition store_p43key (v : Z) (m : machine) : machine :=
  log (Store Lp43key v)
      (Machine (display m) (mode m) (pause_flag m) (p41key m) (p42key m) v
               (layer m) (ticks m) (trace m)).

Definition store_layer (v : Z) (m : machine) : machine :=
  log (Store Llayer v)
      (Machine (display m) (mode m) (pause_flag m) (p41key m) (p42key m)
               (p43key m) v (ticks m) (trace m)).

(** A write to a special function register: only the trace records it. *)
Definition out (r : sfr) (v : Z) (m : machine) : machine :=
  log (Store (Lsfr r) v) m.

(** The machine at reset: zeroed statics, nothing stored yet.  [display]
    is not initialised by the program; it is taken zeroed. *)
Definition reset_machine : machine :=
  Machine (replicate 8 (replicate 8 0)) 0 0 0 0 0 0 0 [].

(** A [for (i=0; i<8; i++)] loop without early exit. *)
Definition for8 (body : Z -> machine -> machine) (m : machine) : machine :=
  fold_left (fun s i => body i s) (seqZ 0 8) m.

(** ** Timing *)

Definition delay5us (m : machine) : machine :=
  Machine (display m) (mode m) (pause_flag m) (p41key m) (p42key m) (p43key m)
          (layer m) (ticks m + 1) (trace m).

(** [while (i--) delay5us();] with [i] an [unsigned int]. *)
Definition delay (i : Z) (m : machine) : machine :=
  Nat.iter (Z.to_nat (uint i)) delay5us m.

(** [sinter]: configure and start the timer interrupt. *)
Definition sinter (m : machine) : machine :=
  out TR0 1 (out TL0 0 (out TH0 192 (out TCON 1 (out IE 130 m)))).

(** ** Display primitives *)

Definition set_all (v : Z) (m : machine) : machine :=
  for8 (fun j => for8 (fun i => store_display j i (if v =? 0 then 255 else 0))) m.

Definition set_x_plane (x v : Z) (m : machine) : machine :=
  for8 (fun j => for8 (fun i s =>
    if v =? 0
    then store_display j i (uchar (Z.lor (peek (display s) j i) (Z.shiftr 128 x))) s
    else store_display j i
           (uchar (Z.land (peek (display s) j i) (Z.lnot (Z.shiftr 128 x)))) s)) m.

Definition set_y_plane (y v : Z) (m : machine) : machine :=
  for8 (fun j => if v =? 0 then store_display j y 255 else store_display j y 0) m.

Definition set_z_plane (z v : Z) (m : machine) : machine :=
  for8 (fun i => if v =? 0 then store_display z i 255 else store_display z i 0) m.

Definition set_point (x y z v : Z) (m : machine) : machine :=
  if v =? 0
  then store_display z y (uchar (Z.lor (peek (display m) z y) (Z.shiftr 128 x))) m
  else store_display z y
         (uchar (Z.land (peek (display m) z y) (Z.lnot (Z.shiftr 128 x)))) m.

(** [c] points to the 8 row bytes of a glyph, positive logic. *)
Definition character_on_y (y : Z) (c : list Z) (m : machine) : machine :=
  for8 (fun z => store_display z y (uchar (Z.lnot (c !!! Z.to_nat z)))) m.

(** The state of the LED at (x,y,z): bit [7-x] of [display[z][y]] (the
    mask of [set_point] is [128>>x]), and a 0 bit sinks the LED on. *)
Definition led_on (m : machine) (x y z : Z) : bool :=
  negb (Z.testbit (peek (display m) z y) (7 - x)).

(** The shape of the array [display[8][8]]. *)
Definition wf_display (d : list (list Z)) : Prop :=
  length d = 8%nat /\ Forall (fun row => length row = 8%nat) d.

Definition in_cube (x y z : Z) : Prop :=
  0 <= x < 8 /\ 0 <= y < 8 /\ 0 <= z < 8.

(** ** Routines that poll the input port *)

(** The result of running a routine on a finite list of port samples. *)
Inductive outcome (A : Type) : Type :=
| Done (a : A) (m : machine) (rest : list Z)   (* returned [a] *)
| Starved (m : machine).                       (* still waiting for a sample *)
Arguments Done {A} a m rest.
Arguments Starved {A} m.

Definition M (A : Type) : Type := list Z -> machine -> outcome A.

Definition ret {A} (a : A) : M A := fun inp m => Done a m inp.

Definition bind {A B} (c : M A) (k : A -> M B) : M B :=
  fun inp m =>
    match c inp m with
    | Done a m' rest => k a rest m'
    | Starved m' => Starved m'
    end.

Notation "x <- c ;; k" := (bind c (fun x => k))
  (at level 100, c at next level, right associativity).
Notation "c ;; k" := (bind c (fun _ => k))
  (at level 100, right associativity).

(** A statement that reads no input. *)
Definition step (f : machine -> machine) : M unit :=
  fun inp m => Done tt (f m) inp.

(** One read of port P4. *)
Definition read_P4 : M Z :=
  fun inp m =>
    match inp with
    | [] => Starved m
    | p :: rest => Done p m rest
    end.

(** Modelled from the spec: the bits [P4_1], [P4_2], [P4_3] are declared in
    the compiler's [stc12.h], which is not among the sources; the spec has
    one input port with three active-low bits, and the source connects
    buttons 1, 2, 3 to them.  [pin p k] is the level of [P4_k] when the
    port reads [p]: bit [k], as the 8051 names its port bits. *)
Definition pin (p k : Z) : bool := Z.testbit p k.

(** Lines 85-92: the button 1 statement of the inner loop, given the
    sample that its read of [P4_1] observed. *)
Definition button1 (p : Z) (m : machine) : machine :=
  if negb (pin p 1) then
    if p41key m =? 0 then
      delay 100 (store_pause (lnot (pause_flag m)) (store_p41key 1 m))
    else m
  else store_p41key 0 m.

(** Lines 84-95: [while (1) { button 1; if (!pause) break; }]. *)
Fixpoint spin_loop (inp : list Z) (m : machine) {struct inp} : outcome unit :=
  match inp with
  | [] => Starved m
  | p :: rest =>
      let m' := button1 p m in
      if pause_flag m' =? 0 then Done tt m' rest else spin_loop rest m'
  end.

(** Lines 98-106.  The [else] of the source belongs to the inner [if]:
    [if (!P4_2) if (!p42key) {...} else p42key = 0;].  [Some r] is
    [return(r)]. *)
Definition button2 (p : Z) (m : machine) : option Z * machine :=
  if negb (pin p 2) then
    if p42key m =? 0 then
      (Some 1, delay 100 (store_mode 0 (store_p42key 1 m)))
    else (None, store_p42key 0 m)
  else (None, m).

(** Lines 109-117.  [mode] stays in [0,5), so the [int] addition does not
    overflow; [%] of C truncates, [Z.rem]. *)
Definition button3 (p : Z) (m : machine) : option Z * machine :=
  if negb (pin p 3) then
    if p43key m =? 0 then
      (Some 1, delay 100 (store_mode (Z.rem (mode m + 1) 5) (store_p43key 1 m)))
    else (None, m)
  else (None, store_p43key 0 m).

Definition handle (h : Z -> machine -> option Z * machine) : M (option Z) :=
  p <- read_P4 ;;
  fun inp m => let (r, m') := h p m in Done r m' inp.

(** Lines 83-117: the three button checks of one iteration. *)
Definition poll : M (option Z) :=
  spin_loop ;;
  r <- handle button2 ;;
  match r with
  | Some v => ret (Some v)
  | None => handle button3
  end.

(** Lines 81-117: the body of [while (i--)]. *)
Definition tick : M (option Z) := step delay5us ;; poll.

Fixpoint pause_loop (n : nat) : M Z :=
  match n with
  | O => ret 0
  | S n' =>
      r <- tick ;;
      match r with
      | Some v => ret v
      | None => pause_loop n'
      end
  end.

(** [int pause(unsigned int i)]. *)
Definition pause (i : Z) : M Z := pause_loop (Z.to_nat (uint i)).

(** ** Pattern generators *)

(** A [for] loop over [xs] whose body may return from the function:
    [Some v] is [return(v)], [None] goes on to the next iteration. *)
Fixpoint for_each (xs : list Z) (body : Z -> M (option Z)) : M (option Z) :=
  match xs with
  | [] => ret None
  | x :: xs' =>
      r <- body x ;;
      match r with
      | Some v => ret (Some v)
      | None => for_each xs' body
      end
  end.

(** [if (pause(i)) return(1);] *)
Definition pause_or_return (i : Z) : M (option Z) :=
  r <- pause i ;; ret (if r =? 0 then None else Some 1).

(** The end of a function body: [return(v)] unless it returned before. *)
Definition or_return (v : Z) (r : option Z) : M Z :=
  ret (match r with Some w => w | None => v end).

Definition all : M Z :=
  step (set_all 1) ;;
  r <- pause_or_return 60000 ;;
  match r with
  | Some v => ret v
  | None =>
      step (set_all 0) ;;
      r <- pause_or_return 60000 ;;
      or_return 0 r
  end.

Definition sweep (set_plane : Z -> Z -> machine -> machine) : M (option Z) :=
  for_each (seqZ 0 8) (fun k =>
    step (set_plane k 1) ;;
    r <- pause_or_return 10000 ;;
    match r with
    | Some v => ret (Some v)
    | None => step (set_plane k 0) ;; ret None
    end).

Definition planes : M Z :=
  step (set_all 0) ;;
  r <- sweep set_x_plane ;;
  match r with
  | Some v => ret v
  | None =>
      r <- sweep set_y_plane ;;
      match r with
      | Some v => ret v
      | None => r <- sweep set_z_plane ;; or_return 0 r
      end
  end.

Definition points : M Z :=
  step (set_all 0) ;;
  r <- for_each (seqZ 0 8) (fun x =>
         for_each (seqZ 0 8) (fun y =>
           for_each (seqZ 0 8) (fun z =>
             step (set_point x y z 1) ;;
             r <- pause_or_return 1000 ;;
             match r with
             | Some v => ret (Some v)
             | None => step (set_point x y z 0) ;; ret None
             end))) ;;
  or_return 0 r.

(** The glyphs of "DAVE", one row byte per z, positive logic. *)
Definition dave_glyphs : list (list Z) :=
  [ [0xf8; 0xfc; 0xc6; 0xc3; 0xc3; 0xc6; 0xfc; 0xf8];
    [0xc3; 0xc3; 0xff; 0xff; 0xc3; 0x66; 0x3c; 0x18];
    [0x18; 0x3c; 0x66; 0xc3; 0xc3; 0xc3; 0xc3; 0xc3];
    [0xff; 0xff; 0xc0; 0xf8; 0xf8; 0xc0; 0xff; 0xff] ].

Definition dave : M Z :=
  step (set_all 0) ;;
  r <- for_each (seqZ 0 4) (fun c =>
         for_each (seqZ 0 8) (fun y =>
           step (character_on_y y (dave_glyphs !!! Z.to_nat c)) ;;
           r <- pause_or_return 5000 ;;
           match r with
           | Some v => ret (Some v)
           | None => step (set_y_plane y 0) ;; ret None
           end)) ;;
  match r with
  | Some v => ret v
  | None =>
      step (set_all 1) ;;
      r <- pause_or_return 30000 ;;
      or_return 0 r
  end.

(** ** Dispatch *)

(** The [switch (mode)] of [main]: one iteration of its [while(1)]. *)
Definition dispatch : M unit :=
  fun inp m =>
    (if mode m =? 0 then dave ;; ret tt
     else if mode m =? 1 then points ;; ret tt
     else if mode m =? 2 then planes ;; ret tt
     else if mode m =? 3 then all ;; ret tt
     else if mode m =? 4 then
       r <- dave ;;
       if r =? 0 then
         r <- points ;;
         if r =? 0 then
           r <- planes ;;
           if r =? 0 then all ;; ret tt else ret tt
         else ret tt
       else ret tt
     else ret tt) inp m.

(** [n] iterations of the [while(1)] of [main]. *)
Fixpoint main_loop (n : nat) : M unit :=
  match n with
  | O => ret tt
  | S n' => dispatch ;; main_loop n'
  end.

Definition main (n : nat) : M unit :=
  step sinter ;; step (out P4 255) ;; main_loop n.

(** ** The timer interrupt *)

Definition timer_isr (m : machine) : machine :=
  let m1 := out P1 255 m in
  let m2 :=
    for8 (fun i s =>
      delay 3 (out P0 (peek (display s) (layer s) i)
        (delay 3 (out P2 (uchar (Z.shiftl 1 i)) s)))) m1 in
  let m3 := out P1 (uchar (Z.lnot (Z.shiftl 1 (layer m2)))) m2 in
  let m4 := store_layer (uchar (layer m3 + 1)) m3 in
  let m5 := if layer m4 >? 7 then store_layer 0 m4 else m4 in
  out TL0 0 (out TH0 192 m5).

(** ** Vocabulary of the statements *)

Definition final {A} (o : outcome A) : machine :=
  match o with Done _ m _ => m | Starved m => m end.

Definition result {A} (o : outcome A) : option A :=
  match o with Done a _ _ => Some a | Starved _ => None end.

(** The stores of a trace that go to [l]. *)
Definition stores_to (l : loc) (t : list event) : list event :=
  filter (fun e => target e = l) t.

Definition is_display (l : loc) : Prop :=
  match l with Ldisplay _ _ => True | _ => False end.

#[global] Instance is_display_dec l : Decision (is_display l).
Proof. destruct l; simpl; apply _. Defined.

(** The stores of a trace that go to the frame buffer. *)
Definition display_stores (t : list event) : list event :=
  filter (fun e => is_display (target e)) t.

(** [m'] is reached from [m] by stores to places in [L] only: the trace
    grew by such stores, and every variable outside [L] kept its value. *)
Record modifies (L : loc -> Prop) (m m' : machine) : Prop := {
  mod_trace : exists t, trace m' = trace m ++ t /\ Forall (fun e => L (target e)) t;
  mod_display : (forall z y, ~ L (Ldisplay z y)) -> display m' = display m;
  mod_mode : ~ L Lmode -> mode m' = mode m;
  mod_pause : ~ L Lpause -> pause_flag m' = pause_flag m;
  mod_p41key : ~ L Lp41key -> p41key m' = p41key m;
  mod_p42key : ~ L Lp42key -> p42key m' = p42key m;
  mod_p43key : ~ L Lp43key -> p43key m' = p43key m;
  mod_layer : ~ L Llayer -> layer m' = layer m
}.

(** Every run of [c] stores to places in [L] only. *)
Definition frames {A} (L : loc -> Prop) (c : M A) : Prop :=
  forall inp m, modifies L m (final (c inp m)).

(** Buttons as seen in a port sample. *)
Definition pressed (k p : Z) : Prop := pin p k = false.
Definition released (k p : Z) : Prop := pin p k = true.

(** The pattern generators, in the order of their modes. *)
Inductive generator : Type := Dave | Points | Planes | All.

Definition run (g : generator) : M Z :=
  match g with Dave => dave | Points => points | Planes => planes | All => all end.

(** What a generator does to the frame buffer before its first call of
    [pause], and the budget of that call. *)
Definition before_first_wait (g : generator) (m : machine) : machine :=
  match g with
  | Dave => character_on_y 0 (dave_glyphs !!! Z.to_nat 0) (set_all 0 m)
  | Points => set_point 0 0 0 1 (set_all 0 m)
  | Planes => set_x_plane 0 1 (set_all 0 m)
  | All => set_all 1 m
  end.

Definition first_wait (g : generator) : Z :=
  match g with Dave => 5000 | Points => 1000 | Planes => 10000 | All => 60000 end.

(** The stores of one firing of the interrupt with layer [l] current and
    frame buffer [d]. *)
Definition scan (d : list (list Z)) (l : Z) : list event :=
  [Store (Lsfr P1) 255]
  ++ flat_map (fun i => [Store (Lsfr P2) (2 ^ i); Store (Lsfr P0) (peek d l i)])
              (seqZ 0 8)
  ++ [Store (Lsfr P1) (255 - 2 ^ l)]
  ++ (if l =? 7 then [Store Llayer 8; Store Llayer 0] else [Store Llayer (l + 1)])
  ++ [Store (Lsfr TH0) 192; Store (Lsfr TL0) 0].

(** The anode layers that a value of port P1 drives (a cleared bit). *)
Definition live_layers (v : Z) : list Z :=
  filter (fun k => Z.testbit v k = false) (seqZ 0 8).

(** The places [pause] may store to, and those of the main thread. *)
Definition spin_locs (l : loc) : Prop := l = Lpause \/ l = Lp41key.

Definition button_locs (l : loc) : Prop :=
  l = Lmode \/ l = Lpause \/ l = Lp41key \/ l = Lp42key \/ l = Lp43key.

Definition animator_locs (l : loc) : Prop := button_locs l \/ is_display l.

Definition main_locs (l : loc) : Prop :=
  animator_locs l \/ (exists r, l = Lsfr r /\ r <> P0 /\ r <> P1 /\ r <> P2).

Definition isr_locs (l : loc) : Prop :=
  l = Llayer \/ (exists r, l = Lsfr r).

(** The stores by which [pause] latches a press of a mode button. *)
Definition mode_edges (t : list event) : list event :=
  filter (fun e => e = Store Lp42key 1 \/ e = Store Lp43key 1) t.

(** From [m] to [m'] no mode button press was latched and [mode] was not
    stored to. *)
Definition quiet (m m' : machine) : Prop :=
  mode m' = mode m /\
  exists t, trace m' = trace m ++ t /\ stores_to Lmode t = [] /\ mode_edges t = [].

(** From [m] to [m'] the last two stores latched a press of a mode button
    and stored the new [mode]; nothing of the kind happened before. *)
Definition fired (m m' : machine) : Prop :=
  exists m1 k, quiet m m1 /\ (k = Lp42key \/ k = Lp43key) /\
    trace m' = trace m1 ++ [Store k 1; Store Lmode (mode m')].

(** The places the two mode button checks store to. *)
Definition mode_locs (l : loc) : Prop := l = Lmode \/ l = Lp42key \/ l = Lp43key.

(** What [pause] does with the outcome of the button checks of an
    iteration, [n] iterations being left after this one. *)
Definition after_poll (n : nat) (o : outcome (option Z)) : outcome Z :=
  match o with
  | Done (Some v) m rest => Done v m rest
  | Done None m rest => pause_loop n rest m
  | Starved m => Starved m
  end.

(** The machines that firings of the interrupt and progress of the main
    thread, in any interleaving, lead to from reset.  Progress of the main
    thread is any number of stores to the places it stores to. *)
Inductive reachable : machine -> Prop :=
| reach_reset : reachable reset_machine
| reach_isr m : reachable m -> reachable (timer_isr m)
| reach_main m m' : reachable m -> modifies main_locs m m' -> reachable m'.

(** The calls of the display primitives. *)
Inductive paints : (machine -> machine) -> Prop :=
| paints_set_all v : paints (set_all v)
| paints_set_x_plane x v : paints (set_x_plane x v)
| paints_set_y_plane y v : paints (set_y_plane y v)
| paints_set_z_plane z v : paints (set_z_plane z v)
| paints_set_point x y z v : paints (set_point x y z v)
| paints_character_on_y y c : paints (character_on_y y c).

Definition keeps_shape (m m' : machine) : Prop :=
  wf_display (display m) -> wf_display (display m').

(** Every run of [c] takes the machine to one related by [R]. *)
Definition respects {A} (R : machine -> machine -> Prop) (c : M A) : Prop :=
  forall inp m, R m (final (c inp m)).

(** Traces in which every store to [mode] comes right after the store that
    latches a press of button 2 (and then stores 0) or of button 3. *)
Inductive latched : list event -> Prop :=
| latched_nil : latched []
| latched_other e t : target e <> Lmode -> latched t -> latched (e :: t)
| latched_press k v t :
    (k = Lp42key /\ v = 0) \/ k = Lp43key -> latched t ->
    latched (Store k 1 :: Store Lmode v :: t).

Definition tidy (m m' : machine) : Prop :=
  exists t, trace m' = trace m ++ t /\ latched t.

Definition mode_in_range (m : machine) : Prop := 0 <= mode m < 5.

Definition keeps_mode_in_range (m m' : machine) : Prop :=
  mode_in_range m -> mode_in_range m'.

(** Case analysis on an index of [0,8). *)
Ltac index8 k :=
  let H := fresh in
  assert (H : k = 0 \/ k = 1 \/ k = 2 \/ k = 3 \/ k = 4 \/ k = 5 \/ k = 6 \/ k = 7)
    by lia;
  destruct H as [-> | [-> | [-> | [-> | [-> | [-> | [-> | ->]]]]]]].

Ltac other_cell := let E := fresh in intros E; injection E; lia.

(** What is left of the samples when a routine returns: all of them
    satisfy [Pin]. *)
Definition rest_all {A} (Pin : Z -> Prop) (o : outcome A) : Prop :=
  match o with Done _ _ rest => Forall Pin rest | Starved _ => True end.

(** On samples that all satisfy [Pin], every run of [c] takes the machine
    to one related by [R], and the samples it leaves satisfy [Pin]. *)
Definition respects_on {A} (Pin : Z -> Prop) (R : machine -> machine -> Prop)
    (c : M A) : Prop :=
  forall inp m, Forall Pin inp -> R m (final (c inp m)) /\ rest_all Pin (c inp m).

(** From [m] to [m'] the pause flag was not stored to, resp. was stored to
    exactly once, with its negation. *)
Definition untoggled (m m' : machine) : Prop :=
  stores_to Lpause (trace m') = stores_to Lpause (trace m)
  /\ pause_flag m' = pause_flag m.

Definition toggled_once (m m' : machine) : Prop :=
  stores_to Lpause (trace m')
  = stores_to Lpause (trace m) ++ [Store Lpause (lnot (pause_flag m))]
  /\ pause_flag m' = lnot (pause_flag m).

(** What a stretch of the program does from [m] to [m'] while button 1 is
    held low: with the latch set it does not toggle and the latch stays
    set; with the latch clear it either has not looked at the button yet,
    or has toggled once and set the latch. *)
Definition held_through (m m' : machine) : Prop :=
  (p41key m <> 0 -> untoggled m m' /\ p41key m' <> 0)
  /\ (p41key m = 0 ->
        (untoggled m m' /\ p41key m' = 0)
        \/ (toggled_once m m' /\ p41key m' <> 0)).

(** The same while button 1 is released: no toggle, and a clear latch
    stays clear. *)
Definition released_through (m m' : machine) : Prop :=
  untoggled m m' /\ (p41key m = 0 -> p41key m' = 0).

(** ** Vocabulary of the further properties *)

(** What [set_point] and [set_x_plane] do to a byte of the frame buffer:
    bit [7-x] is cleared (LED on) for a true [v], set (LED off) for 0. *)
Definition paint_byte (x v b : Z) : Z :=
  if v =? 0 then uchar (Z.lor b (Z.shiftr 128 x))
  else uchar (Z.land b (Z.lnot (Z.shiftr 128 x))).

(** A loop of stores to the frame buffer, one for each index [i] of [xs]:
    the cell [cell i] gets [f i] of the byte it holds. *)
Definition update_cells (cell : Z -> Z * Z) (f : Z -> Z -> Z) (xs : list Z)
    (m : machine) : machine :=
  fold_left
    (fun s i => store_display (fst (cell i)) (snd (cell i))
                  (f i (peek (display s) (fst (cell i)) (snd (cell i)))) s)
    xs m.

(** The two nested loops over all rows [j] and bytes [i]: every cell gets
    [f] of the byte it holds. *)
Definition update_all (f : Z -> Z) (m : machine) : machine :=
  for8 (fun j => update_cells (fun i => (j, i)) (fun _ => f) (seqZ 0 8)) m.

(** The cube shows the picture [pic]: the frame buffer has its shape and
    the LED at (x,y,z) is on exactly when [pic x y z]. *)
Definition shows (pic : Z -> Z -> Z -> bool) (m : machine) : Prop :=
  wf_display (display m) /\
  forall x y z, in_cube x y z -> led_on m x y z = pic x y z.

(** The pictures of the generators: all LEDs in state [b], one LED, one
    plane of an axis, and a glyph (8 row bytes, positive logic) on a y
    plane. *)
Definition blank (b : bool) : Z -> Z -> Z -> bool := fun _ _ _ => b.

Definition point_at (x y z : Z) : Z -> Z -> Z -> bool :=
  fun x' y' z' => (x' =? x) && (y' =? y) && (z' =? z).

Definition x_plane_at (k : Z) : Z -> Z -> Z -> bool := fun x' _ _ => x' =? k.
Definition y_plane_at (k : Z) : Z -> Z -> Z -> bool := fun _ y' _ => y' =? k.
Definition z_plane_at (k : Z) : Z -> Z -> Z -> bool := fun _ _ z' => z' =? k.

Definition glyph_at (y : Z) (c : list Z) : Z -> Z -> Z -> bool :=
  fun x' y' z' => (y' =? y) && Z.testbit (c !!! Z.to_nat z') (7 - x').

(** What the generators show while they wait: one LED, one plane, one
    glyph of "DAVE" on one y plane, or all LEDs alike. *)
Definition one_point (m : machine) : Prop :=
  exists x y z, in_cube x y z /\ shows (point_at x y z) m.

Definition one_plane (m : machine) : Prop :=
  exists k, 0 <= k < 8 /\
    (shows (x_plane_at k) m \/ shows (y_plane_at k) m \/ shows (z_plane_at k) m).

Definition one_glyph (m : machine) : Prop :=
  exists c y, 0 <= c < 4 /\ 0 <= y < 8 /\
    shows (glyph_at y (dave_glyphs !!! Z.to_nat c)) m.

Definition uniform (m : machine) : Prop := exists b, shows (blank b) m.

Definition frame_of (g : generator) (m : machine) : Prop :=
  match g with
  | Dave => one_glyph m \/ shows (blank true) m
  | Points => one_point m
  | Planes => one_plane m
  | All => uniform m
  end.

(** The state of all LEDs when a generator has run to its end. *)
Definition rest_of (g : generator) : bool :=
  match g with Dave => true | _ => false end.

(** A specification of a routine: from a machine that satisfies [P], a
    run that returns [a] ends in a machine that satisfies [Q a], and a run
    that is still waiting for a sample of the port is in a machine that
    satisfies [W]. *)
Definition triple {A} (P : machine -> Prop) (c : M A)
    (Q : A -> machine -> Prop) (W : machine -> Prop) : Prop :=
  forall inp m, P m ->
    match c inp m with
    | Done a m' _ => Q a m'
    | Starved m' => W m'
    end.

(** A sample of the port in which no button is pressed. *)
Definition idle (p : Z) : Prop := released 1 p /\ released 2 p /\ released 3 p.

(** [c] left alone: with the pause flag clear and [3 n] samples in which
    no button is pressed, [c] reads exactly these samples, calls
    [delay5us] exactly [n] times and returns [a], with the pause flag
    and the mode as they were. *)
Definition undisturbed {A} (c : M A) (a : A) (n : Z) : Prop :=
  forall samples rest m,
    pause_flag m = 0 -> Forall idle samples ->
    Z.of_nat (length samples) = 3 * n ->
    exists m', c (samples ++ rest) m = Done a m' rest
      /\ pause_flag m' = 0 /\ mode m' = mode m /\ ticks m' = ticks m + n.

(** The sum of the budgets of the calls of [pause] of a generator. *)
Definition duration (g : generator) : Z :=
  match g with
  | Dave => 4 * 8 * 5000 + 30000
  | Points => 8 * 8 * 8 * 1000
  | Planes => 3 * 8 * 10000
  | All => 2 * 60000
  end.

(** The generators that one round of the main loop runs in mode [k], and
    the sum of their durations. *)
Definition programme (k : Z) : list generator :=
  if k =? 0 then [Dave]
  else if k =? 1 then [Points]
  else if k =? 2 then [Planes]
  else if k =? 3 then [All]
  else if k =? 4 then [Dave; Points; Planes; All]
  else [].

Definition round (k : Z) : Z :=
  foldr (fun g n => duration g + n) 0 (programme k).

(* ================================================================= *)
(** * Properties *)

(** ** The frame buffer *)

Lemma peek_poke_eq d z y v :
  wf_display d -> 0 <= z < 8 -> 0 <= y < 8 -> peek (poke d z y v) z y = v.
Proof.
  intros [Hlen Hrows] Hz Hy. unfold peek, poke.
  rewrite list_lookup_total_insert_eq by lia.
  apply list_lookup_total_insert_eq.
  assert (Hin : (Z.to_nat z < length d)%nat) by lia.
  destruct (lookup_lt_is_Some_2 d _ Hin) as [row Hrow].
  rewrite (list_lookup_total_correct _ _ _ Hrow).
  rewrite Forall_lookup in Hrows. rewrite (Hrows _ _ Hrow). lia.
Qed.

Lemma peek_poke_ne d z y v z' y' :
  0 <= z -> 0 <= y -> 0 <= z' -> 0 <= y' ->
  (z', y') <> (z, y) -> peek (poke d z y v) z' y' = peek d z' y'.
Proof.
  intros Hz Hy Hz' Hy' Hne. unfold peek, poke.
  destruct (decide (Z.to_nat z = Z.to_nat z')) as [Heq | Hzz].
  - assert (z = z') by lia. subst z'.
    assert (Hyy : Z.to_nat y <> Z.to_nat y') by (intros E; apply Hne; f_equal; lia).
    destruct (decide (Z.to_nat z < length d)%nat) as [Hin | Hout].
    + rewrite list_lookup_total_insert_eq by lia.
      now rewrite list_lookup_total_insert_ne.
    + now rewrite list_insert_ge by lia.
  - now rewrite list_lookup_total_insert_ne.
Qed.

Lemma wf_poke d z y v : wf_display d -> wf_display (poke d z y v).
Proof.
  intros [Hlen Hrows]. unfold poke.
  destruct (decide (Z.to_nat z < length d)%nat) as [Hin | Hout].
  - split; [now rewrite length_insert |].
    apply Forall_insert; [assumption |].
    rewrite length_insert.
    destruct (lookup_lt_is_Some_2 d _ Hin) as [row Hrow].
    rewrite (list_lookup_total_correct _ _ _ Hrow).
    rewrite Forall_lookup in Hrows. now apply (Hrows _ _ Hrow).
  - rewrite list_insert_ge by lia. now split.
Qed.

Lemma testbit_mask x k :
  0 <= x -> 0 <= k -> Z.testbit (Z.shiftr 128 x) k = (k + x =? 7).
Proof.
  intros Hx Hk. rewrite Z.shiftr_spec by assumption.
  change 128 with (2 ^ 7). rewrite Z.pow2_bits_eqb by lia.
  apply Z.eqb_sym.
Qed.

Lemma testbit_uchar v k : 0 <= k < 8 -> Z.testbit (uchar v) k = Z.testbit v k.
Proof.
  intros Hk. unfold uchar. change 256 with (2 ^ 8).
  apply Z.mod_pow2_bits_low. lia.
Qed.

(** The byte that [set_point] stores, bit by bit. *)
Lemma set_point_bits x y z v m k :
  wf_display (display m) -> in_cube x y z -> 0 <= k < 8 ->
  Z.testbit (peek (display (set_point x y z v m)) z y) k =
    if k + x =? 7 then (v =? 0) else Z.testbit (peek (display m) z y) k.
Proof.
  intros Hwf (Hx & Hy & Hz) Hk. unfold set_point.
  destruct (v =? 0); simpl; rewrite peek_poke_eq by (assumption || lia);
    rewrite testbit_uchar by lia.
  - rewrite Z.lor_spec, testbit_mask by lia.
    destruct (k + x =? 7); [apply orb_true_r | apply orb_false_r].
  - rewrite Z.land_spec, Z.lnot_spec, testbit_mask by lia.
    destruct (k + x =? 7); [apply andb_false_r | apply andb_true_r].
Qed.

Lemma set_point_other_byte x y z v m z' y' :
  0 <= z -> 0 <= y -> 0 <= z' -> 0 <= y' -> (z', y') <> (z, y) ->
  peek (display (set_point x y z v m)) z' y' = peek (display m) z' y'.
Proof.
  intros. unfold set_point.
  destruct (v =? 0); simpl; now apply peek_poke_ne.
Qed.

(** C8.  For every coordinate of the cube, [set_point] with a true value
    leaves the LED on, with a false value leaves it off, and in both cases
    each of the other 511 LEDs keeps its state (and the frame buffer its
    shape). *)
Theorem set_point_isolated m x y z :
  wf_display (display m) -> in_cube x y z ->
  (forall v, v <> 0 -> led_on (set_point x y z v m) x y z = true)
  /\ led_on (set_point x y z 0 m) x y z = false
  /\ (forall v x' y' z', in_cube x' y' z' -> (x', y', z') <> (x, y, z) ->
        led_on (set_point x y z v m) x' y' z' = led_on m x' y' z')
  /\ (forall v, wf_display (display (set_point x y z v m))).
Proof.
  intros Hwf Hc. pose proof Hc as (Hx & Hy & Hz).
  split; [| split; [| split]]; cycle 3.
  { intros v. unfold set_point. destruct (v =? 0); simpl; now apply wf_poke. }
  - intros v Hv. unfold led_on.
    rewrite set_point_bits by (assumption || lia).
    replace (7 - x + x =? 7) with true by (symmetry; apply Z.eqb_eq; lia).
    apply Z.eqb_neq in Hv. now rewrite Hv.
  - unfold led_on. rewrite set_point_bits by (assumption || lia).
    replace (7 - x + x =? 7) with true by (symmetry; apply Z.eqb_eq; lia).
    reflexivity.
  - intros v x' y' z' (Hx' & Hy' & Hz') Hne. unfold led_on. f_equal.
    destruct (decide ((z', y') = (z, y))) as [E | E].
    + injection E as -> ->.
      rewrite set_point_bits by (assumption || lia).
      replace (7 - x' + x =? 7) with false; [reflexivity |].
      symmetry. apply Z.eqb_neq. intros E. apply Hne.
      assert (x' = x) by lia. congruence.
    + f_equal. apply set_point_other_byte; (assumption || lia).
Qed.

Lemma wf_reset : wf_display (display reset_machine).
Proof. split; [reflexivity | simpl; repeat constructor]. Qed.

Lemma set_point_isolated_witness :
  led_on (set_point 1 2 3 0 reset_machine) 1 2 3 = false.
Proof.
  refine (proj1 (proj2 (set_point_isolated reset_machine 1 2 3 wf_reset _))).
  unfold in_cube. lia.
Defined.

(** Row [z] of plane [y] after [character_on_y] is the complement of the
    glyph row [c[z]]. *)
Lemma character_on_y_row y c m z :
  wf_display (display m) -> 0 <= y < 8 -> 0 <= z < 8 ->
  peek (display (character_on_y y c m)) z y = uchar (Z.lnot (c !!! Z.to_nat z)).
Proof.
  intros Hwf Hy Hz. unfold character_on_y, for8.
  change (seqZ 0 8) with [0; 1; 2; 3; 4; 5; 6; 7]. simpl.
  index8 z;
    repeat (rewrite peek_poke_ne by (lia || other_cell));
    (rewrite peek_poke_eq by (repeat apply wf_poke; assumption || lia));
    reflexivity.
Qed.

(** C9.  The glyph whose rows are 0xFF,0,0,0,0,0,0,0, put on plane y=2,
    lights the 8 LEDs of (y=2, z=0) and leaves the LEDs of (y=2, z) off
    for z = 1..7. *)
Theorem glyph_top_row_on_plane_2 m x :
  wf_display (display m) -> 0 <= x < 8 ->
  led_on (character_on_y 2 [255; 0; 0; 0; 0; 0; 0; 0] m) x 2 0 = true
  /\ (forall z, 1 <= z <= 7 ->
        led_on (character_on_y 2 [255; 0; 0; 0; 0; 0; 0; 0] m) x 2 z = false).
Proof.
  intros Hwf Hx. split.
  - unfold led_on. rewrite character_on_y_row by (assumption || lia).
    change (uchar _) with 0. now rewrite Z.bits_0.
  - intros z Hz. unfold led_on.
    rewrite character_on_y_row by (assumption || lia).
    index8 z; try lia; index8 x; reflexivity.
Qed.

Lemma glyph_top_row_on_plane_2_witness :
  led_on (character_on_y 2 [255; 0; 0; 0; 0; 0; 0; 0] reset_machine) 5 2 0 = true
  /\ led_on (character_on_y 2 [255; 0; 0; 0; 0; 0; 0; 0] reset_machine) 5 2 4 = false.
Proof.
  destruct (glyph_top_row_on_plane_2 reset_machine 5 wf_reset) as [Hon Hoff];
    [lia |].
  split; [exact Hon | apply Hoff; lia].
Defined.

(** ** Frames: which places a routine stores to *)

Lemma delay_eq i m :
  delay i m =
  Machine (display m) (mode m) (pause_flag m) (p41key m) (p42key m) (p43key m)
          (layer m) (ticks m + uint i) (trace m).
Proof.
  unfold delay.
  assert (Hu : 0 <= uint i) by (unfold uint; apply Z.mod_pos_bound; lia).
  rewrite <- (Z2Nat.id (uint i)) at 2 by assumption.
  induction (Z.to_nat (uint i)) as [| n IH].
  - destruct m; simpl. f_equal. lia.
  - simpl Nat.iter. rewrite IH. unfold delay5us; simpl. f_equal. lia.
Qed.

Section Frames.
Variable L : loc -> Prop.

Lemma modifies_refl m : modifies L m m.
Proof.
  split; try reflexivity.
  exists []. split; [now rewrite app_nil_r | constructor].
Qed.

Lemma modifies_trans m1 m2 m3 :
  modifies L m1 m2 -> modifies L m2 m3 -> modifies L m1 m3.
Proof.
  intros [[t1 [E1 F1]] D1 Mo1 Pa1 K1 K2 K3 La1]
         [[t2 [E2 F2]] D2 Mo2 Pa2 J1 J2 J3 La2].
  split.
  - exists (t1 ++ t2). split.
    + now rewrite E2, E1, app_assoc.
    + now apply Forall_app.
  - intros H. now rewrite D2, D1.
  - intros H. now rewrite Mo2, Mo1.
  - intros H. now rewrite Pa2, Pa1.
  - intros H. now rewrite J1, K1.
  - intros H. now rewrite J2, K2.
  - intros H. now rewrite J3, K3.
  - intros H. now rewrite La2, La1.
Qed.

Lemma modifies_log l v m m' :
  L l -> trace m' = trace m ++ [Store l v] ->
  exists t, trace m' = trace m ++ t /\ Forall (fun e => L (target e)) t.
Proof. intros Hl E. exists [Store l v]. split; [assumption | now repeat constructor]. Qed.

Lemma modifies_store_display z y v m :
  L (Ldisplay z y) -> modifies L m (store_display z y v m).
Proof.
  intros Hl. split; try reflexivity.
  - now apply (modifies_log (Ldisplay z y) v).
  - intros H. now destruct (H z y).
Qed.

Lemma modifies_store_mode v m : L Lmode -> modifies L m (store_mode v m).
Proof.
  intros Hl. split; try reflexivity; try tauto.
  now apply (modifies_log Lmode v).
Qed.

Lemma modifies_store_pause v m : L Lpause -> modifies L m (store_pause v m).
Proof.
  intros Hl. split; try reflexivity; try tauto.
  now apply (modifies_log Lpause v).
Qed.

Lemma modifies_store_p41key v m : L Lp41key -> modifies L m (store_p41key v m).
Proof.
  intros Hl. split; try reflexivity; try tauto.
  now apply (modifies_log Lp41key v).
Qed.

Lemma modifies_store_p42key v m : L Lp42key -> modifies L m (store_p42key v m).
Proof.
  intros Hl. split; try reflexivity; try tauto.
  now apply (modifies_log Lp42key v).
Qed.

Lemma modifies_store_p43key v m : L Lp43key -> modifies L m (store_p43key v m).
Proof.
  intros Hl. split; try reflexivity; try tauto.
  now apply (modifies_log Lp43key v).
Qed.

Lemma modifies_store_layer v m : L Llayer -> modifies L m (store_layer v m).
Proof.
  intros Hl. split; try reflexivity; try tauto.
  now apply (modifies_log Llayer v).
Qed.

Lemma modifies_out r v m : L (Lsfr r) -> modifies L m (out r v m).
Proof.
  intros Hl. split; try reflexivity.
  now apply (modifies_log (Lsfr r) v).
Qed.

Lemma modifies_delay5us m : modifies L m (delay5us m).
Proof.
  split; try reflexivity.
  exists []. split; [simpl; now rewrite app_nil_r | constructor].
Qed.

Lemma modifies_delay i m : modifies L m (delay i m).
Proof.
  rewrite delay_eq. split; try reflexivity.
  exists []. split; [simpl; now rewrite app_nil_r | constructor].
Qed.

Lemma modifies_fold (body : Z -> machine -> machine) xs m :
  (forall i s, modifies L s (body i s)) ->
  modifies L m (fold_left (fun s i => body i s) xs m).
Proof.
  intros Hb. revert m. induction xs as [| x xs IH]; intros m; simpl.
  - apply modifies_refl.
  - eapply modifies_trans; [apply Hb | apply IH].
Qed.

Lemma modifies_for8 (body : Z -> machine -> machine) m :
  (forall i s, modifies L s (body i s)) -> modifies L m (for8 body m).
Proof. apply modifies_fold. Qed.
End Frames.

Lemma modifies_weaken (L L' : loc -> Prop) m m' :
  (forall l, L l -> L' l) -> modifies L m m' -> modifies L' m m'.
Proof.
  intros Hsub [[t [E F]] D Mo Pa K1 K2 K3 La].
  split; try (intros H; eauto).
  - exists t. split; [assumption |].
    eapply Forall_impl; [exact F |]. intros e He. now apply Hsub.
  - apply D. intros z y Hl. apply (H z y). now apply Hsub.
Qed.

Lemma frames_weaken {A} (L L' : loc -> Prop) (c : M A) :
  (forall l, L l -> L' l) -> frames L c -> frames L' c.
Proof. intros Hsub Hc inp m. eapply modifies_weaken; [exact Hsub | apply Hc]. Qed.

(** The display primitives store to the frame buffer only. *)
Lemma modifies_set_all v m : modifies is_display m (set_all v m).
Proof.
  unfold set_all. apply modifies_for8. intros j s. apply modifies_for8.
  intros i s'. now apply modifies_store_display.
Qed.

Lemma modifies_set_x_plane x v m : modifies is_display m (set_x_plane x v m).
Proof.
  unfold set_x_plane. apply modifies_for8. intros j s. apply modifies_for8.
  intros i s'. destruct (v =? 0); now apply modifies_store_display.
Qed.

Lemma modifies_set_y_plane y v m : modifies is_display m (set_y_plane y v m).
Proof.
  unfold set_y_plane. apply modifies_for8. intros j s.
  destruct (v =? 0); now apply modifies_store_display.
Qed.

Lemma modifies_set_z_plane z v m : modifies is_display m (set_z_plane z v m).
Proof.
  unfold set_z_plane. apply modifies_for8. intros j s.
  destruct (v =? 0); now apply modifies_store_display.
Qed.

Lemma modifies_set_point x y z v m : modifies is_display m (set_point x y z v m).
Proof. unfold set_point. destruct (v =? 0); now apply modifies_store_display. Qed.

Lemma modifies_character_on_y y c m : modifies is_display m (character_on_y y c m).
Proof.
  unfold character_on_y. apply modifies_for8. intros j s.
  now apply modifies_store_display.
Qed.

(** The button statements. *)
Lemma modifies_button1 p m : modifies spin_locs m (button1 p m).
Proof.
  unfold button1, spin_locs. destruct (negb (pin p 1)).
  - destruct (p41key m =? 0); [| apply modifies_refl].
    eapply modifies_trans; [| apply modifies_delay].
    eapply modifies_trans; [apply modifies_store_p41key | apply modifies_store_pause];
      auto.
  - apply modifies_store_p41key. auto.
Qed.

Lemma modifies_button2 p m :
  modifies (fun l => l = Lmode \/ l = Lp42key) m (snd (button2 p m)).
Proof.
  unfold button2. destruct (negb (pin p 2)); [| apply modifies_refl].
  destruct (p42key m =? 0); simpl.
  - eapply modifies_trans; [| apply modifies_delay].
    eapply modifies_trans; [apply modifies_store_p42key | apply modifies_store_mode];
      auto.
  - apply modifies_store_p42key. auto.
Qed.

Lemma modifies_button3 p m :
  modifies (fun l => l = Lmode \/ l = Lp43key) m (snd (button3 p m)).
Proof.
  unfold button3. destruct (negb (pin p 3)); simpl.
  - destruct (p43key m =? 0); simpl; [| apply modifies_refl].
    eapply modifies_trans; [| apply modifies_delay].
    eapply modifies_trans; [apply modifies_store_p43key | apply modifies_store_mode];
      auto.
  - apply modifies_store_p43key. auto.
Qed.

Lemma paints_modifies f m : paints f -> modifies is_display m (f m).
Proof.
  intros [v | x v | y v | z v | x y z v | y c];
    [apply modifies_set_all | apply modifies_set_x_plane | apply modifies_set_y_plane
    | apply modifies_set_z_plane | apply modifies_set_point
    | apply modifies_character_on_y].
Qed.

(** ** Relations respected by every step of a routine *)

Section Respects.
Variable R : machine -> machine -> Prop.
Hypothesis R_refl : forall m, R m m.
Hypothesis R_trans : forall m1 m2 m3, R m1 m2 -> R m2 m3 -> R m1 m3.

Lemma respects_ret {A} (a : A) : respects R (ret a).
Proof. intros inp m. apply R_refl. Qed.

Lemma respects_step f : (forall m, R m (f m)) -> respects R (step f).
Proof. intros Hf inp m. apply Hf. Qed.

Lemma respects_read_P4 : respects R read_P4.
Proof. intros [| p rest] m; apply R_refl. Qed.

Lemma respects_bind {A B} (c : M A) (k : A -> M B) :
  respects R c -> (forall a, respects R (k a)) -> respects R (bind c k).
Proof.
  intros Hc Hk inp m. unfold bind.
  specialize (Hc inp m). destruct (c inp m) as [a m' rest | m']; simpl in *.
  - eapply R_trans; [exact Hc | apply Hk].
  - exact Hc.
Qed.

Lemma respects_for_each xs body :
  (forall x, respects R (body x)) -> respects R (for_each xs body).
Proof.
  intros Hb. induction xs as [| x xs IH]; simpl.
  - apply respects_ret.
  - apply respects_bind; [apply Hb |].
    intros [v |]; [apply respects_ret | exact IH].
Qed.

Lemma respects_handle h :
  (forall p m, R m (snd (h p m))) -> respects R (handle h).
Proof.
  intros Hh. unfold handle. apply respects_bind; [apply respects_read_P4 |].
  intros p inp m. specialize (Hh p m). now destruct (h p m).
Qed.

(** [pause], from its statements. *)
Hypothesis R_delay5us : forall m, R m (delay5us m).
Hypothesis R_button1 : forall p m, R m (button1 p m).
Hypothesis R_button2 : forall p m, R m (snd (button2 p m)).
Hypothesis R_button3 : forall p m, R m (snd (button3 p m)).

Lemma respects_spin_loop : respects R spin_loop.
Proof.
  intros inp. induction inp as [| p rest IH]; intros m; simpl.
  - apply R_refl.
  - destruct (pause_flag (button1 p m) =? 0); simpl.
    + apply R_button1.
    + eapply R_trans; [apply R_button1 | apply IH].
Qed.

Lemma respects_poll : respects R poll.
Proof.
  unfold poll. apply respects_bind; [apply respects_spin_loop |]. intros _.
  apply respects_bind; [apply respects_handle, R_button2 |].
  intros [v |]; [apply respects_ret | apply respects_handle, R_button3].
Qed.

Lemma respects_tick : respects R tick.
Proof.
  unfold tick. apply respects_bind; [apply respects_step, R_delay5us |].
  intros _. apply respects_poll.
Qed.

Lemma respects_pause_loop n : respects R (pause_loop n).
Proof.
  induction n as [| n IH]; simpl.
  - apply respects_ret.
  - apply respects_bind; [apply respects_tick |].
    intros [v |]; [apply respects_ret | exact IH].
Qed.

Lemma respects_pause i : respects R (pause i).
Proof. apply respects_pause_loop. Qed.

Lemma respects_pause_or_return i : respects R (pause_or_return i).
Proof.
  unfold pause_or_return.
  apply respects_bind; [apply respects_pause | intros r; apply respects_ret].
Qed.

(** The generators and the dispatch loop, from [pause] and the display
    primitives. *)
Hypothesis R_paint : forall f m, paints f -> R m (f m).

Lemma respects_paint f : paints f -> respects R (step f).
Proof. intros Hf. apply respects_step. intros m. now apply R_paint. Qed.

Lemma respects_sweep set_plane :
  (forall k v, paints (set_plane k v)) -> respects R (sweep set_plane).
Proof.
  intros Hp. unfold sweep. apply respects_for_each. intros k.
  apply respects_bind; [apply respects_paint, Hp |]. intros _.
  apply respects_bind; [apply respects_pause_or_return |].
  intros [v |]; [apply respects_ret |].
  apply respects_bind; [apply respects_paint, Hp | intros _; apply respects_ret].
Qed.

(** Every generator starts with [set_all]; what follows respects [R]. *)
Lemma run_shape g :
  exists v k, run g = (step (set_all v) ;; k) /\ respects R k.
Proof.
  destruct g; unfold run, dave, points, planes, all;
    eexists _, _; (split; [reflexivity |]).
  - apply respects_bind.
    { apply respects_for_each. intros c. apply respects_for_each. intros y.
      apply respects_bind; [apply respects_paint, paints_character_on_y |].
      intros _. apply respects_bind; [apply respects_pause_or_return |].
      intros [v |]; [apply respects_ret |].
      apply respects_bind; [apply respects_paint, paints_set_y_plane |].
      intros _; apply respects_ret. }
    intros [v |]; [apply respects_ret |].
    apply respects_bind; [apply respects_paint, paints_set_all |]. intros _.
    apply respects_bind; [apply respects_pause_or_return |].
    intros r. apply respects_ret.
  - apply respects_bind; [| intros r; apply respects_ret].
    apply respects_for_each. intros x. apply respects_for_each. intros y.
    apply respects_for_each. intros z.
    apply respects_bind; [apply respects_paint, paints_set_point |]. intros _.
    apply respects_bind; [apply respects_pause_or_return |].
    intros [v |]; [apply respects_ret |].
    apply respects_bind; [apply respects_paint, paints_set_point |].
    intros _; apply respects_ret.
  - apply respects_bind; [apply respects_sweep, paints_set_x_plane |].
    intros [v |]; [apply respects_ret |].
    apply respects_bind; [apply respects_sweep, paints_set_y_plane |].
    intros [v |]; [apply respects_ret |].
    apply respects_bind; [apply respects_sweep, paints_set_z_plane |].
    intros r. apply respects_ret.
  - apply respects_bind; [apply respects_pause_or_return |].
    intros [v |]; [apply respects_ret |].
    apply respects_bind; [apply respects_paint, paints_set_all |]. intros _.
    apply respects_bind; [apply respects_pause_or_return |].
    intros r. apply respects_ret.
Qed.

Lemma respects_run g : respects R (run g).
Proof.
  destruct (run_shape g) as (v & k & -> & Hk).
  apply respects_bind; [apply respects_paint, paints_set_all |].
  intros _. exact Hk.
Qed.

Lemma respects_dispatch : respects R dispatch.
Proof.
  assert (Hone : forall c : M Z, respects R c -> respects R (c ;; ret tt)).
  { intros c Hc. apply respects_bind; [exact Hc | intros _; apply respects_ret]. }
  intros inp m. unfold dispatch.
  destruct (mode m =? 0); [apply Hone, (respects_run Dave) |].
  destruct (mode m =? 1); [apply Hone, (respects_run Points) |].
  destruct (mode m =? 2); [apply Hone, (respects_run Planes) |].
  destruct (mode m =? 3); [apply Hone, (respects_run All) |].
  destruct (mode m =? 4); [| apply respects_ret].
  revert inp m.
  apply respects_bind; [apply (respects_run Dave) |].
  intros r1. destruct (r1 =? 0); [| apply respects_ret].
  apply respects_bind; [apply (respects_run Points) |].
  intros r2. destruct (r2 =? 0); [| apply respects_ret].
  apply respects_bind; [apply (respects_run Planes) |].
  intros r3. destruct (r3 =? 0); [| apply respects_ret].
  apply Hone, (respects_run All).
Qed.

Lemma respects_main_loop n : respects R (main_loop n).
Proof.
  induction n as [| n IH]; simpl.
  - apply respects_ret.
  - apply respects_bind; [apply respects_dispatch | intros _; exact IH].
Qed.
End Respects.

(** The places each routine stores to. *)
Lemma frames_spin_loop : frames spin_locs spin_loop.
Proof.
  apply respects_spin_loop;
    [apply modifies_refl | apply modifies_trans | apply modifies_button1].
Qed.

Lemma frames_pause i : frames button_locs (pause i).
Proof.
  apply respects_pause; try apply modifies_refl; try apply modifies_trans;
    intros; try apply modifies_delay5us;
    (eapply modifies_weaken;
     [| first [apply modifies_button1 | apply modifies_button2
              | apply modifies_button3]]);
    unfold spin_locs, button_locs; tauto.
Qed.

Lemma modifies_animator (L : loc -> Prop) :
  (forall l, animator_locs l -> L l) ->
  (forall m, modifies L m (delay5us m))
  /\ (forall p m, modifies L m (button1 p m))
  /\ (forall p m, modifies L m (snd (button2 p m)))
  /\ (forall p m, modifies L m (snd (button3 p m)))
  /\ (forall f m, paints f -> modifies L m (f m)).
Proof.
  intros Hsub.
  assert (Hb : forall l, button_locs l -> L l) by (intros l Hl; apply Hsub; now left).
  split; [| split; [| split; [| split]]]; intros.
  - apply modifies_delay5us.
  - eapply modifies_weaken; [| apply modifies_button1].
    intros l Hl. apply Hb. unfold spin_locs, button_locs in *. tauto.
  - eapply modifies_weaken; [| apply modifies_button2].
    intros l Hl. apply Hb. unfold button_locs. simpl in Hl. tauto.
  - eapply modifies_weaken; [| apply modifies_button3].
    intros l Hl. apply Hb. unfold button_locs. simpl in Hl. tauto.
  - eapply modifies_weaken; [| now apply paints_modifies].
    intros l Hl. apply Hsub. now right.
Qed.

Lemma frames_run g : frames animator_locs (run g).
Proof.
  destruct (modifies_animator animator_locs (fun l H => H)) as (H0 & H1 & H2 & H3 & H4).
  apply respects_run; try assumption; [apply modifies_refl | apply modifies_trans].
Qed.

Lemma frames_main_loop n : frames animator_locs (main_loop n).
Proof.
  destruct (modifies_animator animator_locs (fun l H => H)) as (H0 & H1 & H2 & H3 & H4).
  apply respects_main_loop; try assumption; [apply modifies_refl | apply modifies_trans].
Qed.

Lemma frames_main n : frames main_locs (main n).
Proof.
  assert (Hsfr : forall r v m, r <> P0 -> r <> P1 -> r <> P2 ->
                               modifies main_locs m (out r v m)).
  { intros r v m H0 H1 H2. apply modifies_out. right. now exists r. }
  unfold main.
  apply respects_bind; [apply modifies_trans | |].
  { apply respects_step. intros m. unfold sinter.
    do 4 (eapply modifies_trans; [| apply Hsfr; discriminate]).
    apply Hsfr; discriminate. }
  intros _. apply respects_bind; [apply modifies_trans | |].
  { apply respects_step. intros m. apply Hsfr; discriminate. }
  intros _. eapply frames_weaken; [| apply frames_main_loop].
  unfold main_locs. tauto.
Qed.

Lemma main_locs_not_layer l : main_locs l -> l <> Llayer.
Proof.
  unfold main_locs, animator_locs, button_locs.
  intros [[H | H] | (r & -> & _)]; [| destruct l; simpl in H |]; try discriminate;
    try tauto.
  decompose [or] H; subst; discriminate.
Qed.

(** ** The shape of the frame buffer is kept *)

Lemma keeps_shape_store_display z y v m : keeps_shape m (store_display z y v m).
Proof. intros Hwf. simpl. now apply wf_poke. Qed.

Lemma keeps_shape_fold (body : Z -> machine -> machine) xs m :
  (forall i s, keeps_shape s (body i s)) ->
  keeps_shape m (fold_left (fun s i => body i s) xs m).
Proof.
  intros Hb. revert m. induction xs as [| x xs IH]; intros m Hwf; simpl.
  - exact Hwf.
  - apply IH, Hb, Hwf.
Qed.

Lemma keeps_shape_paints f m : paints f -> keeps_shape m (f m).
Proof.
  intros [v | x v | y v | z v | x y z v | y c].
  - unfold set_all, for8. apply keeps_shape_fold. intros j s.
    apply keeps_shape_fold. intros i s'. apply keeps_shape_store_display.
  - unfold set_x_plane, for8. apply keeps_shape_fold. intros j s.
    apply keeps_shape_fold. intros i s'.
    destruct (v =? 0); apply keeps_shape_store_display.
  - unfold set_y_plane, for8. apply keeps_shape_fold. intros j s.
    destruct (v =? 0); apply keeps_shape_store_display.
  - unfold set_z_plane, for8. apply keeps_shape_fold. intros i s.
    destruct (v =? 0); apply keeps_shape_store_display.
  - unfold set_point. destruct (v =? 0); apply keeps_shape_store_display.
  - unfold character_on_y, for8. apply keeps_shape_fold. intros j s.
    apply keeps_shape_store_display.
Qed.

Lemma keeps_shape_modifies (L : loc -> Prop) m m' :
  (forall z y, ~ L (Ldisplay z y)) -> modifies L m m' -> keeps_shape m m'.
Proof. intros Hl Hm Hwf. now rewrite (mod_display _ _ _ Hm Hl). Qed.

(** From reset, the frame buffer has its 8 rows of 8 bytes in every
    machine a run of the program reaches. *)
Lemma keeps_shape_main n : respects keeps_shape (main n).
Proof.
  assert (Hrefl : forall m, keeps_shape m m) by (intros m H; exact H).
  assert (Htrans : forall m1 m2 m3, keeps_shape m1 m2 -> keeps_shape m2 m3 ->
                                    keeps_shape m1 m3)
    by (intros m1 m2 m3 H1 H2 H; apply H2, H1, H).
  assert (Hout : forall r v m, keeps_shape m (out r v m)) by (intros r v m H; exact H).
  assert (Hno : forall L : loc -> Prop, (forall l, L l -> button_locs l) ->
                forall z y, ~ L (Ldisplay z y)).
  { intros L HL z y H. apply HL in H. unfold button_locs in H.
    decompose [or] H; discriminate. }
  unfold main. apply respects_bind; [exact Htrans | |].
  { apply respects_step. intros m. unfold sinter.
    do 4 (eapply Htrans; [| apply Hout]). apply Hout. }
  intros _. apply respects_bind; [exact Htrans | apply respects_step, Hout |].
  intros _. apply respects_main_loop.
  - exact Hrefl.
  - exact Htrans.
  - intros m H. exact H.
  - intros p m. apply (keeps_shape_modifies spin_locs); [| apply modifies_button1].
    apply Hno. unfold spin_locs, button_locs. tauto.
  - intros p m. eapply keeps_shape_modifies; [| apply modifies_button2].
    apply Hno. unfold button_locs. tauto.
  - intros p m. eapply keeps_shape_modifies; [| apply modifies_button3].
    apply Hno. unfold button_locs. tauto.
  - intros f m. apply keeps_shape_paints.
Qed.

(** ** The refresh interrupt *)

Lemma live_layers_off : live_layers 255 = [].
Proof. reflexivity. Qed.

Lemma live_layers_one l : 0 <= l < 8 -> live_layers (255 - 2 ^ l) = [l].
Proof. intros Hl. index8 l; reflexivity. Qed.

(** Fields of the machine after the stores of the interrupt. *)
Lemma trace_out r v m : trace (out r v m) = trace m ++ [Store (Lsfr r) v].
Proof. reflexivity. Qed.
Lemma display_out r v m : display (out r v m) = display m.
Proof. reflexivity. Qed.
Lemma layer_out r v m : layer (out r v m) = layer m.
Proof. reflexivity. Qed.
Lemma trace_store_layer v m : trace (store_layer v m) = trace m ++ [Store Llayer v].
Proof. reflexivity. Qed.
Lemma layer_store_layer v m : layer (store_layer v m) = v.
Proof. reflexivity. Qed.
Lemma trace_delay i m : trace (delay i m) = trace m.
Proof. now rewrite delay_eq. Qed.
Lemma display_delay i m : display (delay i m) = display m.
Proof. now rewrite delay_eq. Qed.
Lemma layer_delay i m : layer (delay i m) = layer m.
Proof. now rewrite delay_eq. Qed.

Create Rewrite HintDb isr_fields.
#[local] Hint Rewrite trace_out display_out layer_out trace_store_layer
  layer_store_layer trace_delay display_delay layer_delay : isr_fields.

(** The latch loop of the interrupt, over any list of latch numbers. *)
Lemma timer_isr_latches xs m :
  let latch := fun s i =>
    delay 3 (out P0 (peek (display s) (layer s) i)
      (delay 3 (out P2 (uchar (Z.shiftl 1 i)) s))) in
  trace (fold_left latch xs m) =
    trace m ++ flat_map (fun i => [Store (Lsfr P2) (uchar (Z.shiftl 1 i));
                                   Store (Lsfr P0) (peek (display m) (layer m) i)]) xs
  /\ display (fold_left latch xs m) = display m
  /\ layer (fold_left latch xs m) = layer m.
Proof.
  intros latch. revert m. induction xs as [| x xs IH]; intros m.
  - simpl. now rewrite app_nil_r.
  - cbn [fold_left flat_map]. destruct (IH (latch m x)) as (Ht & Hd & Hl).
    rewrite Ht, Hd, Hl. unfold latch. autorewrite with isr_fields.
    rewrite <- !app_assoc. now repeat split.
Qed.

Lemma timer_isr_trace m :
  0 <= layer m < 8 -> trace (timer_isr m) = trace m ++ scan (display m) (layer m).
Proof.
  intros Hl. unfold timer_isr, for8. cbv beta zeta.
  destruct (timer_isr_latches (seqZ 0 8) (out P1 255 m)) as (Ht & Hd & Hy).
  cbv zeta in Ht, Hd, Hy. autorewrite with isr_fields in Ht, Hd, Hy.
  autorewrite with isr_fields. rewrite Hy.
  destruct (uchar (layer m + 1) >? 7) eqn:E;
    autorewrite with isr_fields; rewrite Ht;
    revert Hl E; generalize (display m) as d, (layer m) as l, (trace m) as t;
    intros d l t Hl E; unfold scan; rewrite <- !app_assoc;
    index8 l; (discriminate E || reflexivity).
Qed.

Lemma timer_isr_layer m :
  0 <= layer m < 8 -> layer (timer_isr m) = (layer m + 1) mod 8.
Proof.
  intros Hl. unfold timer_isr, for8. cbv beta zeta.
  destruct (timer_isr_latches (seqZ 0 8) (out P1 255 m)) as (_ & _ & Hy).
  cbv zeta in Hy. autorewrite with isr_fields in Hy.
  autorewrite with isr_fields. rewrite Hy.
  destruct (uchar (layer m + 1) >? 7) eqn:E;
    autorewrite with isr_fields; revert Hl E;
    generalize (layer m) as l; intros l Hl E;
    index8 l; (discriminate E || reflexivity).
Qed.

Lemma modifies_timer_isr m : modifies isr_locs m (timer_isr m).
Proof.
  assert (Hout : forall r v s, modifies isr_locs s (out r v s)).
  { intros r v s. apply modifies_out. right. now exists r. }
  assert (Hlay : forall v s, modifies isr_locs s (store_layer v s)).
  { intros v s. apply modifies_store_layer. now left. }
  unfold timer_isr.
  do 2 (eapply modifies_trans; [| apply Hout]).
  match goal with
  | |- modifies _ _ (if ?c then _ else _) =>
      destruct c; [eapply modifies_trans; [| apply Hlay] |]
  end.
  all: eapply modifies_trans; [| apply Hlay].
  all: eapply modifies_trans; [| apply Hout].
  all: eapply modifies_trans; [apply Hout |].
  all: apply modifies_for8; intros i s.
  all: eapply modifies_trans; [| apply modifies_delay].
  all: eapply modifies_trans; [| apply Hout].
  all: eapply modifies_trans; [apply Hout | apply modifies_delay].
Qed.

Lemma scan_one_layer d l :
  0 <= l < 8 ->
  Forall (fun e => target e = Lsfr P1 -> (length (live_layers (written e)) <= 1)%nat)
         (scan d l).
Proof.
  intros Hl. unfold scan. change (seqZ 0 8) with [0; 1; 2; 3; 4; 5; 6; 7].
  destruct (l =? 7); cbn [flat_map app];
    repeat (apply List.Forall_cons; [try (cbn [target]; intros [=]; fail) |]);
    try apply List.Forall_nil.
  all: intros _; cbn [written]; rewrite ?live_layers_one by assumption; simpl; lia.
Qed.

Lemma reachable_layer m : reachable m -> 0 <= layer m < 8.
Proof.
  induction 1 as [| m _ IH | m m' _ IH Hm].
  - simpl. lia.
  - rewrite timer_isr_layer by assumption. apply Z.mod_pos_bound. lia.
  - rewrite (mod_layer _ _ _ Hm); [exact IH |].
    intros Hl. now apply (main_locs_not_layer Llayer).
Qed.

(** C3.  One firing of the timer interrupt with the layer index in [0,8):
    it stores, in this order, 255 to P1 (no layer driven), for each latch
    i = 0..7 its select 2^i to P2 and then byte i of the current layer to
    P0, then to P1 the value with only the bit of the current layer
    cleared; no value it stores to P1 drives more than one layer; then the
    layer index becomes (layer+1) mod 8, which is in [0,8) again (from 7
    the increment stores 8 and the next statement 0, before the handler
    ends).  The interrupt stores to nothing but the layer index and the
    registers; no routine of the main thread stores to the layer index or
    changes it; so the index is in [0,8) in every machine that firings of
    the interrupt and progress of the main thread lead to from reset. *)
Theorem timer_isr_refresh m :
  0 <= layer m < 8 ->
  trace (timer_isr m) = trace m ++ scan (display m) (layer m)
  /\ live_layers 255 = []
  /\ live_layers (255 - 2 ^ layer m) = [layer m]
  /\ Forall (fun e => target e = Lsfr P1 -> (length (live_layers (written e)) <= 1)%nat)
            (scan (display m) (layer m))
  /\ layer (timer_isr m) = (layer m + 1) mod 8
  /\ 0 <= layer (timer_isr m) < 8
  /\ modifies isr_locs m (timer_isr m)
  /\ (forall n, frames (fun l => l <> Llayer) (main n))
  /\ (forall g, frames (fun l => l <> Llayer) (run g))
  /\ (forall i, frames (fun l => l <> Llayer) (pause i))
  /\ (forall s, reachable s -> 0 <= layer s < 8)
  /\ (forall n inp s, reachable s -> reachable (final (main n inp s))).
Proof.
  intros Hl. split; [now apply timer_isr_trace |].
  split; [apply live_layers_off |].
  split; [now apply live_layers_one |].
  split; [now apply scan_one_layer |].
  split; [now apply timer_isr_layer |].
  split; [rewrite timer_isr_layer by assumption; apply Z.mod_pos_bound; lia |].
  split; [apply modifies_timer_isr |].
  split; [| split; [| split; [| split]]].
  - intros n. eapply frames_weaken; [| apply frames_main].
    apply main_locs_not_layer.
  - intros g. eapply frames_weaken; [| apply frames_run].
    intros l Hloc. apply main_locs_not_layer. now left.
  - intros i. eapply frames_weaken; [| apply frames_pause].
    intros l Hloc. apply main_locs_not_layer. left. now left.
  - apply reachable_layer.
  - intros n inp s Hs. apply (reach_main s); [exact Hs | apply frames_main].
Qed.

Lemma timer_isr_refresh_witness :
  trace (timer_isr reset_machine) = scan (display reset_machine) 0
  /\ layer (Nat.iter 8 timer_isr reset_machine) = 0.
Proof.
  split.
  - refine (proj1 (timer_isr_refresh reset_machine _)). simpl. lia.
  - reflexivity.
Defined.

(** ** Running routines *)

Lemma bind_Done {A B} (c : M A) (k : A -> M B) inp m a m' rest :
  c inp m = Done a m' rest -> bind c k inp m = k a rest m'.
Proof. intros E. unfold bind. now rewrite E. Qed.

Lemma bind_Starved {A B} (c : M A) (k : A -> M B) inp m m' :
  c inp m = Starved m' -> bind c k inp m = Starved m'.
Proof. intros E. unfold bind. now rewrite E. Qed.

Lemma bind_step {B} f (k : M B) inp m : (step f ;; k) inp m = k inp (f m).
Proof. reflexivity. Qed.

Lemma handle_cons h p rest m :
  handle h (p :: rest) m = Done (fst (h p m)) (snd (h p m)) rest.
Proof. unfold handle, bind, read_P4. now destruct (h p m). Qed.

(** The samples a routine has not read are a suffix of those it got. *)
Lemma spin_loop_rest inp m m' rest :
  spin_loop inp m = Done tt m' rest -> exists used, inp = used ++ rest /\ used <> [].
Proof.
  revert m. induction inp as [| p inp IH]; intros m; simpl; [discriminate |].
  destruct (pause_flag (button1 p m) =? 0).
  - intros [= <- <-]. now exists [p].
  - intros E. destruct (IH _ E) as (used & -> & _). now exists (p :: used).
Qed.

(** One iteration's button checks, by cases on what the inner loop and the
    two reads that follow it meet. *)
Lemma poll_cases inp m :
  match spin_loop inp m with
  | Starved m1 => poll inp m = Starved m1
  | Done _ m1 [] => poll inp m = Starved m1
  | Done _ m1 (p2 :: r2) =>
      match fst (button2 p2 m1) with
      | Some v => poll inp m = Done (Some v) (snd (button2 p2 m1)) r2
      | None =>
          match r2 with
          | [] => poll inp m = Starved (snd (button2 p2 m1))
          | p3 :: r3 =>
              poll inp m =
              Done (fst (button3 p3 (snd (button2 p2 m1))))
                   (snd (button3 p3 (snd (button2 p2 m1)))) r3
          end
      end
  end.
Proof.
  unfold poll. destruct (spin_loop inp m) as [[] m1 r1 | m1] eqn:Eg.
  - rewrite (bind_Done _ _ _ _ _ _ _ Eg).
    destruct r1 as [| p2 r2]; [reflexivity |].
    rewrite (bind_Done _ _ _ _ _ _ _ (handle_cons button2 p2 r2 m1)).
    destruct (fst (button2 p2 m1)) as [v |]; [reflexivity |].
    destruct r2 as [| p3 r3]; [reflexivity | apply handle_cons].
  - now rewrite (bind_Starved _ _ _ _ _ Eg).
Qed.

Lemma pause_loop_S n inp m :
  pause_loop (S n) inp m = after_poll n (poll inp (delay5us m)).
Proof.
  simpl. unfold tick. unfold bind at 1 2. unfold step, after_poll.
  destruct (poll inp (delay5us m)) as [[v |] m' rest | m']; reflexivity.
Qed.

Lemma pause_unfold i : 0 < uint i -> exists n, pause i = pause_loop (S n).
Proof.
  intros Hi. exists (Nat.pred (Z.to_nat (uint i))). unfold pause.
  f_equal. lia.
Qed.

(** ** The stores of a trace *)

Lemma stores_to_app l t1 t2 :
  stores_to l (t1 ++ t2) = stores_to l t1 ++ stores_to l t2.
Proof. apply filter_app. Qed.

Lemma stores_to_none (L : loc -> Prop) l t :
  ~ L l -> Forall (fun e => L (target e)) t -> stores_to l t = [].
Proof.
  intros Hl. induction 1 as [| e t He _ IH]; [reflexivity |].
  unfold stores_to in *. rewrite filter_cons.
  destruct (decide (target e = l)) as [E | E]; [| exact IH].
  subst l. contradiction.
Qed.

Lemma display_stores_none (L : loc -> Prop) t :
  (forall z y, ~ L (Ldisplay z y)) -> Forall (fun e => L (target e)) t ->
  display_stores t = [].
Proof.
  intros Hl. induction 1 as [| e t He _ IH]; [reflexivity |].
  unfold display_stores in *. rewrite filter_cons.
  destruct (decide (is_display (target e))) as [E | E]; [| exact IH].
  destruct (target e) eqn:Et; simpl in E; try contradiction.
  now destruct (Hl z y).
Qed.

Lemma mode_edges_none (L : loc -> Prop) t :
  ~ L Lp42key -> ~ L Lp43key -> Forall (fun e => L (target e)) t ->
  mode_edges t = [].
Proof.
  intros H2 H3. induction 1 as [| e t He _ IH]; [reflexivity |].
  unfold mode_edges in *. rewrite filter_cons.
  destruct (decide (e = Store Lp42key 1 \/ e = Store Lp43key 1)) as [[-> | ->] | E];
    [contradiction | contradiction | exact IH].
Qed.

Lemma modifies_stores_to (L : loc -> Prop) l m m' :
  ~ L l -> modifies L m m' -> stores_to l (trace m') = stores_to l (trace m).
Proof.
  intros Hl [[t [E F]] _ _ _ _ _ _ _].
  now rewrite E, stores_to_app, (stores_to_none L l t), app_nil_r.
Qed.

Lemma modifies_display_stores (L : loc -> Prop) m m' :
  (forall z y, ~ L (Ldisplay z y)) -> modifies L m m' ->
  display_stores (trace m') = display_stores (trace m).
Proof.
  intros Hl [[t [E F]] _ _ _ _ _ _ _]. unfold display_stores.
  rewrite E, filter_app. fold (display_stores t).
  now rewrite (display_stores_none L t), app_nil_r.
Qed.

Lemma modifies_quiet (L : loc -> Prop) m m' :
  ~ L Lmode -> ~ L Lp42key -> ~ L Lp43key -> modifies L m m' -> quiet m m'.
Proof.
  intros Hm H2 H3 [[t [E F]] _ Mo _ _ _ _ _]. split; [now apply Mo |].
  exists t. split; [assumption |]. split.
  - now apply (stores_to_none L).
  - now apply (mode_edges_none L).
Qed.

Lemma quiet_refl m : quiet m m.
Proof. split; [reflexivity |]. exists []. now rewrite app_nil_r. Qed.

Lemma quiet_trans m1 m2 m3 : quiet m1 m2 -> quiet m2 m3 -> quiet m1 m3.
Proof.
  intros [E1 (t1 & T1 & S1 & M1)] [E2 (t2 & T2 & S2 & M2)].
  split; [congruence |]. exists (t1 ++ t2). split; [| split].
  - now rewrite T2, T1, app_assoc.
  - now rewrite stores_to_app, S1, S2.
  - unfold mode_edges in *. now rewrite filter_app, M1, M2.
Qed.

Lemma quiet_fired m1 m2 m3 : quiet m1 m2 -> fired m2 m3 -> fired m1 m3.
Proof.
  intros Hq (m & k & Hq' & Hk & E). exists m, k.
  split; [now apply (quiet_trans _ m2) | now split].
Qed.

(** ** The return value of [pause] *)

Lemma button2_result p m :
  match fst (button2 p m) with
  | Some v => v = 1 /\ fired m (snd (button2 p m)) /\ pressed 2 p /\ p42key m = 0
  | None => quiet m (snd (button2 p m))
  end.
Proof.
  unfold button2, pressed. destruct (pin p 2); simpl; [apply quiet_refl |].
  destruct (p42key m =? 0) eqn:Ek; simpl.
  - apply Z.eqb_eq in Ek. repeat split; try assumption.
    exists m, Lp42key. split; [apply quiet_refl |]. split; [now left |].
    rewrite delay_eq. simpl. now rewrite <- app_assoc.
  - split; [reflexivity |]. exists [Store Lp42key 0]. now repeat split.
Qed.

Lemma button3_result p m :
  match fst (button3 p m) with
  | Some v => v = 1 /\ fired m (snd (button3 p m)) /\ pressed 3 p /\ p43key m = 0
  | None => quiet m (snd (button3 p m))
  end.
Proof.
  unfold button3, pressed. destruct (pin p 3); simpl.
  - split; [reflexivity |]. exists [Store Lp43key 0]. now repeat split.
  - destruct (p43key m =? 0) eqn:Ek; simpl; [| apply quiet_refl].
    apply Z.eqb_eq in Ek. repeat split; try assumption.
    exists m, Lp43key. split; [apply quiet_refl |]. split; [now right |].
    rewrite delay_eq. simpl. now rewrite <- app_assoc.
Qed.

Lemma quiet_spin_loop inp m : quiet m (final (spin_loop inp m)).
Proof.
  apply (modifies_quiet spin_locs); try (unfold spin_locs; intros [H | H]; discriminate).
  apply frames_spin_loop.
Qed.

Lemma poll_result inp m :
  match poll inp m with
  | Done (Some v) m' _ => v = 1 /\ fired m m'
  | Done None m' _ => quiet m m'
  | Starved m' => quiet m m'
  end.
Proof.
  pose proof (poll_cases inp m) as Hc. pose proof (quiet_spin_loop inp m) as Hg.
  destruct (spin_loop inp m) as [[] m1 [| p2 r2] | m1]; simpl in Hg;
    try (rewrite Hc; exact Hg).
  pose proof (button2_result p2 m1) as H2.
  destruct (fst (button2 p2 m1)) as [v |].
  - rewrite Hc. destruct H2 as (-> & Hf & _). split; [reflexivity |].
    now apply (quiet_fired _ m1).
  - assert (Hq : quiet m (snd (button2 p2 m1))) by now apply (quiet_trans _ m1).
    destruct r2 as [| p3 r3]; rewrite Hc; [exact Hq |].
    pose proof (button3_result p3 (snd (button2 p2 m1))) as H3.
    destruct (fst (button3 p3 (snd (button2 p2 m1)))) as [v |].
    + destruct H3 as (-> & Hf & _). split; [reflexivity |].
      now apply (quiet_fired _ (snd (button2 p2 m1))).
    + now apply (quiet_trans _ (snd (button2 p2 m1))).
Qed.

Lemma quiet_delay5us m : quiet m (delay5us m).
Proof. split; [reflexivity |]. exists []. simpl. now rewrite app_nil_r. Qed.

Lemma pause_loop_result n inp m :
  match pause_loop n inp m with
  | Done r m' _ => (r = 1 /\ fired m m') \/ (r = 0 /\ quiet m m')
  | Starved m' => quiet m m'
  end.
Proof.
  revert inp m. induction n as [| n IH]; intros inp m.
  - simpl. right. split; [reflexivity | apply quiet_refl].
  - rewrite pause_loop_S. unfold after_poll.
    pose proof (poll_result inp (delay5us m)) as Hp.
    pose proof (quiet_delay5us m) as Hd.
    destruct (poll inp (delay5us m)) as [[v |] m1 r1 | m1].
    + destruct Hp as [-> Hf]. left. split; [reflexivity |].
      now apply (quiet_fired _ (delay5us m)).
    + assert (Hq : quiet m m1) by now apply (quiet_trans _ (delay5us m)).
      specialize (IH r1 m1).
      destruct (pause_loop n r1 m1) as [r m2 r2 | m2].
      * destruct IH as [[-> Hf] | [-> Hq']]; [left | right]; split; try reflexivity.
        -- now apply (quiet_fired _ m1).
        -- now apply (quiet_trans _ m1).
      * now apply (quiet_trans _ m1).
    + now apply (quiet_trans _ (delay5us m)).
Qed.

Lemma poll_rest inp m r m' rest :
  poll inp m = Done r m' rest -> exists used, inp = used ++ rest.
Proof.
  pose proof (poll_cases inp m) as Hc.
  destruct (spin_loop inp m) as [[] m1 r1 | m1] eqn:Eg;
    [| rewrite Hc; discriminate].
  destruct (spin_loop_rest _ _ _ _ Eg) as (used & -> & _).
  destruct r1 as [| p2 r2]; [rewrite Hc; discriminate |].
  destruct (fst (button2 p2 m1)).
  - rewrite Hc. intros [= _ _ <-]. exists (used ++ [p2]). now rewrite <- app_assoc.
  - destruct r2 as [| p3 r3]; rewrite Hc; [discriminate |].
    intros [= _ _ <-]. exists (used ++ [p2; p3]). now rewrite <- app_assoc.
Qed.



(** With the pause flag clear and button 1 released in every sample, each
    iteration reads at most three samples, so [pause] returns when it is
    given three samples per iteration. *)
Lemma pause_loop_returns n inp m :
  pause_flag m = 0 -> Forall (released 1) inp -> (3 * n <= length inp)%nat ->
  exists r m' rest, pause_loop n inp m = Done r m' rest.
Proof.
  revert inp m. induction n as [| n IH]; intros inp m Hp Hall Hlen.
  - now exists 0, m, inp.
  - rewrite pause_loop_S. unfold after_poll.
    destruct inp as [| p1 [| p2 [| p3 rest]]]; simpl in Hlen; try lia.
    apply Forall_cons in Hall as [H1 Hall]. apply Forall_cons in Hall as [_ Hall].
    apply Forall_cons in Hall as [_ Hall].
    pose proof (poll_cases (p1 :: p2 :: p3 :: rest) (delay5us m)) as Hc.
    assert (E1 : button1 p1 (delay5us m) = store_p41key 0 (delay5us m)).
    { unfold button1. unfold released in H1. now rewrite H1. }
    simpl spin_loop in Hc. rewrite E1 in Hc. simpl pause_flag in Hc.
    rewrite Hp in Hc. simpl in Hc.
    set (m1 := store_p41key 0 (delay5us m)) in *.
    destruct (fst (button2 p2 m1)) as [v |] eqn:E2.
    + rewrite Hc. eauto.
    + rewrite Hc.
      destruct (fst (button3 p3 (snd (button2 p2 m1)))) as [v |] eqn:E3; [eauto |].
      apply IH; [| assumption | lia].
      pose proof (modifies_button3 p3 (snd (button2 p2 m1))) as M3.
      pose proof (modifies_button2 p2 m1) as M2.
      rewrite (mod_pause _ _ _ M3), (mod_pause _ _ _ M2);
        [exact Hp | |]; intros [H | H]; discriminate.
Qed.

Lemma fired_not_quiet m m' : fired m m' -> ~ quiet m m'.
Proof.
  intros (m1 & k & [_ (t1 & T1 & _)] & _ & E) [_ (t & T & S & _)].
  rewrite T1, <- app_assoc in E. rewrite T in E.
  apply app_inv_head in E. subst t.
  rewrite stores_to_app in S. apply app_eq_nil in S as [_ S].
  unfold stores_to in S. rewrite filter_cons in S.
  destruct (decide (target (Store k 1) = Lmode)); [discriminate S |].
  rewrite filter_cons in S. simpl in S.
  destruct (decide (Lmode = Lmode)); [discriminate S | congruence].
Qed.

(** C10, at failing inputs: calls of [pause] one after the other, from
    reset, each entered in the machine that the one before left.  The
    first call sees button 2 go low and returns 1, as it should.
    (a) In the second call button 2 is low in every sample, as it was
    when the first call ended, so no press begins in it; its first
    round clears the latch and its second round returns 1 and stores
    the mode again.
    (b) In another continuation button 3 takes the mode to 1; then a
    call sees button 2 released for a round and pressed in the next, a
    new press; the latch is still set from the first press (a release
    does not clear it), so the round only clears it: the call returns
    0 and the mode is still 1. *)
Theorem pause_return_misses_button2_edges :
  exists m1,
    pause 5 [255; 251] reset_machine = Done 1 m1 []
    /\ (Forall (pressed 2) [251; 251; 251; 251; 251]
        /\ exists m2,
             pause 5 [251; 251; 251; 251; 251] m1 = Done 1 m2 []
             /\ stores_to Lmode (trace m2) = [Store Lmode 0; Store Lmode 0]
             /\ stores_to Lp42key (trace m2)
                = [Store Lp42key 1; Store Lp42key 0; Store Lp42key 1])
    /\ exists m3,
         pause 5 [255; 255; 247] m1 = Done 1 m3 []
         /\ mode m3 = 1 /\ p42key m3 = 1
         /\ Forall (released 2) [255; 255; 255]
         /\ Forall (pressed 2) [251; 251; 251]
         /\ exists m4,
              pause 2 ([255; 255; 255] ++ [251; 251; 251]) m3 = Done 0 m4 []
              /\ mode m4 = 1
              /\ stores_to Lmode (trace m4) = stores_to Lmode (trace m3)
              /\ p42key m4 = 0.
Proof.
  eexists. split; [vm_compute; reflexivity |].
  split.
  - split; [repeat constructor |].
    eexists. split; [vm_compute; reflexivity |].
    split; vm_compute; reflexivity.
  - eexists. split; [vm_compute; reflexivity |].
    split; [vm_compute; reflexivity |]. split; [vm_compute; reflexivity |].
    split; [repeat constructor |]. split; [repeat constructor |].
    eexists. split; [vm_compute; reflexivity |].
    split; [vm_compute; reflexivity |]. split; vm_compute; reflexivity.
Qed.

(** ** Button 1: the pause flag *)

Lemma button1_hold p m : pressed 1 p -> p41key m <> 0 -> button1 p m = m.
Proof.
  unfold button1, pressed. intros -> Hk. simpl.
  apply Z.eqb_neq in Hk. now rewrite Hk.
Qed.

Lemma button1_release p m : released 1 p -> button1 p m = store_p41key 0 m.
Proof. unfold button1, released. now intros ->. Qed.

Lemma button1_press p m :
  pressed 1 p -> p41key m = 0 ->
  button1 p m = delay 100 (store_pause (lnot (pause_flag m)) (store_p41key 1 m)).
Proof. unfold button1, pressed. now intros -> ->. Qed.

Lemma spin_loop_held_open p rest m :
  pressed 1 p -> p41key m <> 0 -> pause_flag m = 0 ->
  spin_loop (p :: rest) m = Done tt m rest.
Proof. intros Hp Hk Hf. simpl. rewrite button1_hold by assumption. now rewrite Hf. Qed.

Lemma spin_loop_held_closed inp m :
  Forall (pressed 1) inp -> p41key m <> 0 -> pause_flag m <> 0 ->
  spin_loop inp m = Starved m.
Proof.
  intros Hall Hk Hf. induction Hall as [| p rest Hp _ IH]; [reflexivity |].
  simpl. rewrite button1_hold by assumption.
  apply Z.eqb_neq in Hf. now rewrite Hf.
Qed.

Lemma modifies_mode_buttons p2 p3 m :
  modifies mode_locs m (snd (button2 p2 m))
  /\ modifies mode_locs m (snd (button3 p3 (snd (button2 p2 m)))).
Proof.
  assert (H2 : modifies mode_locs m (snd (button2 p2 m))).
  { eapply modifies_weaken; [| apply modifies_button2]. unfold mode_locs. tauto. }
  split; [exact H2 |].
  eapply modifies_trans; [exact H2 |].
  eapply modifies_weaken; [| apply modifies_button3]. unfold mode_locs. tauto.
Qed.

(** While button 1 is held with its latch set, an iteration stores to the
    mode variables at most. *)
Lemma poll_held inp m :
  Forall (pressed 1) inp -> p41key m <> 0 -> modifies mode_locs m (final (poll inp m)).
Proof.
  intros Hall Hk. pose proof (poll_cases inp m) as Hc.
  destruct (Z.eq_dec (pause_flag m) 0) as [Hf | Hf].
  - destruct Hall as [| p1 r1 Hp _]; [apply modifies_refl |].
    rewrite spin_loop_held_open in Hc by assumption.
    destruct r1 as [| p2 r2]; [rewrite Hc; apply modifies_refl |].
    destruct (modifies_mode_buttons p2 0 m) as [M2 _].
    destruct (fst (button2 p2 m)); [rewrite Hc; exact M2 |].
    destruct r2 as [| p3 r3]; rewrite Hc; [exact M2 |].
    apply (modifies_mode_buttons p2 p3 m).
  - rewrite spin_loop_held_closed in Hc by assumption.
    rewrite Hc. apply modifies_refl.
Qed.

Lemma mode_locs_p41key (m m' : machine) :
  modifies mode_locs m m' -> p41key m' = p41key m.
Proof.
  intros H. apply (mod_p41key _ _ _ H).
  unfold mode_locs. intros [E | [E | E]]; discriminate.
Qed.

(** Button 1 held with its latch set, for the rest of a call of [pause]. *)
Lemma after_poll_held n inp s :
  (forall inp' m, Forall (pressed 1) inp' -> p41key m <> 0 ->
                  modifies mode_locs m (final (pause_loop n inp' m))) ->
  Forall (pressed 1) inp -> p41key s <> 0 ->
  modifies mode_locs s (final (after_poll n (poll inp s))).
Proof.
  intros Hloop Hall Hs. pose proof (poll_held inp s Hall Hs) as Hp.
  unfold after_poll.
  destruct (poll inp s) as [[v |] m' rest | m'] eqn:Ep; try exact Hp.
  destruct (poll_rest _ _ _ _ _ Ep) as (used & ->).
  apply Forall_app in Hall as [_ Hall]. simpl in Hp.
  eapply modifies_trans; [exact Hp |]. apply Hloop; [exact Hall |].
  now rewrite (mode_locs_p41key _ _ Hp).
Qed.

Lemma pause_loop_held n inp m :
  Forall (pressed 1) inp -> p41key m <> 0 ->
  modifies mode_locs m (final (pause_loop n inp m)).
Proof.
  revert inp m. induction n as [| n IH]; intros inp m Hall Hk.
  - apply modifies_refl.
  - rewrite pause_loop_S.
    eapply modifies_trans; [apply modifies_delay5us |].
    now apply after_poll_held.
Qed.

Lemma poll_press p rest m :
  pressed 1 p -> p41key m = 0 ->
  poll (p :: rest) m = poll (p :: rest) (button1 p m).
Proof.
  intros Hp Hk. unfold poll, bind.
  replace (spin_loop (p :: rest) (button1 p m)) with (spin_loop (p :: rest) m);
    [reflexivity |].
  simpl. rewrite (button1_hold p (button1 p m)); [reflexivity | assumption |].
  rewrite button1_press, delay_eq by assumption. simpl. discriminate.
Qed.

(** ** Runs on samples of one kind *)

Lemma after_poll_bind (c : M (option Z)) n inp s :
  after_poll n (c inp s)
  = (r <- c ;; match r with Some v => ret v | None => pause_loop n end) inp s.
Proof.
  unfold bind, after_poll. destruct (c inp s) as [[v |] m' r | m']; reflexivity.
Qed.

Section RespectsOn.
Variable Pin : Z -> Prop.
Variable R : machine -> machine -> Prop.
Hypothesis R_refl : forall m, R m m.
Hypothesis R_trans : forall m1 m2 m3, R m1 m2 -> R m2 m3 -> R m1 m3.

Lemma respects_on_ret {A} (a : A) : respects_on Pin R (ret a).
Proof. intros inp m Hall. split; [apply R_refl | exact Hall]. Qed.

Lemma respects_on_step f : (forall m, R m (f m)) -> respects_on Pin R (step f).
Proof. intros Hf inp m Hall. split; [apply Hf | exact Hall]. Qed.

Lemma respects_on_bind {A B} (c : M A) (k : A -> M B) :
  respects_on Pin R c -> (forall a, respects_on Pin R (k a)) ->
  respects_on Pin R (bind c k).
Proof.
  intros Hc Hk inp m Hall. unfold bind.
  destruct (Hc inp m Hall) as [HR Hrest].
  destruct (c inp m) as [a m' rest | m']; cbn [final rest_all] in HR, Hrest.
  - destruct (Hk a rest m' Hrest) as [HR' Hrest'].
    split; [eapply R_trans; eassumption | exact Hrest'].
  - split; [exact HR | exact I].
Qed.

Lemma respects_on_for_each xs body :
  (forall x, respects_on Pin R (body x)) -> respects_on Pin R (for_each xs body).
Proof.
  intros Hb. induction xs as [| x xs IH]; cbn [for_each].
  - apply respects_on_ret.
  - apply respects_on_bind; [apply Hb |].
    intros [v |]; [apply respects_on_ret | exact IH].
Qed.

Lemma respects_on_handle h :
  (forall p m, Pin p -> R m (snd (h p m))) -> respects_on Pin R (handle h).
Proof.
  intros Hh [| p rest] m Hall.
  - unfold handle, bind, read_P4. split; [apply R_refl | exact I].
  - rewrite handle_cons. apply Forall_cons in Hall as [Hp Hall].
    split; [now apply Hh | exact Hall].
Qed.

(** [pause], from its statements. *)
Hypothesis R_delay5us : forall m, R m (delay5us m).
Hypothesis R_button1 : forall p m, Pin p -> R m (button1 p m).
Hypothesis R_button2 : forall p m, Pin p -> R m (snd (button2 p m)).
Hypothesis R_button3 : forall p m, Pin p -> R m (snd (button3 p m)).

Lemma respects_on_spin_loop : respects_on Pin R spin_loop.
Proof.
  intros inp. induction inp as [| p rest IH]; intros m Hall.
  - split; [apply R_refl | exact I].
  - apply Forall_cons in Hall as [Hp Hall]. simpl.
    destruct (pause_flag (button1 p m) =? 0).
    + split; [exact (R_button1 p m Hp) | exact Hall].
    + destruct (IH (button1 p m) Hall) as [HR Hrest].
      split; [exact (R_trans _ _ _ (R_button1 p m Hp) HR) | exact Hrest].
Qed.

(** Lines 97-117: the checks of buttons 2 and 3. *)
Lemma respects_on_mode_buttons :
  respects_on Pin R
    (r <- handle button2 ;;
     match r with
     | Some v => ret (Some v)
     | None => handle button3
     end).
Proof.
  apply respects_on_bind; [apply respects_on_handle, R_button2 |].
  intros [v |]; [apply respects_on_ret | apply respects_on_handle, R_button3].
Qed.

Lemma respects_on_poll : respects_on Pin R poll.
Proof.
  unfold poll. apply respects_on_bind; [apply respects_on_spin_loop |].
  intros u. apply respects_on_mode_buttons.
Qed.

Lemma respects_on_pause_loop n : respects_on Pin R (pause_loop n).
Proof.
  induction n as [| n IH]; cbn [pause_loop].
  - apply respects_on_ret.
  - apply respects_on_bind.
    + unfold tick. apply respects_on_bind; [apply respects_on_step, R_delay5us |].
      intros u. apply respects_on_poll.
    + intros [v |]; [apply respects_on_ret | exact IH].
Qed.

Lemma respects_on_pause i : respects_on Pin R (pause i).
Proof. apply respects_on_pause_loop. Qed.

(** A call of [pause] that reads a sample, seen from the machine that
    the first check of button 1 leaves. *)
Lemma respects_on_after_first n p rest m :
  Forall Pin (p :: rest) ->
  R (button1 p (delay5us m)) (final (pause_loop (S n) (p :: rest) m))
  /\ rest_all Pin (pause_loop (S n) (p :: rest) m).
Proof.
  intros Hall. apply Forall_cons in Hall as [Hp Hall].
  rewrite pause_loop_S.
  assert (E : poll (p :: rest) (delay5us m)
              = if pause_flag (button1 p (delay5us m)) =? 0
                then (r <- handle button2 ;;
                      match r with
                      | Some v => ret (Some v)
                      | None => handle button3
                      end) rest (button1 p (delay5us m))
                else poll rest (button1 p (delay5us m))).
  { unfold poll. unfold bind at 1 3. simpl spin_loop.
    now destruct (pause_flag (button1 p (delay5us m)) =? 0). }
  rewrite E. clear E.
  assert (Hk : forall r : option Z,
             respects_on Pin R
               match r with Some v => ret v | None => pause_loop n end).
  { intros [v |]; [apply respects_on_ret | apply respects_on_pause_loop]. }
  destruct (pause_flag (button1 p (delay5us m)) =? 0); rewrite after_poll_bind.
  - exact (respects_on_bind _ _ respects_on_mode_buttons Hk rest _ Hall).
  - exact (respects_on_bind _ _ respects_on_poll Hk rest _ Hall).
Qed.

Lemma respects_on_pause_or_return i : respects_on Pin R (pause_or_return i).
Proof.
  unfold pause_or_return.
  apply respects_on_bind; [apply respects_on_pause | intros r; apply respects_on_ret].
Qed.

(** The generators and the dispatch loop. *)
Hypothesis R_paint : forall f m, paints f -> R m (f m).

Lemma respects_on_paint f : paints f -> respects_on Pin R (step f).
Proof. intros Hf. apply respects_on_step. intros m. now apply R_paint. Qed.

Lemma respects_on_show on off i :
  paints on -> paints off ->
  respects_on Pin R
    (step on ;;
     r <- pause_or_return i ;;
     match r with
     | Some v => ret (Some v)
     | None => step off ;; ret None
     end).
Proof.
  intros Hon Hoff.
  apply respects_on_bind; [now apply respects_on_paint |]. intros u.
  apply respects_on_bind; [apply respects_on_pause_or_return |].
  intros [v |]; [apply respects_on_ret |].
  apply respects_on_bind; [now apply respects_on_paint |].
  intros u'. apply respects_on_ret.
Qed.

Lemma respects_on_sweep set_plane :
  (forall k v, paints (set_plane k v)) -> respects_on Pin R (sweep set_plane).
Proof.
  intros Hp. unfold sweep. apply respects_on_for_each. intros k.
  now apply respects_on_show.
Qed.

Lemma respects_on_last_wait i :
  respects_on Pin R (r <- pause_or_return i ;; or_return 0 r).
Proof.
  apply respects_on_bind; [apply respects_on_pause_or_return |].
  intros r. apply respects_on_ret.
Qed.

Lemma respects_on_run g : respects_on Pin R (run g).
Proof.
  destruct g; unfold run, dave, points, planes, all.
  - apply respects_on_bind; [apply respects_on_paint, paints_set_all |]. intros u.
    apply respects_on_bind.
    { apply respects_on_for_each. intros c. apply respects_on_for_each. intros y.
      apply respects_on_show;
        [apply paints_character_on_y | apply paints_set_y_plane]. }
    intros [v |]; [apply respects_on_ret |].
    apply respects_on_bind; [apply respects_on_paint, paints_set_all |].
    intros u'. apply respects_on_last_wait.
  - apply respects_on_bind; [apply respects_on_paint, paints_set_all |]. intros u.
    apply respects_on_bind; [| intros r; apply respects_on_ret].
    apply respects_on_for_each. intros x. apply respects_on_for_each. intros y.
    apply respects_on_for_each. intros z.
    apply respects_on_show; apply paints_set_point.
  - apply respects_on_bind; [apply respects_on_paint, paints_set_all |]. intros u.
    apply respects_on_bind; [apply respects_on_sweep, paints_set_x_plane |].
    intros [v |]; [apply respects_on_ret |].
    apply respects_on_bind; [apply respects_on_sweep, paints_set_y_plane |].
    intros [v |]; [apply respects_on_ret |].
    apply respects_on_bind; [apply respects_on_sweep, paints_set_z_plane |].
    intros r. apply respects_on_ret.
  - apply respects_on_bind; [apply respects_on_paint, paints_set_all |]. intros u.
    apply respects_on_bind; [apply respects_on_pause_or_return |].
    intros [v |]; [apply respects_on_ret |].
    apply respects_on_bind; [apply respects_on_paint, paints_set_all |].
    intros u'. apply respects_on_last_wait.
Qed.

Lemma respects_on_dispatch : respects_on Pin R dispatch.
Proof.
  assert (Hone : forall c : M Z, respects_on Pin R c -> respects_on Pin R (c ;; ret tt)).
  { intros c Hc. apply respects_on_bind; [exact Hc | intros r; apply respects_on_ret]. }
  intros inp m. unfold dispatch.
  destruct (mode m =? 0); [apply Hone, (respects_on_run Dave) |].
  destruct (mode m =? 1); [apply Hone, (respects_on_run Points) |].
  destruct (mode m =? 2); [apply Hone, (respects_on_run Planes) |].
  destruct (mode m =? 3); [apply Hone, (respects_on_run All) |].
  destruct (mode m =? 4); [| apply respects_on_ret].
  revert inp m.
  apply respects_on_bind; [apply (respects_on_run Dave) |].
  intros r1. destruct (r1 =? 0); [| apply respects_on_ret].
  apply respects_on_bind; [apply (respects_on_run Points) |].
  intros r2. destruct (r2 =? 0); [| apply respects_on_ret].
  apply respects_on_bind; [apply (respects_on_run Planes) |].
  intros r3. destruct (r3 =? 0); [| apply respects_on_ret].
  apply Hone, (respects_on_run All).
Qed.

Lemma respects_on_main_loop n : respects_on Pin R (main_loop n).
Proof.
  induction n as [| n IH]; cbn [main_loop].
  - apply respects_on_ret.
  - apply respects_on_bind; [apply respects_on_dispatch | intros u; exact IH].
Qed.
End RespectsOn.

(** ** Button 1 held, button 1 released *)

Lemma untoggled_refl m : untoggled m m.
Proof. now split. Qed.

Lemma untoggled_trans m1 m2 m3 :
  untoggled m1 m2 -> untoggled m2 m3 -> untoggled m1 m3.
Proof. intros [H1 H2] [H3 H4]. split; congruence. Qed.

Lemma toggled_untoggled m1 m2 m3 :
  toggled_once m1 m2 -> untoggled m2 m3 -> toggled_once m1 m3.
Proof. intros [H1 H2] [H3 H4]. split; congruence. Qed.

Lemma untoggled_toggled m1 m2 m3 :
  untoggled m1 m2 -> toggled_once m2 m3 -> toggled_once m1 m3.
Proof. intros [H1 H2] [H3 H4]. split; congruence. Qed.

(** Stores to other places than the pause flag do not toggle. *)
Lemma modifies_untoggled (L : loc -> Prop) m m' :
  ~ L Lpause -> modifies L m m' -> untoggled m m'.
Proof.
  intros Hno Hm. split; [now apply (modifies_stores_to L) |].
  now apply (mod_pause _ _ _ Hm).
Qed.

(** The checks of the mode buttons store neither to the pause flag nor to
    the latch of button 1. *)
Lemma button2_spares_pause p m :
  modifies (fun l => l <> Lpause /\ l <> Lp41key) m (snd (button2 p m)).
Proof.
  eapply modifies_weaken; [| apply modifies_button2].
  intros l [-> | ->]; split; discriminate.
Qed.

Lemma button3_spares_pause p m :
  modifies (fun l => l <> Lpause /\ l <> Lp41key) m (snd (button3 p m)).
Proof.
  eapply modifies_weaken; [| apply modifies_button3].
  intros l [-> | ->]; split; discriminate.
Qed.

Lemma held_through_refl m : held_through m m.
Proof.
  split; [intros Hk; split; [apply untoggled_refl | exact Hk] |].
  intros Hk. left. split; [apply untoggled_refl | exact Hk].
Qed.

Lemma held_through_trans m1 m2 m3 :
  held_through m1 m2 -> held_through m2 m3 -> held_through m1 m3.
Proof.
  intros [Hs1 Hc1] [Hs2 Hc2]. split.
  - intros Hk. destruct (Hs1 Hk) as [Hu Hk2]. destruct (Hs2 Hk2) as [Hu' Hk3].
    split; [eapply untoggled_trans; eassumption | exact Hk3].
  - intros Hk. destruct (Hc1 Hk) as [[Hu Hk2] | [Ht Hk2]].
    + destruct (Hc2 Hk2) as [[Hu' Hk3] | [Ht' Hk3]].
      * left. split; [eapply untoggled_trans; eassumption | exact Hk3].
      * right. split; [eapply untoggled_toggled; eassumption | exact Hk3].
    + destruct (Hs2 Hk2) as [Hu' Hk3].
      right. split; [eapply toggled_untoggled; eassumption | exact Hk3].
Qed.

Lemma modifies_held_through (L : loc -> Prop) m m' :
  ~ L Lpause -> ~ L Lp41key -> modifies L m m' -> held_through m m'.
Proof.
  intros Hp Hk Hm. pose proof (modifies_untoggled L m m' Hp Hm) as Hu.
  pose proof (mod_p41key _ _ _ Hm Hk) as E.
  split; intros Hl; [| left]; (split; [exact Hu | congruence]).
Qed.

(** The store that a new press of button 1 makes. *)
Lemma button1_press_toggles p m :
  pressed 1 p -> p41key m = 0 ->
  toggled_once m (button1 p m) /\ p41key (button1 p m) <> 0.
Proof.
  intros Hp Hk. rewrite button1_press, delay_eq by assumption.
  split; [split |].
  - simpl trace. rewrite !stores_to_app.
    change (stores_to Lpause [Store Lp41key 1]) with (@nil event).
    now rewrite app_nil_r.
  - reflexivity.
  - simpl. discriminate.
Qed.

Lemma held_through_button1 p m : pressed 1 p -> held_through m (button1 p m).
Proof.
  intros Hp. split; intros Hk.
  - rewrite button1_hold by assumption. split; [apply untoggled_refl | exact Hk].
  - right. now apply button1_press_toggles.
Qed.

Lemma held_through_button2 p m : held_through m (snd (button2 p m)).
Proof.
  apply (modifies_held_through (fun l => l <> Lpause /\ l <> Lp41key));
    [tauto | tauto | apply button2_spares_pause].
Qed.

Lemma held_through_button3 p m : held_through m (snd (button3 p m)).
Proof.
  apply (modifies_held_through (fun l => l <> Lpause /\ l <> Lp41key));
    [tauto | tauto | apply button3_spares_pause].
Qed.


Lemma held_through_delay5us m : held_through m (delay5us m).
Proof.
  apply (modifies_held_through (fun _ => False)); [tauto | tauto |].
  apply modifies_delay5us.
Qed.

Lemma held_through_paint f m : paints f -> held_through m (f m).
Proof.
  intros Hf. apply (modifies_held_through is_display); [intros [] | intros [] |].
  now apply paints_modifies.
Qed.

Lemma released_through_refl m : released_through m m.
Proof. split; [apply untoggled_refl | auto]. Qed.

Lemma released_through_trans m1 m2 m3 :
  released_through m1 m2 -> released_through m2 m3 -> released_through m1 m3.
Proof.
  intros [Hu1 Hk1] [Hu2 Hk2].
  split; [eapply untoggled_trans; eassumption | auto].
Qed.

Lemma modifies_released_through (L : loc -> Prop) m m' :
  ~ L Lpause -> ~ L Lp41key -> modifies L m m' -> released_through m m'.
Proof.
  intros Hp Hk Hm. split; [now apply (modifies_untoggled L) |].
  intros E. now rewrite (mod_p41key _ _ _ Hm Hk).
Qed.

Lemma released_through_button1 p m :
  released 1 p -> released_through m (button1 p m) /\ p41key (button1 p m) = 0.
Proof.
  intros Hp. rewrite button1_release by assumption.
  split; [split; [split |] |]; try reflexivity.
  simpl trace. now rewrite stores_to_app, app_nil_r.
Qed.

Lemma released_through_delay5us m : released_through m (delay5us m).
Proof.
  apply (modifies_released_through (fun _ => False)); [tauto | tauto |].
  apply modifies_delay5us.
Qed.

Lemma released_through_button2 p m : released_through m (snd (button2 p m)).
Proof.
  apply (modifies_released_through (fun l => l <> Lpause /\ l <> Lp41key));
    [tauto | tauto | apply button2_spares_pause].
Qed.

Lemma released_through_button3 p m : released_through m (snd (button3 p m)).
Proof.
  apply (modifies_released_through (fun l => l <> Lpause /\ l <> Lp41key));
    [tauto | tauto | apply button3_spares_pause].
Qed.

Lemma released_through_paint f m : paints f -> released_through m (f m).
Proof.
  intros Hf. apply (modifies_released_through is_display); [intros [] | intros [] |].
  now apply paints_modifies.
Qed.

(** Button 1 held low in every sample: whatever the program does, it
    toggles the pause flag at most once, and not at all when the latch
    was set before. *)
Lemma held_through_pause_loop n : respects_on (pressed 1) held_through (pause_loop n).
Proof.
  apply respects_on_pause_loop;
    [apply held_through_refl | apply held_through_trans | apply held_through_delay5us
    | intros p m Hp; now apply held_through_button1
    | intros p m _; apply held_through_button2
    | intros p m _; apply held_through_button3].
Qed.

Lemma held_through_main_loop n : respects_on (pressed 1) held_through (main_loop n).
Proof.
  apply respects_on_main_loop;
    [apply held_through_refl | apply held_through_trans | apply held_through_delay5us
    | intros p m Hp; now apply held_through_button1
    | intros p m _; apply held_through_button2
    | intros p m _; apply held_through_button3
    | intros f m Hf; now apply held_through_paint].
Qed.

Lemma held_through_after_first n p rest m :
  Forall (pressed 1) (p :: rest) ->
  held_through (button1 p (delay5us m)) (final (pause_loop (S n) (p :: rest) m))
  /\ rest_all (pressed 1) (pause_loop (S n) (p :: rest) m).
Proof.
  apply respects_on_after_first;
    [apply held_through_refl | apply held_through_trans | apply held_through_delay5us
    | intros q s Hq; now apply held_through_button1
    | intros q s _; apply held_through_button2
    | intros q s _; apply held_through_button3].
Qed.

Lemma released_through_pause_loop n :
  respects_on (released 1) released_through (pause_loop n).
Proof.
  apply respects_on_pause_loop;
    [apply released_through_refl | apply released_through_trans
    | apply released_through_delay5us
    | intros p m Hp; now apply released_through_button1
    | intros p m _; apply released_through_button2
    | intros p m _; apply released_through_button3].
Qed.

Lemma released_through_main_loop n :
  respects_on (released 1) released_through (main_loop n).
Proof.
  apply respects_on_main_loop;
    [apply released_through_refl | apply released_through_trans
    | apply released_through_delay5us
    | intros p m Hp; now apply released_through_button1
    | intros p m _; apply released_through_button2
    | intros p m _; apply released_through_button3
    | intros f m Hf; now apply released_through_paint].
Qed.

Lemma released_through_after_first n p rest m :
  Forall (released 1) (p :: rest) ->
  released_through (button1 p (delay5us m)) (final (pause_loop (S n) (p :: rest) m))
  /\ rest_all (released 1) (pause_loop (S n) (p :: rest) m).
Proof.
  apply respects_on_after_first;
    [apply released_through_refl | apply released_through_trans
    | apply released_through_delay5us
    | intros q s Hq; now apply released_through_button1
    | intros q s _; apply released_through_button2
    | intros q s _; apply released_through_button3].
Qed.

(** C4.  Button 1 and the pause flag, in terms of the samples of the port.
    (1) A hold that begins in a call of [pause] (button 1 low in every
    sample of the call, at least one sample and one round, latch clear at
    entry): the pause flag is stored to exactly once, with its negation,
    however many polls follow, and at the end of the call the latch is
    set and the samples left are still those of the hold.
    (2) A hold that goes on into a later call of [pause] (latch set at
    entry): that call does not store to the pause flag, and the latch is
    still set at its end.
    (3) The same for any number of rounds of the main loop: while button
    1 stays low the program toggles at most once, and not at all when
    the latch was set before.
    (4) Button 1 released in every sample: no call of [pause] and no round
    of the main loop stores to the pause flag, and a call that reads a
    sample leaves the latch clear, so that the next press toggles again.
    (5) At the level of the statement of lines 85-92: a sample that finds
    the button held with the latch set changes nothing, and one that
    finds it released only clears the latch. *)
Theorem pause_button_toggles_once :
  (forall i inp m,
     0 < uint i -> inp <> [] -> Forall (pressed 1) inp -> p41key m = 0 ->
     toggled_once m (final (pause i inp m))
     /\ p41key (final (pause i inp m)) <> 0
     /\ rest_all (pressed 1) (pause i inp m))
  /\ (forall i inp m,
        Forall (pressed 1) inp -> p41key m <> 0 ->
        untoggled m (final (pause i inp m))
        /\ p41key (final (pause i inp m)) <> 0
        /\ rest_all (pressed 1) (pause i inp m))
  /\ (forall n inp m,
        Forall (pressed 1) inp ->
        held_through m (final (main_loop n inp m))
        /\ rest_all (pressed 1) (main_loop n inp m))
  /\ (forall i inp m,
        Forall (released 1) inp ->
        untoggled m (final (pause i inp m))
        /\ rest_all (released 1) (pause i inp m))
  /\ (forall i inp m,
        0 < uint i -> inp <> [] -> Forall (released 1) inp ->
        p41key (final (pause i inp m)) = 0)
  /\ (forall n inp m,
        Forall (released 1) inp -> untoggled m (final (main_loop n inp m)))
  /\ (forall p s, pressed 1 p -> p41key s <> 0 -> button1 p s = s)
  /\ (forall p s, released 1 p ->
        pause_flag (button1 p s) = pause_flag s
        /\ stores_to Lpause (trace (button1 p s)) = stores_to Lpause (trace s)
        /\ p41key (button1 p s) = 0).
Proof.
  split; [| split; [| split; [| split; [| split; [| split; [| split]]]]]].
  - intros i inp m Hi Hne Hall Hk.
    destruct inp as [| p rest]; [contradiction |].
    pose proof Hall as Hp. apply Forall_cons in Hp as [Hp _].
    destruct (pause_unfold i Hi) as [n ->].
    destruct (held_through_after_first n p rest m Hall) as [[Hset _] Hrest].
    destruct (button1_press_toggles p (delay5us m) Hp Hk) as [Ht Hlatch].
    destruct (Hset Hlatch) as [Hu Hk'].
    split; [| split; [exact Hk' | exact Hrest]].
    eapply toggled_untoggled; [| exact Hu]. exact Ht.
  - intros i inp m Hall Hk. unfold pause.
    destruct (held_through_pause_loop (Z.to_nat (uint i)) inp m Hall)
      as [[Hset _] Hrest].
    destruct (Hset Hk) as [Hu Hk']. split; [exact Hu | split; [exact Hk' | exact Hrest]].
  - intros n inp m Hall. now apply held_through_main_loop.
  - intros i inp m Hall. unfold pause.
    destruct (released_through_pause_loop (Z.to_nat (uint i)) inp m Hall)
      as [[Hu _] Hrest].
    now split.
  - intros i inp m Hi Hne Hall.
    destruct inp as [| p rest]; [contradiction |].
    pose proof Hall as Hp. apply Forall_cons in Hp as [Hp _].
    destruct (pause_unfold i Hi) as [n ->].
    destruct (released_through_after_first n p rest m Hall) as [[_ Hclear] _].
    apply Hclear. now apply released_through_button1.
  - intros n inp m Hall.
    now destruct (released_through_main_loop n inp m Hall) as [[Hu _] _].
  - apply button1_hold.
  - intros q s Hq. rewrite button1_release by assumption. simpl.
    split; [reflexivity |]. split; [| reflexivity].
    now rewrite stores_to_app, app_nil_r.
Qed.

(** A press that un-pauses, held on into the next call of [pause]: the
    machine is the paused one that a press and a release leave from
    reset; the call that sees the new press stores 0 to the pause flag,
    and the next call, entered with the button still low, stores
    nothing to it. *)
Lemma pause_button_toggles_once_witness :
  toggled_once (final (pause 1 [253; 255] reset_machine))
    (final (pause 1 [253; 253; 253] (final (pause 1 [253; 255] reset_machine))))
  /\ untoggled
       (final (pause 1 [253; 253; 253] (final (pause 1 [253; 255] reset_machine))))
       (final (pause 2 [253; 253; 253; 253; 253; 253]
                 (final (pause 1 [253; 253; 253]
                           (final (pause 1 [253; 255] reset_machine)))))).
Proof.
  destruct pause_button_toggles_once as (Hedge & Hhold & _).
  assert (H3 : Forall (pressed 1) [253; 253; 253])
    by (repeat (apply List.Forall_cons; [reflexivity |]); apply List.Forall_nil).
  assert (H6 : Forall (pressed 1) [253; 253; 253; 253; 253; 253])
    by (repeat (apply List.Forall_cons; [reflexivity |]); apply List.Forall_nil).
  destruct (Hedge 1 [253; 253; 253] (final (pause 1 [253; 255] reset_machine)))
    as (Ht & _); [reflexivity | discriminate | exact H3 | vm_compute; reflexivity |].
  destruct (Hhold 2 [253; 253; 253; 253; 253; 253]
              (final (pause 1 [253; 253; 253]
                        (final (pause 1 [253; 255] reset_machine)))))
    as (Hu & _); [exact H6 | vm_compute; discriminate |].
  split; [exact Ht | exact Hu].
Defined.

(** ** The paused period *)

Lemma spin_loop_returns_clear inp m m' rest :
  spin_loop inp m = Done tt m' rest -> pause_flag m' = 0.
Proof.
  revert m. induction inp as [| p inp IH]; intros m; simpl; [discriminate |].
  destruct (pause_flag (button1 p m) =? 0) eqn:E.
  - intros [= <- _]. now apply Z.eqb_eq.
  - apply IH.
Qed.

Lemma spin_loop_held_app held inp m :
  pause_flag m <> 0 -> (held = [] \/ p41key m <> 0) -> Forall (pressed 1) held ->
  spin_loop (held ++ inp) m = spin_loop inp m.
Proof.
  intros Hf Hk Hall. induction Hall as [| p held Hp _ IH]; [reflexivity |].
  destruct Hk as [Hk | Hk]; [discriminate |].
  simpl. rewrite button1_hold by assumption.
  apply Z.eqb_neq in Hf. rewrite Hf. apply IH. now right.
Qed.

Lemma spin_loop_released_app up inp m :
  pause_flag m <> 0 -> Forall (released 1) up ->
  exists m1, spin_loop (up ++ inp) m = spin_loop inp m1
             /\ pause_flag m1 = pause_flag m
             /\ (up <> [] -> p41key m1 = 0) /\ (up = [] -> m1 = m).
Proof.
  intros Hf Hall. revert m Hf. induction Hall as [| p up Hp _ IH]; intros m Hf.
  - exists m. now repeat split.
  - simpl. rewrite button1_release by assumption. simpl pause_flag.
    pose proof Hf as Hf'. apply Z.eqb_neq in Hf'. rewrite Hf'.
    destruct (IH (store_p41key 0 m) Hf) as (m1 & E & Hp1 & Hk1 & Hid).
    exists m1. split; [exact E |]. split; [exact Hp1 |]. split; [| discriminate].
    intros _. destruct up as [| q up]; [now rewrite Hid | now apply Hk1].
Qed.

Lemma spin_loop_new_press p rest m :
  pause_flag m <> 0 -> p41key m = 0 -> pressed 1 p ->
  spin_loop (p :: rest) m = Done tt (button1 p m) rest
  /\ pause_flag (button1 p m) = 0.
Proof.
  intros Hf Hk Hp.
  assert (E : pause_flag (button1 p m) = 0).
  { rewrite button1_press, delay_eq by assumption. simpl. unfold lnot.
    apply Z.eqb_neq in Hf. now rewrite Hf. }
  split; [| exact E]. simpl. now rewrite E.
Qed.

(** C5.  With the pause flag set, the inner loop of [pause] stores to the
    pause flag and the button 1 latch only, so [mode], the frame buffer and
    the latches of buttons 2 and 3 stay as they are, whatever the samples
    show of buttons 2 and 3; it does not hand control back while the
    samples show button 1 still held from the pausing press and then
    released; and the first sample that shows a new press of button 1
    clears the flag and ends the loop.  As long as the inner loop has not
    ended, the enclosing [pause] has not returned. *)
Theorem paused_until_new_press inp m :
  pause_flag m <> 0 ->
  modifies spin_locs m (final (spin_loop inp m))
  /\ mode (final (spin_loop inp m)) = mode m
  /\ display (final (spin_loop inp m)) = display m
  /\ (forall m' rest, spin_loop inp m = Done tt m' rest -> pause_flag m' = 0)
  /\ (forall held up,
        inp = held ++ up -> Forall (pressed 1) held ->
        (held = [] \/ p41key m <> 0) -> Forall (released 1) up ->
        exists m', spin_loop inp m = Starved m' /\ pause_flag m' = pause_flag m)
  /\ (forall held up p rest,
        inp = held ++ up ++ p :: rest -> Forall (pressed 1) held ->
        (held = [] \/ p41key m <> 0) -> Forall (released 1) up ->
        (up <> [] \/ (held = [] /\ p41key m = 0)) -> pressed 1 p ->
        exists m', spin_loop inp m = Done tt m' rest /\ pause_flag m' = 0)
  /\ (forall n s m', spin_loop inp (delay5us s) = Starved m' ->
        pause_loop (S n) inp s = Starved m').
Proof.
  intros Hf. pose proof (frames_spin_loop inp m) as Hfr.
  split; [exact Hfr |].
  split; [apply (mod_mode _ _ _ Hfr); intros [E | E]; discriminate |].
  split; [apply (mod_display _ _ _ Hfr); intros z y [E | E]; discriminate |].
  split; [intros m' rest; apply spin_loop_returns_clear |].
  split; [| split].
  - intros held up -> Hheld Hk Hup.
    rewrite spin_loop_held_app by assumption.
    destruct (spin_loop_released_app up [] m Hf Hup) as (m1 & E & Hp1 & _).
    rewrite app_nil_r in E. rewrite E. now exists m1.
  - intros held up p rest -> Hheld Hk Hup Hedge Hp.
    rewrite spin_loop_held_app by assumption.
    destruct (spin_loop_released_app up (p :: rest) m Hf Hup) as (m1 & E & Hp1 & Hk1 & Hid).
    rewrite E.
    assert (Hlatch : p41key m1 = 0).
    { destruct up as [| q up].
      - destruct Hedge as [Hne | [_ Hk0]]; [contradiction |]. now rewrite Hid.
      - now apply Hk1. }
    destruct (spin_loop_new_press p rest m1) as [Eg Ec];
      [now rewrite Hp1 | assumption | assumption |].
    now exists (button1 p m1).
  - intros n s m' Eg. rewrite pause_loop_S.
    pose proof (poll_cases inp (delay5us s)) as Hc. rewrite Eg in Hc. now rewrite Hc.
Qed.

Lemma paused_until_new_press_witness :
  exists m', spin_loop [253; 249; 255; 247; 253; 251]
                       (store_p41key 1 (store_pause 1 reset_machine))
             = Done tt m' [251] /\ pause_flag m' = 0.
Proof.
  destruct (paused_until_new_press [253; 249; 255; 247; 253; 251]
              (store_p41key 1 (store_pause 1 reset_machine)))
    as (_ & _ & _ & _ & _ & Hlive & _).
  - discriminate.
  - apply (Hlive [253; 249] [255; 247] 253 [251]).
    + reflexivity.
    + repeat (constructor; [reflexivity |]). constructor.
    + right. discriminate.
    + repeat (constructor; [reflexivity |]). constructor.
    + left. discriminate.
    + reflexivity.
Defined.

(** ** The mode buttons *)

Lemma button2_press p m :
  pressed 2 p -> p42key m = 0 ->
  button2 p m = (Some 1, delay 100 (store_mode 0 (store_p42key 1 m))).
Proof. unfold button2, pressed. now intros -> ->. Qed.

Lemma button2_hold p m :
  pressed 2 p -> p42key m <> 0 -> button2 p m = (None, store_p42key 0 m).
Proof.
  unfold button2, pressed. intros -> Hk. apply Z.eqb_neq in Hk. now rewrite Hk.
Qed.

Lemma button2_release p m : released 2 p -> button2 p m = (None, m).
Proof. unfold button2, released. now intros ->. Qed.


Lemma button3_hold p m : pressed 3 p -> p43key m <> 0 -> button3 p m = (None, m).
Proof.
  unfold button3, pressed. intros -> Hk. apply Z.eqb_neq in Hk. now rewrite Hk.
Qed.

Lemma button3_release p m : released 3 p -> button3 p m = (None, store_p43key 0 m).
Proof. unfold button3, released. now intros ->. Qed.

(** Button 2 held: the poll after the one that fired clears the latch, and
    the poll after that fires again. *)
Lemma button2_hold_fires_every_other_poll p1 p2 m :
  pressed 2 p1 -> pressed 2 p2 -> p42key m <> 0 ->
  fst (button2 p1 m) = None /\ fst (button2 p2 (snd (button2 p1 m))) = Some 1.
Proof.
  intros H1 H2 Hk. rewrite button2_hold by assumption. simpl.
  now rewrite button2_press.
Qed.

(** Button 3, by contrast, held after it has fired (latch set) and button 2
    released: no call of [pause] returns 1, however long the hold. *)
Lemma poll_button3_held inp m :
  Forall (fun p => released 2 p /\ pressed 3 p) inp -> p43key m <> 0 ->
  match poll inp m with
  | Done (Some _) _ _ => False
  | Done None m' rest =>
      p43key m' <> 0 /\ Forall (fun p => released 2 p /\ pressed 3 p) rest
  | Starved _ => True
  end.
Proof.
  intros Hall Hk. pose proof (poll_cases inp m) as Hc.
  pose proof (frames_spin_loop inp m) as Hfr.
  destruct (spin_loop inp m) as [[] m1 r1 | m1] eqn:Eg; [| now rewrite Hc].
  destruct (spin_loop_rest _ _ _ _ Eg) as (used & -> & _).
  apply Forall_app in Hall as [_ Hall].
  assert (Hk1 : p43key m1 <> 0).
  { simpl in Hfr. rewrite (mod_p43key _ _ _ Hfr); [exact Hk |].
    intros [E | E]; discriminate. }
  destruct r1 as [| p2 r2]; [now rewrite Hc |].
  apply Forall_cons in Hall as [[H2 _] Hall].
  rewrite button2_release in Hc by assumption. simpl in Hc.
  destruct r2 as [| p3 r3]; [now rewrite Hc |].
  apply Forall_cons in Hall as [[_ H3] Hall].
  rewrite button3_hold in Hc by assumption. simpl in Hc.
  rewrite Hc. now split.
Qed.

Lemma pause_button3_held i inp m :
  Forall (fun p => released 2 p /\ pressed 3 p) inp -> p43key m <> 0 ->
  result (pause i inp m) <> Some 1.
Proof.
  unfold pause. generalize (Z.to_nat (uint i)) as n. intros n. revert inp m.
  induction n as [| n IH]; intros inp m Hall Hk; [discriminate |].
  rewrite pause_loop_S. unfold after_poll.
  pose proof (poll_button3_held inp (delay5us m) Hall Hk) as Hp.
  destruct (poll inp (delay5us m)) as [[v |] m1 r1 | m1]; [contradiction | | discriminate].
  destruct Hp as [Hk1 Hrest]. now apply IH.
Qed.

(** C1, at a failing input: a run of the program from reset.  The first
    three samples show all buttons released, then button 3 pressed, which
    takes [mode] to 1.  From then on every sample is 0xFB: button 2 held
    low, never released, buttons 1 and 3 released.  [points] is
    interrupted at the first poll of button 2 ([mode] := 0), and [dave],
    started next, is interrupted again at its second poll of button 2:
    during this one press button 2 has been latched twice and [mode]
    stored to twice. *)
Theorem button2_held_fires_again :
  Forall (pressed 2) (repeat 251 7)
  /\ exists m',
       main 3 ([255; 255; 247] ++ repeat 251 7) reset_machine = Done tt m' []
       /\ mode_edges (trace m')
          = [Store Lp43key 1; Store Lp42key 1; Store Lp42key 1]
       /\ stores_to Lmode (trace m') = [Store Lmode 1; Store Lmode 0; Store Lmode 0]
       /\ stores_to Lp42key (trace m')
          = [Store Lp42key 1; Store Lp42key 0; Store Lp42key 1].
Proof.
  split; [repeat constructor |].
  eexists. split; [vm_compute; reflexivity |].
  split; [vm_compute; reflexivity |]. split; vm_compute; reflexivity.
Qed.

(** ** Who stores to [mode] *)

Lemma latched_app t1 t2 : latched t1 -> latched t2 -> latched (t1 ++ t2).
Proof.
  intros H1 H2. induction H1 as [| e t Ht _ IH | k v t Hk _ IH]; simpl.
  - exact H2.
  - now apply latched_other.
  - now apply latched_press.
Qed.

Lemma tidy_refl m : tidy m m.
Proof. exists []. split; [now rewrite app_nil_r | constructor]. Qed.

Lemma tidy_trans m1 m2 m3 : tidy m1 m2 -> tidy m2 m3 -> tidy m1 m3.
Proof.
  intros (t1 & E1 & L1) (t2 & E2 & L2). exists (t1 ++ t2). split.
  - now rewrite E2, E1, app_assoc.
  - now apply latched_app.
Qed.

Lemma modifies_tidy (L : loc -> Prop) m m' :
  ~ L Lmode -> modifies L m m' -> tidy m m'.
Proof.
  intros Hl [[t [E F]] _ _ _ _ _ _ _]. exists t. split; [exact E |].
  clear E. induction F as [| e t He _ IH]; [constructor |].
  apply latched_other; [| exact IH]. intros Et. rewrite Et in He. contradiction.
Qed.

Lemma tidy_button2 p m : tidy m (snd (button2 p m)).
Proof.
  unfold button2. destruct (pin p 2); simpl; [apply tidy_refl |].
  destruct (p42key m =? 0); simpl.
  - exists [Store Lp42key 1; Store Lmode 0]. split.
    + rewrite delay_eq. simpl. now rewrite <- app_assoc.
    + apply latched_press; [now left | constructor].
  - exists [Store Lp42key 0]. split; [reflexivity |].
    apply latched_other; [discriminate | constructor].
Qed.

Lemma tidy_button3 p m : tidy m (snd (button3 p m)).
Proof.
  unfold button3. destruct (pin p 3); simpl.
  - exists [Store Lp43key 0]. split; [reflexivity |].
    apply latched_other; [discriminate | constructor].
  - destruct (p43key m =? 0); simpl; [| apply tidy_refl].
    exists [Store Lp43key 1; Store Lmode (Z.rem (mode m + 1) 5)]. split.
    + rewrite delay_eq. simpl. now rewrite <- app_assoc.
    + apply latched_press; [now right | constructor].
Qed.

Lemma tidy_main n : respects tidy (main n).
Proof.
  assert (Hout : forall r v m, tidy m (out r v m)).
  { intros r v m. apply (modifies_tidy (fun l => l = Lsfr r)); [discriminate |].
    now apply modifies_out. }
  unfold main. apply respects_bind; [apply tidy_trans | |].
  { apply respects_step. intros m. unfold sinter.
    do 4 (eapply tidy_trans; [| apply Hout]). apply Hout. }
  intros _. apply respects_bind; [apply tidy_trans | apply respects_step, Hout |].
  intros _. apply respects_main_loop.
  - apply tidy_refl.
  - apply tidy_trans.
  - intros m. apply (modifies_tidy (fun _ => False)); [tauto | apply modifies_delay5us].
  - intros p m. apply (modifies_tidy spin_locs); [| apply modifies_button1].
    intros [E | E]; discriminate.
  - apply tidy_button2.
  - apply tidy_button3.
  - intros f m Hf. apply (modifies_tidy is_display); [simpl; tauto |].
    now apply paints_modifies.
Qed.

Lemma keeps_mode (L : loc -> Prop) m m' :
  ~ L Lmode -> modifies L m m' -> keeps_mode_in_range m m'.
Proof.
  intros Hl Hm. unfold keeps_mode_in_range, mode_in_range.
  now rewrite (mod_mode _ _ _ Hm Hl).
Qed.

Lemma keeps_mode_button2 p m : keeps_mode_in_range m (snd (button2 p m)).
Proof.
  unfold button2, keeps_mode_in_range, mode_in_range.
  destruct (pin p 2); simpl; [tauto |].
  destruct (p42key m =? 0); cbn [snd]; [| simpl; tauto].
  rewrite delay_eq. simpl. lia.
Qed.

Lemma keeps_mode_button3 p m : keeps_mode_in_range m (snd (button3 p m)).
Proof.
  unfold button3, keeps_mode_in_range, mode_in_range.
  destruct (pin p 3); simpl; [tauto |].
  destruct (p43key m =? 0); cbn [snd]; [| tauto].
  rewrite delay_eq. simpl. intros Hm. apply Z.rem_bound_pos; lia.
Qed.

Lemma keeps_mode_main n : respects keeps_mode_in_range (main n).
Proof.
  assert (Hrefl : forall m, keeps_mode_in_range m m) by (intros m H; exact H).
  assert (Htrans : forall m1 m2 m3, keeps_mode_in_range m1 m2 ->
                     keeps_mode_in_range m2 m3 -> keeps_mode_in_range m1 m3)
    by (intros m1 m2 m3 H1 H2 H; apply H2, H1, H).
  assert (Hout : forall r v m, keeps_mode_in_range m (out r v m))
    by (intros r v m H; exact H).
  unfold main. apply respects_bind; [exact Htrans | |].
  { apply respects_step. intros m. unfold sinter.
    do 4 (eapply Htrans; [| apply Hout]). apply Hout. }
  intros _. apply respects_bind; [exact Htrans | apply respects_step, Hout |].
  intros _. apply respects_main_loop.
  - exact Hrefl.
  - exact Htrans.
  - intros m H. exact H.
  - intros p m. apply (keeps_mode spin_locs); [| apply modifies_button1].
    intros [E | E]; discriminate.
  - apply keeps_mode_button2.
  - apply keeps_mode_button3.
  - intros f m Hf. apply (keeps_mode is_display); [simpl; tauto |].
    now apply paints_modifies.
Qed.

(** X19.  [mode] is 0 at reset.  In every run of the program each store
    to [mode] comes right after the store that latches a press of
    button 2 (and then stores 0) or of button 3, and [mode] stays in
    [0,5); a call of [pause] that does not return 1 has not stored to
    [mode], and neither does the timer interrupt. *)
Theorem mode_stored_on_mode_presses_only :
  mode reset_machine = 0
  /\ (forall n inp m, tidy m (final (main n inp m)))
  /\ (forall n inp m, mode_in_range m -> mode_in_range (final (main n inp m)))
  /\ (forall i inp m, result (pause i inp m) <> Some 1 ->
        quiet m (final (pause i inp m)))
  /\ (forall m, mode (timer_isr m) = mode m
                /\ stores_to Lmode (trace (timer_isr m)) = stores_to Lmode (trace m)).
Proof.
  split; [reflexivity |].
  split; [intros n inp m; apply tidy_main |].
  split; [intros n inp m; apply keeps_mode_main |].
  split.
  - intros i inp m Hr. unfold pause in *.
    pose proof (pause_loop_result (Z.to_nat (uint i)) inp m) as H.
    destruct (pause_loop (Z.to_nat (uint i)) inp m) as [r m' rest | m'];
      [| exact H].
    destruct H as [[-> _] | [_ Hq]]; [now destruct Hr | exact Hq].
  - intros m. pose proof (modifies_timer_isr m) as Hm.
    assert (Hno : ~ isr_locs Lmode).
    { intros [E | (r & E)]; discriminate. }
    split; [apply (mod_mode _ _ _ Hm Hno) | now apply (modifies_stores_to isr_locs)].
Qed.

(** C6, at a failing input: a run of the program from reset.  Each round
    of [pause] reads three samples; the samples of a round are alike.
    After an idle round button 2 is pressed: [mode] := 0, latch set.
    It is released for a round, which leaves the latch set.  Button 3 is
    pressed: [mode] := 1.  All buttons are released for a round.  Then
    button 2 is pressed for a round, a new press after a release, with
    [mode] at 1: the round finds the latch set and clears it, and
    [mode] is not stored to.  The button is released again, and [mode]
    is still 1. *)
Theorem mode_reset_press_ignored :
  Forall (released 2) [255; 255; 255]
  /\ Forall (pressed 2) [251; 251; 251]
  /\ exists m',
       main 3 ([255; 255; 255] ++ [251; 251]
               ++ [255; 255; 255] ++ [247; 247; 247]
               ++ [255; 255; 255] ++ [251; 251; 251] ++ [255; 255; 255])
            reset_machine
       = Starved m'
       /\ mode m' = 1
       /\ stores_to Lmode (trace m') = [Store Lmode 0; Store Lmode 1]
       /\ stores_to Lp42key (trace m') = [Store Lp42key 1; Store Lp42key 0]
       /\ mode_edges (trace m') = [Store Lp42key 1; Store Lp43key 1].
Proof.
  split; [repeat constructor |]. split; [repeat constructor |].
  eexists. split; [vm_compute; reflexivity |].
  split; [vm_compute; reflexivity |]. split; [vm_compute; reflexivity |].
  split; vm_compute; reflexivity.
Qed.

(** ** Interruption of the generators *)

Lemma pause_or_return_interrupted i inp m r m' rest :
  pause i inp m = Done r m' rest -> r <> 0 ->
  pause_or_return i inp m = Done (Some 1) m' rest.
Proof.
  intros E Hr. unfold pause_or_return. rewrite (bind_Done _ _ _ _ _ _ _ E).
  unfold ret. apply Z.eqb_neq in Hr. now rewrite Hr.
Qed.

Lemma for_each_returns x xs body inp m v m' rest :
  body x inp m = Done (Some v) m' rest ->
  for_each (x :: xs) body inp m = Done (Some v) m' rest.
Proof. intros E. simpl. now rewrite (bind_Done _ _ _ _ _ _ _ E). Qed.

Lemma paint_wait_interrupted f i (k : M (option Z)) inp m m' rest :
  pause_or_return i inp (f m) = Done (Some 1) m' rest ->
  (step f ;;
   r <- pause_or_return i ;;
   match r with Some v => ret (Some v) | None => k end) inp m
  = Done (Some 1) m' rest.
Proof. intros E. now rewrite bind_step, (bind_Done _ _ _ _ _ _ _ E). Qed.

Lemma before_first_wait_dave m :
  before_first_wait Dave m
  = character_on_y 0 (dave_glyphs !!! Z.to_nat 0) (set_all 0 m).
Proof. reflexivity. Qed.

Lemma before_first_wait_points m :
  before_first_wait Points m = set_point 0 0 0 1 (set_all 0 m).
Proof. reflexivity. Qed.

Lemma before_first_wait_planes m :
  before_first_wait Planes m = set_x_plane 0 1 (set_all 0 m).
Proof. reflexivity. Qed.

Lemma before_first_wait_all m : before_first_wait All m = set_all 1 m.
Proof. reflexivity. Qed.

(** C2.  Each generator, when its first call of [pause] reports a mode
    change, returns 1 in the very machine that call of [pause] left: the
    frame buffer is as the stores scheduled before the first wait made it,
    and the trace holds no store to the frame buffer beyond those. *)
Theorem interrupted_at_first_wait g inp m r m' rest :
  pause (first_wait g) inp (before_first_wait g m) = Done r m' rest -> r <> 0 ->
  run g inp m = Done 1 m' rest
  /\ display m' = display (before_first_wait g m)
  /\ display_stores (trace m') = display_stores (trace (before_first_wait g m)).
Proof.
  intros E Hr.
  assert (Hno : forall z y, ~ button_locs (Ldisplay z y)).
  { intros z y H. unfold button_locs in H. decompose [or] H; discriminate. }
  pose proof (frames_pause (first_wait g) inp (before_first_wait g m)) as Hfr.
  rewrite E in Hfr. simpl in Hfr.
  split; [| split; [now apply (mod_display _ _ _ Hfr)
                   | now apply (modifies_display_stores button_locs)]].
  pose proof (pause_or_return_interrupted _ _ _ _ _ _ E Hr) as Ep.
  clear E Hfr. destruct g; unfold run;
    rewrite ?before_first_wait_dave, ?before_first_wait_points,
      ?before_first_wait_planes, ?before_first_wait_all in Ep;
    unfold first_wait in Ep.
  - unfold dave. rewrite bind_step.
    change (seqZ 0 4) with (0 :: seqZ 1 3). change (seqZ 0 8) with (0 :: seqZ 1 7).
    erewrite bind_Done; cycle 1.
    { apply for_each_returns, for_each_returns, paint_wait_interrupted. exact Ep. }
    reflexivity.
  - unfold points. rewrite bind_step.
    change (seqZ 0 8) with (0 :: seqZ 1 7).
    erewrite bind_Done; cycle 1.
    { apply for_each_returns, for_each_returns, for_each_returns,
        paint_wait_interrupted. exact Ep. }
    reflexivity.
  - unfold planes. rewrite bind_step.
    erewrite bind_Done; cycle 1.
    { unfold sweep. change (seqZ 0 8) with (0 :: seqZ 1 7).
      apply for_each_returns, paint_wait_interrupted. exact Ep. }
    reflexivity.
  - unfold all. rewrite bind_step.
    now rewrite (bind_Done _ _ _ _ _ _ _ Ep).
Qed.

Lemma interrupted_at_first_wait_witness :
  exists m', run Points [251; 251] reset_machine = Done 1 m' []
             /\ display m' = display (before_first_wait Points reset_machine).
Proof.
  eassert (E : pause (first_wait Points) [251; 251]
                 (before_first_wait Points reset_machine) = Done 1 _ [])
    by (vm_compute; reflexivity).
  destruct (interrupted_at_first_wait Points _ _ _ _ _ E) as (Hrun & Hd & _);
    [discriminate |].
  eexists. split; [exact Hrun | exact Hd].
Defined.

(** ** The composite mode *)

Lemma fold_left_grows (f : machine -> Z -> machine) xs m :
  (forall s i, (length (trace s) < length (trace (f s i)))%nat) -> xs <> [] ->
  (length (trace m) < length (trace (fold_left f xs m)))%nat.
Proof.
  intros Hf Hxs. destruct xs as [| x xs]; [contradiction |]. clear Hxs.
  revert m x. induction xs as [| y xs IH]; intros m x.
  - apply Hf.
  - etransitivity; [apply (Hf m x) |]. apply (IH (f m x) y).
Qed.

Lemma set_all_stores v m : exists e t, trace (set_all v m) = trace m ++ e :: t.
Proof.
  destruct (mod_trace _ _ _ (modifies_set_all v m)) as (t & E & _).
  assert (Hlen : (length (trace m) < length (trace (set_all v m)))%nat).
  { unfold set_all, for8. apply fold_left_grows; [| discriminate].
    intros s j. apply fold_left_grows; [| discriminate].
    intros s' i. simpl. rewrite length_app. simpl. lia. }
  destruct t as [| e t].
  - rewrite E, app_nil_r in Hlen. lia.
  - now exists e, t.
Qed.

(** A generator that is invoked stores to the frame buffer at once, so it
    leaves the trace longer than it found it. *)
Lemma run_stores g inp m :
  exists e t, trace (final (run g inp m)) = trace m ++ e :: t.
Proof.
  destruct (run_shape (modifies animator_locs) (modifies_refl _) (modifies_trans _))
    with (g := g) as (v & k & -> & Hk).
  1-5: apply (modifies_animator animator_locs (fun l H => H)).
  rewrite bind_step. destruct (mod_trace _ _ _ (Hk inp (set_all v m))) as (t2 & E2 & _).
  destruct (set_all_stores v m) as (e & t1 & E1).
  exists e, (t1 ++ t2). now rewrite E2, E1, <- app_assoc.
Qed.

Lemma dispatch_mode_4 inp m :
  mode m = 4 ->
  dispatch inp m =
  (r <- dave ;;
   if r =? 0 then
     r <- points ;;
     if r =? 0 then
       r <- planes ;;
       if r =? 0 then all ;; ret tt else ret tt
     else ret tt
   else ret tt) inp m.
Proof. intros Hm. unfold dispatch. now rewrite Hm. Qed.

(** C7.  One iteration of the dispatch loop in mode 4: [dave], [points],
    [planes], [all] run in this order, each on the machine and the samples
    the previous one left; as soon as one of them returns 1 the iteration
    is over, in the very machine that generator left (a generator that is
    invoked always adds stores to the trace, so none was); and the next
    iteration dispatches on the value [mode] has then. *)
Theorem composite_mode_aborts inp m :
  mode m = 4 ->
  (forall r m1 i1,
      dave inp m = Done r m1 i1 -> r <> 0 -> dispatch inp m = Done tt m1 i1)
  /\ (forall m1 i1 r m2 i2,
        dave inp m = Done 0 m1 i1 -> points i1 m1 = Done r m2 i2 -> r <> 0 ->
        dispatch inp m = Done tt m2 i2)
  /\ (forall m1 i1 m2 i2 r m3 i3,
        dave inp m = Done 0 m1 i1 -> points i1 m1 = Done 0 m2 i2 ->
        planes i2 m2 = Done r m3 i3 -> r <> 0 ->
        dispatch inp m = Done tt m3 i3)
  /\ (forall m1 i1 m2 i2 m3 i3 r m4 i4,
        dave inp m = Done 0 m1 i1 -> points i1 m1 = Done 0 m2 i2 ->
        planes i2 m2 = Done 0 m3 i3 -> all i3 m3 = Done r m4 i4 ->
        dispatch inp m = Done tt m4 i4)
  /\ (forall g inp' s, exists e t, trace (final (run g inp' s)) = trace s ++ e :: t)
  /\ (forall n m' rest,
        dispatch inp m = Done tt m' rest ->
        main_loop (S n) inp m = main_loop n rest m')
  /\ (forall n m' rest,
        dispatch inp m = Done tt m' rest -> mode m' = 0 ->
        main_loop (S (S n)) inp m = (dave ;; main_loop n) rest m').
Proof.
  intros Hm.
  assert (Hnz : forall r, r <> 0 -> (r =? 0) = false) by (intros r; apply Z.eqb_neq).
  split; [| split; [| split; [| split; [| split; [| split]]]]].
  - intros r m1 i1 E1 Hr. rewrite dispatch_mode_4 by assumption.
    rewrite (bind_Done _ _ _ _ _ _ _ E1). now rewrite (Hnz r Hr).
  - intros m1 i1 r m2 i2 E1 E2 Hr. rewrite dispatch_mode_4 by assumption.
    rewrite (bind_Done _ _ _ _ _ _ _ E1). cbn [Z.eqb].
    rewrite (bind_Done _ _ _ _ _ _ _ E2). now rewrite (Hnz r Hr).
  - intros m1 i1 m2 i2 r m3 i3 E1 E2 E3 Hr. rewrite dispatch_mode_4 by assumption.
    rewrite (bind_Done _ _ _ _ _ _ _ E1). cbn [Z.eqb].
    rewrite (bind_Done _ _ _ _ _ _ _ E2). cbn [Z.eqb].
    rewrite (bind_Done _ _ _ _ _ _ _ E3). now rewrite (Hnz r Hr).
  - intros m1 i1 m2 i2 m3 i3 r m4 i4 E1 E2 E3 E4.
    rewrite dispatch_mode_4 by assumption.
    rewrite (bind_Done _ _ _ _ _ _ _ E1). cbn [Z.eqb].
    rewrite (bind_Done _ _ _ _ _ _ _ E2). cbn [Z.eqb].
    rewrite (bind_Done _ _ _ _ _ _ _ E3). cbn [Z.eqb].
    now rewrite (bind_Done _ _ _ _ _ _ _ E4).
  - apply run_stores.
  - intros n m' rest E. cbn [main_loop]. now rewrite (bind_Done _ _ _ _ _ _ _ E).
  - intros n m' rest E Hm'. cbn [main_loop].
    rewrite (bind_Done _ _ _ _ _ _ _ E).
    unfold bind at 1. unfold dispatch at 1. rewrite Hm'. cbn [Z.eqb].
    unfold bind. destruct (dave rest m') as [r1 m1 i1 | m1]; reflexivity.
Qed.

Lemma composite_mode_aborts_witness :
  exists m1, dispatch [251; 251] (store_mode 4 reset_machine) = Done tt m1 []
             /\ mode m1 = 0.
Proof.
  eassert (E : dave [251; 251] (store_mode 4 reset_machine) = Done 1 _ [])
    by (vm_compute; reflexivity).
  destruct (composite_mode_aborts [251; 251] (store_mode 4 reset_machine))
    as (Habort & _); [reflexivity |].
  eexists. split; [apply (Habort _ _ _ E); discriminate | reflexivity].
Defined.


(* ================================================================= *)
(** * Further properties of the code *)

(** ** Loops of stores to the frame buffer *)

Lemma fold_left_same {S I} (f g : S -> I -> S) xs m :
  (forall s i, f s i = g s i) -> fold_left f xs m = fold_left g xs m.
Proof.
  intros Hfg. revert m. induction xs as [| x xs IH]; intros m; simpl;
    [reflexivity | now rewrite Hfg, IH].
Qed.

Section UpdateCells.
Variable cell : Z -> Z * Z.
Variable f : Z -> Z -> Z.

Lemma update_cells_cons x xs m :
  update_cells cell f (x :: xs) m =
  update_cells cell f xs
    (store_display (fst (cell x)) (snd (cell x))
       (f x (peek (display m) (fst (cell x)) (snd (cell x)))) m).
Proof. reflexivity. Qed.

Lemma update_cells_wf xs m :
  wf_display (display m) -> wf_display (display (update_cells cell f xs m)).
Proof.
  revert m. induction xs as [| x xs IH]; intros m Hwf; [exact Hwf |].
  rewrite update_cells_cons. apply IH. simpl. now apply wf_poke.
Qed.

(** A cell that no index of the loop names keeps its byte. *)
Lemma update_cells_other xs m z y :
  0 <= z -> 0 <= y ->
  (forall i, i ∈ xs -> 0 <= fst (cell i) /\ 0 <= snd (cell i) /\ cell i <> (z, y)) ->
  peek (display (update_cells cell f xs m)) z y = peek (display m) z y.
Proof.
  intros Hz Hy. revert m. induction xs as [| x xs IH]; intros m Hxs; [reflexivity |].
  rewrite update_cells_cons, IH.
  - destruct (Hxs x) as (H1 & H2 & H3); [now left |]. simpl.
    apply peek_poke_ne; try assumption.
    intros E. apply H3. destruct (cell x). simpl in E. congruence.
  - intros i Hi. apply Hxs. now right.
Qed.

(** A cell that one index names, and no other, gets [f] of its byte. *)
Lemma update_cells_hit xs m i :
  wf_display (display m) -> NoDup (cell <$> xs) -> i ∈ xs ->
  (forall k, k ∈ xs -> 0 <= fst (cell k) < 8 /\ 0 <= snd (cell k) < 8) ->
  peek (display (update_cells cell f xs m)) (fst (cell i)) (snd (cell i))
  = f i (peek (display m) (fst (cell i)) (snd (cell i))).
Proof.
  revert m. induction xs as [| x xs IH]; intros m Hwf Hnd Hi Hrange.
  - now apply elem_of_nil in Hi.
  - rewrite fmap_cons in Hnd. apply NoDup_cons in Hnd as [Hx Hnd].
    rewrite update_cells_cons.
    destruct (Hrange x) as [Hxz Hxy]; [now left |].
    destruct (decide (cell i = cell x)) as [E | E].
    + rewrite update_cells_other.
      * rewrite E. simpl. rewrite peek_poke_eq by assumption.
        f_equal.
        (* the index itself *)
        apply elem_of_cons in Hi as [-> | Hi]; [reflexivity |].
        exfalso. apply Hx. rewrite <- E. now apply list_elem_of_fmap_2.
      * destruct (Hrange i Hi). lia.
      * destruct (Hrange i Hi). lia.
      * intros k Hk. destruct (Hrange k) as [Hkz Hky]; [now right |].
        split; [lia |]. split; [lia |].
        intros Ek. apply Hx. apply (list_elem_of_fmap_2' _ _ k); [exact Hk |].
        rewrite Ek, <- E. now destruct (cell i).
    + apply elem_of_cons in Hi as [-> | Hi]; [contradiction |].
      destruct (Hrange i) as [Hiz Hiy]; [now right |].
      rewrite IH; try assumption.
      * simpl. rewrite peek_poke_ne; [reflexivity | lia | lia | lia | lia |].
        intros Ek. apply E. destruct (cell i), (cell x). simpl in Ek. exact Ek.
      * simpl. now apply wf_poke.
      * intros k Hk. apply Hrange. now right.
Qed.
End UpdateCells.

(** One column (fixed y) or one row (fixed z) of the frame buffer. *)
Lemma update_column_peek y0 f m z y :
  wf_display (display m) -> 0 <= y0 < 8 -> 0 <= z < 8 -> 0 <= y < 8 ->
  peek (display (update_cells (fun j => (j, y0)) f (seqZ 0 8) m)) z y
  = if y =? y0 then f z (peek (display m) z y) else peek (display m) z y.
Proof.
  intros Hwf Hy0 Hz Hy. destruct (Z.eqb_spec y y0) as [-> | Hne].
  - apply (update_cells_hit (fun j => (j, y0)) f (seqZ 0 8) m z); [assumption | | |].
    + apply NoDup_fmap_2_strong; [| apply NoDup_seqZ].
      intros a b _ _ [= E]. exact E.
    + apply elem_of_seqZ. lia.
    + intros k Hk. apply elem_of_seqZ in Hk. simpl. lia.
  - apply update_cells_other; [lia | lia |].
    intros i Hi. apply elem_of_seqZ in Hi. simpl.
    split; [lia |]. split; [lia |]. intros [= _ E]. now apply Hne.
Qed.

Lemma update_row_peek z0 f m z y :
  wf_display (display m) -> 0 <= z0 < 8 -> 0 <= z < 8 -> 0 <= y < 8 ->
  peek (display (update_cells (fun i => (z0, i)) f (seqZ 0 8) m)) z y
  = if z =? z0 then f y (peek (display m) z y) else peek (display m) z y.
Proof.
  intros Hwf Hz0 Hz Hy. destruct (Z.eqb_spec z z0) as [-> | Hne].
  - apply (update_cells_hit (fun i => (z0, i)) f (seqZ 0 8) m y); [assumption | | |].
    + apply NoDup_fmap_2_strong; [| apply NoDup_seqZ].
      intros a b _ _ [= E]. exact E.
    + apply elem_of_seqZ. lia.
    + intros k Hk. apply elem_of_seqZ in Hk. simpl. lia.
  - apply update_cells_other; [lia | lia |].
    intros i Hi. apply elem_of_seqZ in Hi. simpl.
    split; [lia |]. split; [lia |]. intros [= E _]. now apply Hne.
Qed.

(** The nested loops, over any list of distinct rows. *)
Lemma update_rows_peek f xs m z y :
  wf_display (display m) -> NoDup xs -> (forall j, j ∈ xs -> 0 <= j < 8) ->
  0 <= z < 8 -> 0 <= y < 8 ->
  peek (display (fold_left
                   (fun s j => update_cells (fun i => (j, i)) (fun _ => f) (seqZ 0 8) s)
                   xs m)) z y
  = if decide (z ∈ xs) then f (peek (display m) z y) else peek (display m) z y.
Proof.
  intros Hwf Hnd Hxs Hz Hy. revert m Hwf.
  induction xs as [| j xs IH]; intros m Hwf.
  - simpl. destruct (decide (z ∈ [])) as [Hin | _]; [| reflexivity].
    now apply elem_of_nil in Hin.
  - apply NoDup_cons in Hnd as [Hj Hnd]. cbn [fold_left].
    rewrite IH; [| assumption | intros k Hk; apply Hxs; now right
                 | now apply update_cells_wf].
    rewrite update_row_peek; [| assumption | apply Hxs; now left | lia | lia].
    destruct (Z.eqb_spec z j) as [-> | Hne].
    + destruct (decide (j ∈ xs)) as [Hin | _]; [contradiction |].
      destruct (decide (j ∈ j :: xs)) as [_ | Hout]; [reflexivity |].
      exfalso. apply Hout. now left.
    + destruct (decide (z ∈ xs)) as [Hin | Hout];
        destruct (decide (z ∈ j :: xs)) as [Hin' | Hout']; try reflexivity.
      * exfalso. apply Hout'. now right.
      * apply elem_of_cons in Hin' as [E | Hin']; contradiction.
Qed.

Lemma update_all_peek f m z y :
  wf_display (display m) -> 0 <= z < 8 -> 0 <= y < 8 ->
  peek (display (update_all f m)) z y = f (peek (display m) z y).
Proof.
  intros Hwf Hz Hy. unfold update_all, for8.
  rewrite update_rows_peek; try assumption.
  - destruct (decide (z ∈ seqZ 0 8)) as [_ | Hout]; [reflexivity |].
    exfalso. apply Hout, elem_of_seqZ. lia.
  - apply NoDup_seqZ.
  - intros j Hj. apply elem_of_seqZ in Hj. lia.
Qed.

(** The display primitives as such loops. *)
Lemma set_all_update v m :
  set_all v m = update_all (fun _ => if v =? 0 then 255 else 0) m.
Proof.
  unfold set_all, update_all, for8. apply fold_left_same. intros s j.
  apply fold_left_same. intros s' i. reflexivity.
Qed.

Lemma set_x_plane_update x v m : set_x_plane x v m = update_all (paint_byte x v) m.
Proof.
  unfold set_x_plane, update_all, for8. apply fold_left_same. intros s j.
  apply fold_left_same. intros s' i. unfold paint_byte.
  destruct (v =? 0); reflexivity.
Qed.

Lemma set_y_plane_update y v m :
  set_y_plane y v m
  = update_cells (fun j => (j, y)) (fun _ _ => if v =? 0 then 255 else 0) (seqZ 0 8) m.
Proof.
  unfold set_y_plane, update_cells, for8. apply fold_left_same. intros s j.
  destruct (v =? 0); reflexivity.
Qed.

Lemma set_z_plane_update z v m :
  set_z_plane z v m
  = update_cells (fun i => (z, i)) (fun _ _ => if v =? 0 then 255 else 0) (seqZ 0 8) m.
Proof.
  unfold set_z_plane, update_cells, for8. apply fold_left_same. intros s i.
  destruct (v =? 0); reflexivity.
Qed.

Lemma character_on_y_update y c m :
  character_on_y y c m
  = update_cells (fun z => (z, y)) (fun z _ => uchar (Z.lnot (c !!! Z.to_nat z)))
      (seqZ 0 8) m.
Proof.
  unfold character_on_y, update_cells, for8. apply fold_left_same. intros s z.
  reflexivity.
Qed.

(** Bits of the bytes the primitives store. *)
Lemma testbit_paint_byte x v b k :
  0 <= x -> 0 <= k < 8 ->
  Z.testbit (paint_byte x v b) k = if k + x =? 7 then (v =? 0) else Z.testbit b k.
Proof.
  intros Hx Hk. unfold paint_byte.
  destruct (v =? 0); rewrite testbit_uchar by lia.
  - rewrite Z.lor_spec, testbit_mask by lia.
    destruct (k + x =? 7); [apply orb_true_r | apply orb_false_r].
  - rewrite Z.land_spec, Z.lnot_spec, testbit_mask by lia.
    destruct (k + x =? 7); [apply andb_false_r | apply andb_true_r].
Qed.

Lemma testbit_fill v k :
  0 <= k < 8 -> Z.testbit (if v =? 0 then 255 else 0) k = (v =? 0).
Proof.
  intros Hk. destruct (v =? 0); [| apply Z.bits_0].
  change 255 with (Z.ones 8). apply Z.ones_spec_low. lia.
Qed.

(** A frame buffer of the right shape with byte [b] in every cell. *)
Lemma filled_eq b d :
  wf_display d -> (forall z y, 0 <= z < 8 -> 0 <= y < 8 -> peek d z y = b) ->
  d = replicate 8 (replicate 8 b).
Proof.
  intros [Hlen Hrows] Hall. apply list_eq. intros i.
  destruct (decide (i < 8)%nat) as [Hi | Hi].
  - rewrite lookup_replicate_2 by assumption.
    destruct (lookup_lt_is_Some_2 d i) as [row Hrow]; [lia |].
    rewrite Hrow. f_equal. apply list_eq. intros j.
    assert (Hr : length row = 8%nat)
      by (rewrite Forall_lookup in Hrows; now apply (Hrows _ _ Hrow)).
    destruct (decide (j < 8)%nat) as [Hj | Hj].
    + rewrite lookup_replicate_2 by assumption.
      destruct (lookup_lt_is_Some_2 row j) as [c Hc]; [lia |].
      rewrite Hc. f_equal. rewrite <- (Hall (Z.of_nat i) (Z.of_nat j)) by lia.
      unfold peek. rewrite !Nat2Z.id.
      rewrite (list_lookup_total_correct _ _ _ Hrow).
      now rewrite (list_lookup_total_correct _ _ _ Hc).
    + rewrite lookup_ge_None_2 by lia. symmetry. apply lookup_replicate_None. lia.
  - rewrite lookup_ge_None_2 by lia. symmetry. apply lookup_replicate_None. lia.
Qed.

(** ** The display primitives, LED by LED *)

Lemma led_set_all v m x y z :
  wf_display (display m) -> in_cube x y z ->
  led_on (set_all v m) x y z = negb (v =? 0).
Proof.
  intros Hwf (Hx & Hy & Hz). unfold led_on.
  rewrite set_all_update, update_all_peek by (assumption || lia).
  now rewrite testbit_fill by lia.
Qed.

Lemma led_set_x_plane x v m x' y' z' :
  wf_display (display m) -> 0 <= x < 8 -> in_cube x' y' z' ->
  led_on (set_x_plane x v m) x' y' z'
  = if x' =? x then negb (v =? 0) else led_on m x' y' z'.
Proof.
  intros Hwf Hx (Hx' & Hy' & Hz'). unfold led_on.
  rewrite set_x_plane_update, update_all_peek by (assumption || lia).
  rewrite testbit_paint_byte by lia.
  destruct (Z.eqb_spec x' x) as [-> | Hne].
  - now replace (7 - x + x =? 7) with true by (symmetry; apply Z.eqb_eq; lia).
  - now replace (7 - x' + x =? 7) with false by (symmetry; apply Z.eqb_neq; lia).
Qed.

Lemma led_set_y_plane y v m x' y' z' :
  wf_display (display m) -> 0 <= y < 8 -> in_cube x' y' z' ->
  led_on (set_y_plane y v m) x' y' z'
  = if y' =? y then negb (v =? 0) else led_on m x' y' z'.
Proof.
  intros Hwf Hy (Hx' & Hy' & Hz'). unfold led_on.
  rewrite set_y_plane_update, update_column_peek by (assumption || lia).
  destruct (y' =? y); [| reflexivity]. now rewrite testbit_fill by lia.
Qed.

Lemma led_set_z_plane z v m x' y' z' :
  wf_display (display m) -> 0 <= z < 8 -> in_cube x' y' z' ->
  led_on (set_z_plane z v m) x' y' z'
  = if z' =? z then negb (v =? 0) else led_on m x' y' z'.
Proof.
  intros Hwf Hz (Hx' & Hy' & Hz'). unfold led_on.
  rewrite set_z_plane_update, update_row_peek by (assumption || lia).
  destruct (z' =? z); [| reflexivity]. now rewrite testbit_fill by lia.
Qed.

Lemma led_set_point x y z v m x' y' z' :
  wf_display (display m) -> in_cube x y z -> in_cube x' y' z' ->
  led_on (set_point x y z v m) x' y' z'
  = if point_at x y z x' y' z' then negb (v =? 0) else led_on m x' y' z'.
Proof.
  intros Hwf Hc (Hx' & Hy' & Hz'). pose proof Hc as (Hx & Hy & Hz).
  unfold led_on, point_at.
  destruct (Z.eqb_spec y' y) as [-> | Hy0];
    [destruct (Z.eqb_spec z' z) as [-> | Hz0] |].
  - rewrite set_point_bits by (assumption || lia).
    destruct (Z.eqb_spec x' x) as [-> | Hne]; simpl.
    + now replace (7 - x + x =? 7) with true by (symmetry; apply Z.eqb_eq; lia).
    + now replace (7 - x' + x =? 7) with false by (symmetry; apply Z.eqb_neq; lia).
  - rewrite set_point_other_byte by (lia || other_cell).
    now rewrite andb_false_r.
  - rewrite set_point_other_byte by (lia || other_cell).
    now rewrite andb_false_r.
Qed.

Lemma led_character_on_y y c m x' y' z' :
  wf_display (display m) -> 0 <= y < 8 -> in_cube x' y' z' ->
  led_on (character_on_y y c m) x' y' z'
  = if y' =? y then Z.testbit (c !!! Z.to_nat z') (7 - x') else led_on m x' y' z'.
Proof.
  intros Hwf Hy (Hx' & Hy' & Hz'). unfold led_on.
  rewrite character_on_y_update, update_column_peek by (assumption || lia).
  destruct (y' =? y); [| reflexivity].
  rewrite testbit_uchar, Z.lnot_spec by lia. apply negb_involutive.
Qed.

Lemma wf_paints f m : paints f -> wf_display (display m) -> wf_display (display (f m)).
Proof. intros Hf. now apply keeps_shape_paints. Qed.

(** X1.  [set_all(v)] overwrites the whole frame buffer, whatever it held:
    every byte is 0x00 for a true [v] and 0xFF for 0, so all 512 LEDs are
    on for a true [v] and off for 0. *)
Theorem set_all_fills v m :
  wf_display (display m) ->
  display (set_all v m) = replicate 8 (replicate 8 (if v =? 0 then 255 else 0))
  /\ shows (blank (negb (v =? 0))) (set_all v m).
Proof.
  intros Hwf.
  assert (Hwf' : wf_display (display (set_all v m)))
    by (apply wf_paints; [apply paints_set_all | assumption]).
  split; [| split; [assumption |]].
  - apply filled_eq; [assumption |]. intros z y Hz Hy.
    now rewrite set_all_update, update_all_peek by (assumption || lia).
  - intros x y z Hc. now apply led_set_all.
Qed.

Lemma set_all_fills_witness :
  display (set_all 1 reset_machine) = replicate 8 (replicate 8 (if 1 =? 0 then 255 else 0))
  /\ shows (blank (negb (1 =? 0))) (set_all 1 reset_machine).
Proof. apply (set_all_fills 1 reset_machine), wf_reset. Defined.

(** X2.  [set_x_plane(x, v)] with x in [0,8) puts the 64 LEDs of plane x
    on for a true [v] and off for 0, and every LED of the other seven x
    planes keeps its state. *)
Theorem set_x_plane_sets_plane x v m :
  wf_display (display m) -> 0 <= x < 8 ->
  wf_display (display (set_x_plane x v m))
  /\ forall x' y' z', in_cube x' y' z' ->
       led_on (set_x_plane x v m) x' y' z'
       = if x' =? x then negb (v =? 0) else led_on m x' y' z'.
Proof.
  intros Hwf Hx. split.
  - apply wf_paints; [apply paints_set_x_plane | assumption].
  - intros x' y' z' Hc. now apply led_set_x_plane.
Qed.

Lemma set_x_plane_sets_plane_witness :
  wf_display (display (set_x_plane 3 1 reset_machine))
  /\ forall x' y' z', in_cube x' y' z' ->
       led_on (set_x_plane 3 1 reset_machine) x' y' z'
       = if x' =? 3 then negb (1 =? 0) else led_on reset_machine x' y' z'.
Proof. apply (set_x_plane_sets_plane 3 1 reset_machine); [apply wf_reset | lia]. Defined.

(** X3.  [set_y_plane(y, v)] with y in [0,8) puts the 64 LEDs of plane y
    on for a true [v] and off for 0, and every LED of the other seven y
    planes keeps its state. *)
Theorem set_y_plane_sets_plane y v m :
  wf_display (display m) -> 0 <= y < 8 ->
  wf_display (display (set_y_plane y v m))
  /\ forall x' y' z', in_cube x' y' z' ->
       led_on (set_y_plane y v m) x' y' z'
       = if y' =? y then negb (v =? 0) else led_on m x' y' z'.
Proof.
  intros Hwf Hy. split.
  - apply wf_paints; [apply paints_set_y_plane | assumption].
  - intros x' y' z' Hc. now apply led_set_y_plane.
Qed.

Lemma set_y_plane_sets_plane_witness :
  wf_display (display (set_y_plane 5 0 reset_machine))
  /\ forall x' y' z', in_cube x' y' z' ->
       led_on (set_y_plane 5 0 reset_machine) x' y' z'
       = if y' =? 5 then negb (0 =? 0) else led_on reset_machine x' y' z'.
Proof. apply (set_y_plane_sets_plane 5 0 reset_machine); [apply wf_reset | lia]. Defined.

(** X4.  [set_z_plane(z, v)] with z in [0,8) puts the 64 LEDs of layer z
    on for a true [v] and off for 0, and every LED of the other seven
    layers keeps its state. *)
Theorem set_z_plane_sets_plane z v m :
  wf_display (display m) -> 0 <= z < 8 ->
  wf_display (display (set_z_plane z v m))
  /\ forall x' y' z', in_cube x' y' z' ->
       led_on (set_z_plane z v m) x' y' z'
       = if z' =? z then negb (v =? 0) else led_on m x' y' z'.
Proof.
  intros Hwf Hz. split.
  - apply wf_paints; [apply paints_set_z_plane | assumption].
  - intros x' y' z' Hc. now apply led_set_z_plane.
Qed.

Lemma set_z_plane_sets_plane_witness :
  wf_display (display (set_z_plane 7 1 reset_machine))
  /\ forall x' y' z', in_cube x' y' z' ->
       led_on (set_z_plane 7 1 reset_machine) x' y' z'
       = if z' =? 7 then negb (1 =? 0) else led_on reset_machine x' y' z'.
Proof. apply (set_z_plane_sets_plane 7 1 reset_machine); [apply wf_reset | lia]. Defined.

(** X5.  [character_on_y(y, c)] with y in [0,8) and [c] a glyph of 8 row
    bytes draws the glyph on plane y in positive logic: the LED at
    (x, y, z) is on exactly when bit 7-x of [c[z]] is set (what the plane
    showed before is overwritten), and every LED of the other seven y
    planes keeps its state. *)
Theorem character_on_y_draws_glyph y c m :
  wf_display (display m) -> 0 <= y < 8 -> length c = 8%nat ->
  wf_display (display (character_on_y y c m))
  /\ forall x' y' z', in_cube x' y' z' ->
       led_on (character_on_y y c m) x' y' z'
       = if y' =? y then Z.testbit (c !!! Z.to_nat z') (7 - x')
         else led_on m x' y' z'.
Proof.
  intros Hwf Hy _. split.
  - apply wf_paints; [apply paints_character_on_y | assumption].
  - intros x' y' z' Hc. now apply led_character_on_y.
Qed.

Lemma character_on_y_draws_glyph_witness :
  wf_display (display (character_on_y 0 (dave_glyphs !!! 0%nat) reset_machine))
  /\ forall x' y' z', in_cube x' y' z' ->
       led_on (character_on_y 0 (dave_glyphs !!! 0%nat) reset_machine) x' y' z'
       = if y' =? 0 then Z.testbit ((dave_glyphs !!! 0%nat) !!! Z.to_nat z') (7 - x')
         else led_on reset_machine x' y' z'.
Proof.
  apply (character_on_y_draws_glyph 0 (dave_glyphs !!! 0%nat) reset_machine);
    [apply wf_reset | lia | reflexivity].
Defined.

(** ** Specifications of routines *)

Lemma triple_ret {A} (a : A) (P : machine -> Prop) (Q : A -> machine -> Prop) W :
  (forall m, P m -> Q a m) -> triple P (ret a) Q W.
Proof. intros H inp m Hm. now apply H. Qed.

Lemma triple_step f (P : machine -> Prop) (Q : unit -> machine -> Prop) W :
  (forall m, P m -> Q tt (f m)) -> triple P (step f) Q W.
Proof. intros H inp m Hm. now apply H. Qed.

Lemma triple_bind {A B} (c : M A) (k : A -> M B) P Q1 Q W :
  triple P c Q1 W -> (forall a, triple (Q1 a) (k a) Q W) ->
  triple P (bind c k) Q W.
Proof.
  intros Hc Hk inp m Hm. unfold bind. specialize (Hc inp m Hm).
  destruct (c inp m) as [a m' rest | m']; [now apply Hk | exact Hc].
Qed.

Lemma triple_weaken {A} (c : M A) (P P' : machine -> Prop)
    (Q Q' : A -> machine -> Prop) (W W' : machine -> Prop) :
  triple P' c Q' W' ->
  (forall m, P m -> P' m) -> (forall a m, Q' a m -> Q a m) ->
  (forall m, W' m -> W m) ->
  triple P c Q W.
Proof.
  intros Hc HP HQ HW inp m Hm. specialize (Hc inp m (HP m Hm)).
  destruct (c inp m) as [a m' rest | m']; [now apply HQ | now apply HW].
Qed.

(** A loop with invariant [I], whose body may return from the function in
    a machine that satisfies [Q]. *)
Lemma triple_for_each xs body (I : machine -> Prop) (Q : Z -> machine -> Prop) W :
  (forall x, x ∈ xs ->
     triple I (body x) (fun r m => match r with None => I m | Some v => Q v m end) W) ->
  triple I (for_each xs body)
    (fun r m => match r with None => I m | Some v => Q v m end) W.
Proof.
  induction xs as [| x xs IH]; intros Hb.
  - apply triple_ret. auto.
  - cbn [for_each].
    apply (triple_bind _ _ _
             (fun r m => match r with None => I m | Some v => Q v m end));
      [apply Hb; now left |].
    intros [v |].
    + apply triple_ret. auto.
    + apply IH. intros y Hy. apply Hb. now right.
Qed.

(** [pause] leaves the frame buffer alone, whatever happens on the port. *)
Lemma triple_pause_or_return i (P : machine -> Prop) :
  (forall m m', display m' = display m -> P m -> P m') ->
  triple P (pause_or_return i) (fun r m => P m /\ (r = None \/ r = Some 1)) P.
Proof.
  intros HP inp m Hm. unfold pause_or_return, bind.
  pose proof (frames_pause i inp m) as Hf.
  assert (Hb : forall z y, ~ button_locs (Ldisplay z y)).
  { intros z y [E | [E | [E | [E | E]]]]; discriminate E. }
  destruct (pause i inp m) as [r m' rest | m']; cbn [final] in Hf; unfold ret.
  - split; [| destruct (r =? 0); auto].
    apply (HP m); [| assumption]. now apply (mod_display _ _ _ Hf).
  - apply (HP m); [| assumption]. now apply (mod_display _ _ _ Hf).
Qed.

(** One frame of an animation: draw, wait, erase. *)
Lemma triple_show on off i (I F : machine -> Prop) :
  (forall m m', display m' = display m -> F m -> F m') ->
  (forall m, I m -> F (on m)) -> (forall m, F m -> I (off m)) ->
  triple I
    (step on ;;
     r <- pause_or_return i ;;
     match r with
     | Some v => ret (Some v)
     | None => step off ;; ret None
     end)
    (fun r m => match r with None => I m | Some v => v = 1 /\ F m end) F.
Proof.
  intros HF Hon Hoff.
  apply (triple_bind _ _ _ (fun _ => F)); [now apply triple_step |].
  intros _.
  apply (triple_bind _ _ _ (fun r m => F m /\ (r = None \/ r = Some 1)));
    [now apply triple_pause_or_return |].
  intros [v |].
  - apply triple_ret. intros m [Hm [E | E]]; [discriminate E |].
    injection E as ->. now split.
  - apply (triple_bind _ _ _ (fun _ => I)).
    + apply triple_step. intros m [Hm _]. now apply Hoff.
    + intros _. apply triple_ret. auto.
Qed.

(** The last wait of a generator: [if (pause(i)) return(1); return(0);]. *)
Lemma triple_last_wait i (F : machine -> Prop) :
  (forall m m', display m' = display m -> F m -> F m') ->
  triple F (r <- pause_or_return i ;; or_return 0 r)
    (fun r m => (r = 0 \/ r = 1) /\ F m) F.
Proof.
  intros HF.
  apply (triple_bind _ _ _ (fun r m => F m /\ (r = None \/ r = Some 1)));
    [now apply triple_pause_or_return |].
  intros r. apply triple_ret. intros m [Hm [-> | ->]]; auto.
Qed.

(** ** What the generators show *)

Lemma shows_display pic m m' : display m' = display m -> shows pic m -> shows pic m'.
Proof.
  intros E [Hwf Hpic]. unfold shows, led_on in *. rewrite E. now split.
Qed.

Lemma shows_set_all v m :
  wf_display (display m) -> shows (blank (negb (v =? 0))) (set_all v m).
Proof.
  intros Hwf. split; [apply wf_paints; [apply paints_set_all | assumption] |].
  intros x y z Hc. now apply led_set_all.
Qed.

Lemma shows_point_on x y z m :
  in_cube x y z -> shows (blank false) m -> shows (point_at x y z) (set_point x y z 1 m).
Proof.
  intros Hc [Hwf Hpic].
  split; [apply wf_paints; [apply paints_set_point | assumption] |].
  intros x' y' z' Hc'. rewrite led_set_point, Hpic by assumption.
  unfold blank. now destruct (point_at x y z x' y' z').
Qed.

Lemma shows_point_off x y z m :
  in_cube x y z -> shows (point_at x y z) m -> shows (blank false) (set_point x y z 0 m).
Proof.
  intros Hc [Hwf Hpic].
  split; [apply wf_paints; [apply paints_set_point | assumption] |].
  intros x' y' z' Hc'. rewrite led_set_point, Hpic by assumption.
  unfold blank. now destruct (point_at x y z x' y' z').
Qed.

Lemma shows_x_plane_on k m :
  0 <= k < 8 -> shows (blank false) m -> shows (x_plane_at k) (set_x_plane k 1 m).
Proof.
  intros Hk [Hwf Hpic].
  split; [apply wf_paints; [apply paints_set_x_plane | assumption] |].
  intros x' y' z' Hc'. rewrite led_set_x_plane, Hpic by assumption.
  unfold blank, x_plane_at. now destruct (x' =? k).
Qed.

Lemma shows_x_plane_off k m :
  0 <= k < 8 -> shows (x_plane_at k) m -> shows (blank false) (set_x_plane k 0 m).
Proof.
  intros Hk [Hwf Hpic].
  split; [apply wf_paints; [apply paints_set_x_plane | assumption] |].
  intros x' y' z' Hc'. rewrite led_set_x_plane, Hpic by assumption.
  unfold blank, x_plane_at. now destruct (x' =? k).
Qed.

Lemma shows_y_plane_on k m :
  0 <= k < 8 -> shows (blank false) m -> shows (y_plane_at k) (set_y_plane k 1 m).
Proof.
  intros Hk [Hwf Hpic].
  split; [apply wf_paints; [apply paints_set_y_plane | assumption] |].
  intros x' y' z' Hc'. rewrite led_set_y_plane, Hpic by assumption.
  unfold blank, y_plane_at. now destruct (y' =? k).
Qed.

Lemma shows_y_plane_off k m :
  0 <= k < 8 -> shows (y_plane_at k) m -> shows (blank false) (set_y_plane k 0 m).
Proof.
  intros Hk [Hwf Hpic].
  split; [apply wf_paints; [apply paints_set_y_plane | assumption] |].
  intros x' y' z' Hc'. rewrite led_set_y_plane, Hpic by assumption.
  unfold blank, y_plane_at. now destruct (y' =? k).
Qed.

Lemma shows_z_plane_on k m :
  0 <= k < 8 -> shows (blank false) m -> shows (z_plane_at k) (set_z_plane k 1 m).
Proof.
  intros Hk [Hwf Hpic].
  split; [apply wf_paints; [apply paints_set_z_plane | assumption] |].
  intros x' y' z' Hc'. rewrite led_set_z_plane, Hpic by assumption.
  unfold blank, z_plane_at. now destruct (z' =? k).
Qed.

Lemma shows_z_plane_off k m :
  0 <= k < 8 -> shows (z_plane_at k) m -> shows (blank false) (set_z_plane k 0 m).
Proof.
  intros Hk [Hwf Hpic].
  split; [apply wf_paints; [apply paints_set_z_plane | assumption] |].
  intros x' y' z' Hc'. rewrite led_set_z_plane, Hpic by assumption.
  unfold blank, z_plane_at. now destruct (z' =? k).
Qed.

Lemma shows_glyph_on y c m :
  0 <= y < 8 -> shows (blank false) m -> shows (glyph_at y c) (character_on_y y c m).
Proof.
  intros Hy [Hwf Hpic].
  split; [apply wf_paints; [apply paints_character_on_y | assumption] |].
  intros x' y' z' Hc'. rewrite led_character_on_y, Hpic by assumption.
  unfold blank, glyph_at. now destruct (y' =? y).
Qed.

(** Erasing plane y erases a glyph that is on plane y alone. *)
Lemma shows_glyph_off y c m :
  0 <= y < 8 -> shows (glyph_at y c) m -> shows (blank false) (set_y_plane y 0 m).
Proof.
  intros Hy [Hwf Hpic].
  split; [apply wf_paints; [apply paints_set_y_plane | assumption] |].
  intros x' y' z' Hc'. rewrite led_set_y_plane, Hpic by assumption.
  unfold blank, glyph_at. now destruct (y' =? y).
Qed.

Lemma triple_points :
  triple (fun m => wf_display (display m)) points
    (fun r m => (r = 0 /\ shows (blank false) m) \/ (r = 1 /\ one_point m))
    one_point.
Proof.
  unfold points.
  apply (triple_bind _ _ _ (fun _ => shows (blank false))).
  { apply triple_step. intros m Hm. exact (shows_set_all 0 m Hm). }
  intros _.
  apply (triple_bind _ _ _
           (fun r m => match r with
                       | None => shows (blank false) m
                       | Some v => v = 1 /\ one_point m
                       end)).
  - apply triple_for_each. intros x Hx. apply triple_for_each. intros y Hy.
    apply triple_for_each. intros z Hz.
    apply elem_of_seqZ in Hx, Hy, Hz.
    assert (Hc : in_cube x y z) by (unfold in_cube; lia).
    apply (triple_weaken _ _ _ _ _ _ _
             (triple_show (set_point x y z 1) (set_point x y z 0) 1000
                (shows (blank false)) (shows (point_at x y z))
                (shows_display _) (fun m => shows_point_on x y z m Hc)
                (fun m => shows_point_off x y z m Hc))).
    + auto.
    + intros [v |] m; [| auto]. intros [-> H]. split; [reflexivity |].
      now exists x, y, z.
    + intros m H. now exists x, y, z.
  - intros r. unfold or_return. apply triple_ret. intros m.
    destruct r as [v |]; [intros [-> H]; now right | intros H; now left].
Qed.

Lemma triple_sweep set_plane (plane_at : Z -> Z -> Z -> Z -> bool) :
  (forall k m, 0 <= k < 8 ->
     shows (blank false) m -> shows (plane_at k) (set_plane k 1 m)) ->
  (forall k m, 0 <= k < 8 ->
     shows (plane_at k) m -> shows (blank false) (set_plane k 0 m)) ->
  triple (shows (blank false)) (sweep set_plane)
    (fun r m => match r with
                | None => shows (blank false) m
                | Some v => v = 1 /\ exists k, 0 <= k < 8 /\ shows (plane_at k) m
                end)
    (fun m => exists k, 0 <= k < 8 /\ shows (plane_at k) m).
Proof.
  intros Hon Hoff. unfold sweep. apply triple_for_each. intros k Hk.
  apply elem_of_seqZ in Hk. assert (Hk' : 0 <= k < 8) by lia.
  apply (triple_weaken _ _ _ _ _ _ _
           (triple_show (set_plane k 1) (set_plane k 0) 10000
              (shows (blank false)) (shows (plane_at k))
              (shows_display _) (fun m => Hon k m Hk') (fun m => Hoff k m Hk'))).
  - auto.
  - intros [v |] m; [| auto]. intros [-> H]. split; [reflexivity |]. now exists k.
  - intros m H. now exists k.
Qed.

Lemma triple_sweep_planes set_plane (plane_at : Z -> Z -> Z -> Z -> bool) :
  (forall k m, shows (plane_at k) m ->
     shows (x_plane_at k) m \/ shows (y_plane_at k) m \/ shows (z_plane_at k) m) ->
  (forall k m, 0 <= k < 8 ->
     shows (blank false) m -> shows (plane_at k) (set_plane k 1 m)) ->
  (forall k m, 0 <= k < 8 ->
     shows (plane_at k) m -> shows (blank false) (set_plane k 0 m)) ->
  triple (shows (blank false)) (sweep set_plane)
    (fun r m => match r with
                | None => shows (blank false) m
                | Some v => v = 1 /\ one_plane m
                end)
    one_plane.
Proof.
  intros Hax Hon Hoff.
  apply (triple_weaken _ _ _ _ _ _ _ (triple_sweep set_plane plane_at Hon Hoff)).
  - auto.
  - intros [v |] m; [| auto]. intros [-> (k & Hk & H)]. split; [reflexivity |].
    exists k. auto.
  - intros m (k & Hk & H). exists k. auto.
Qed.

Lemma triple_planes :
  triple (fun m => wf_display (display m)) planes
    (fun r m => (r = 0 /\ shows (blank false) m) \/ (r = 1 /\ one_plane m))
    one_plane.
Proof.
  unfold planes.
  apply (triple_bind _ _ _ (fun _ => shows (blank false))).
  { apply triple_step. intros m Hm. exact (shows_set_all 0 m Hm). }
  intros _.
  eapply triple_bind.
  { apply (triple_sweep_planes set_x_plane x_plane_at);
      [auto | apply shows_x_plane_on | apply shows_x_plane_off]. }
  intros [v |]; [apply triple_ret; intros m [-> H]; now right |].
  eapply triple_bind.
  { apply (triple_sweep_planes set_y_plane y_plane_at);
      [auto | apply shows_y_plane_on | apply shows_y_plane_off]. }
  intros [v |]; [apply triple_ret; intros m [-> H]; now right |].
  eapply triple_bind.
  { apply (triple_sweep_planes set_z_plane z_plane_at);
      [auto | apply shows_z_plane_on | apply shows_z_plane_off]. }
  intros r. unfold or_return. apply triple_ret. intros m.
  destruct r as [v |]; [intros [-> H]; now right | intros H; now left].
Qed.

Lemma triple_all :
  triple (fun m => wf_display (display m)) all
    (fun r m => (r = 0 /\ shows (blank false) m) \/ (r = 1 /\ uniform m))
    uniform.
Proof.
  unfold all.
  apply (triple_bind _ _ _ (fun _ => shows (blank true))).
  { apply triple_step. intros m Hm. exact (shows_set_all 1 m Hm). }
  intros _.
  apply (triple_bind _ _ _
           (fun r m => shows (blank true) m /\ (r = None \/ r = Some 1))).
  { apply (triple_weaken _ _ _ _ _ _ _
             (triple_pause_or_return 60000 (shows (blank true)) (shows_display _)));
      [auto | auto |]. intros m H. now exists true. }
  intros [v |].
  - apply triple_ret. intros m [H [E | E]]; [discriminate E |].
    injection E as ->. right. split; [reflexivity | now exists true].
  - apply (triple_bind _ _ _ (fun _ => shows (blank false))).
    { apply triple_step. intros m [[Hm _] _]. exact (shows_set_all 0 m Hm). }
    intros _.
    apply (triple_weaken _ _ _ _ _ _ _
             (triple_last_wait 60000 (shows (blank false)) (shows_display _))).
    + auto.
    + intros r m [[-> | ->] H]; [now left | right].
      split; [reflexivity | now exists false].
    + intros m H. now exists false.
Qed.

Lemma triple_dave :
  triple (fun m => wf_display (display m)) dave
    (fun r m => (r = 0 /\ shows (blank true) m)
                \/ (r = 1 /\ (one_glyph m \/ shows (blank true) m)))
    (fun m => one_glyph m \/ shows (blank true) m).
Proof.
  unfold dave.
  apply (triple_bind _ _ _ (fun _ => shows (blank false))).
  { apply triple_step. intros m Hm. exact (shows_set_all 0 m Hm). }
  intros _.
  apply (triple_bind _ _ _
           (fun r m => match r with
                       | None => shows (blank false) m
                       | Some v => v = 1 /\ one_glyph m
                       end)).
  - apply (triple_weaken _ (shows (blank false)) (shows (blank false))
             _ (fun r m => match r with
                           | None => shows (blank false) m
                           | Some v => v = 1 /\ one_glyph m
                           end)
             _ one_glyph); [| auto | auto | auto].
    apply triple_for_each. intros c Hc. apply triple_for_each. intros y Hy.
    apply elem_of_seqZ in Hc, Hy. assert (Hy' : 0 <= y < 8) by lia.
    apply (triple_weaken _ _ _ _ _ _ _
             (triple_show (character_on_y y (dave_glyphs !!! Z.to_nat c))
                (set_y_plane y 0) 5000
                (shows (blank false))
                (shows (glyph_at y (dave_glyphs !!! Z.to_nat c)))
                (shows_display _)
                (fun m => shows_glyph_on y _ m Hy')
                (fun m => shows_glyph_off y _ m Hy'))).
    + auto.
    + intros [v |] m; [| auto]. intros [-> H]. split; [reflexivity |].
      exists c, y. split; [lia | split; [lia | exact H]].
    + intros m H. exists c, y. split; [lia | split; [lia | exact H]].
  - intros [v |].
    + apply triple_ret. intros m [-> H]. right. auto.
    + apply (triple_bind _ _ _ (fun _ => shows (blank true))).
      { apply triple_step. intros m [Hm _]. exact (shows_set_all 1 m Hm). }
      intros _.
      apply (triple_weaken _ _ _ _ _ _ _
               (triple_last_wait 30000 (shows (blank true)) (shows_display _))).
      * auto.
      * intros r m [[-> | ->] H]; [left | right]; auto.
      * auto.
Qed.

(** The generators by name. *)
Lemma triple_run g :
  triple (fun m => wf_display (display m)) (run g)
    (fun r m => (r = 0 /\ shows (blank (rest_of g)) m) \/ (r = 1 /\ frame_of g m))
    (frame_of g).
Proof.
  destruct g; [apply triple_dave | apply triple_points | apply triple_planes
              | apply triple_all].
Qed.

(** X6.  [all], started with any frame buffer: whenever it waits for the
    port, and when it returns 1, all 512 LEDs are alike (all on or all
    off); when it returns 0 the cube is dark.  It returns nothing but 0
    or 1. *)
Theorem all_shows_uniform_frames inp m :
  wf_display (display m) ->
  match all inp m with
  | Done r m' _ => (r = 0 /\ shows (blank false) m') \/ (r = 1 /\ uniform m')
  | Starved m' => uniform m'
  end.
Proof. intros Hwf. exact (triple_all inp m Hwf). Qed.

Lemma all_shows_uniform_frames_witness :
  match all [255; 255; 247] reset_machine with
  | Done r m' _ => (r = 0 /\ shows (blank false) m') \/ (r = 1 /\ uniform m')
  | Starved m' => uniform m'
  end.
Proof. apply (all_shows_uniform_frames [255; 255; 247] reset_machine), wf_reset. Defined.

(** X7.  [points], started with any frame buffer: whenever it waits for
    the port, and when it returns 1, exactly one LED of the cube is on;
    when it returns 0 the cube is dark.  It returns nothing but 0 or 1. *)
Theorem points_shows_one_led inp m :
  wf_display (display m) ->
  match points inp m with
  | Done r m' _ => (r = 0 /\ shows (blank false) m') \/ (r = 1 /\ one_point m')
  | Starved m' => one_point m'
  end.
Proof. intros Hwf. exact (triple_points inp m Hwf). Qed.

Lemma points_shows_one_led_witness :
  match points [255; 255; 247] reset_machine with
  | Done r m' _ => (r = 0 /\ shows (blank false) m') \/ (r = 1 /\ one_point m')
  | Starved m' => one_point m'
  end.
Proof. apply (points_shows_one_led [255; 255; 247] reset_machine), wf_reset. Defined.

(** X8.  [planes], started with any frame buffer: whenever it waits for
    the port, and when it returns 1, exactly one plane of the cube (an x,
    a y or a z plane) is on; when it returns 0 the cube is dark.  It
    returns nothing but 0 or 1. *)
Theorem planes_shows_one_plane inp m :
  wf_display (display m) ->
  match planes inp m with
  | Done r m' _ => (r = 0 /\ shows (blank false) m') \/ (r = 1 /\ one_plane m')
  | Starved m' => one_plane m'
  end.
Proof. intros Hwf. exact (triple_planes inp m Hwf). Qed.

Lemma planes_shows_one_plane_witness :
  match planes [255; 255; 247] reset_machine with
  | Done r m' _ => (r = 0 /\ shows (blank false) m') \/ (r = 1 /\ one_plane m')
  | Starved m' => one_plane m'
  end.
Proof. apply (planes_shows_one_plane [255; 255; 247] reset_machine), wf_reset. Defined.

(** X9.  [dave], started with any frame buffer: whenever it waits for the
    port, and when it returns 1, the cube shows one glyph of "DAVE" on one
    y plane with all other planes dark (the plane of the step before was
    erased), or, in the last wait, all LEDs on; when it returns 0 all
    LEDs are on.  It returns nothing but 0 or 1. *)
Theorem dave_shows_one_glyph inp m :
  wf_display (display m) ->
  match dave inp m with
  | Done r m' _ =>
      (r = 0 /\ shows (blank true) m')
      \/ (r = 1 /\ (one_glyph m' \/ shows (blank true) m'))
  | Starved m' => one_glyph m' \/ shows (blank true) m'
  end.
Proof. intros Hwf. exact (triple_dave inp m Hwf). Qed.

Lemma dave_shows_one_glyph_witness :
  match dave [255; 255; 247] reset_machine with
  | Done r m' _ =>
      (r = 0 /\ shows (blank true) m')
      \/ (r = 1 /\ (one_glyph m' \/ shows (blank true) m'))
  | Starved m' => one_glyph m' \/ shows (blank true) m'
  end.
Proof. apply (dave_shows_one_glyph [255; 255; 247] reset_machine), wf_reset. Defined.

(** ** What the program shows *)

Lemma frame_wf g m : frame_of g m -> wf_display (display m).
Proof.
  destruct g; cbn [frame_of].
  - intros [(c & y & _ & _ & H) | H]; apply H.
  - intros (x & y & z & _ & H). apply H.
  - intros (k & _ & [H | [H | H]]); apply H.
  - intros (b & H). apply H.
Qed.

Lemma triple_run_frames g :
  triple (fun m => wf_display (display m)) (run g)
    (fun r m => wf_display (display m) /\ (r = 0 \/ r = 1))
    (fun m => exists g', frame_of g' m).
Proof.
  apply (triple_weaken _ _ _ _ _ _ _ (triple_run g)).
  - auto.
  - intros r m [[-> H] | [-> H]].
    + split; [apply H | now left].
    + split; [now apply (frame_wf g) | now right].
  - intros m H. now exists g.
Qed.

Lemma triple_run_once g :
  triple (fun m => wf_display (display m)) (run g ;; ret tt)
    (fun _ m => wf_display (display m))
    (fun m => exists g', frame_of g' m).
Proof.
  eapply triple_bind; [apply triple_run_frames |].
  intros r. apply triple_ret. now intros m [H _].
Qed.

Lemma triple_dispatch :
  triple (fun m => wf_display (display m)) dispatch
    (fun _ m => wf_display (display m))
    (fun m => exists g, frame_of g m).
Proof.
  intros inp m Hm. unfold dispatch.
  destruct (mode m =? 0); [exact (triple_run_once Dave inp m Hm) |].
  destruct (mode m =? 1); [exact (triple_run_once Points inp m Hm) |].
  destruct (mode m =? 2); [exact (triple_run_once Planes inp m Hm) |].
  destruct (mode m =? 3); [exact (triple_run_once All inp m Hm) |].
  destruct (mode m =? 4); [| exact Hm].
  revert inp m Hm.
  assert (Hret : forall r : Z,
             triple (fun m => wf_display (display m) /\ (r = 0 \/ r = 1)) (ret tt)
               (fun _ m => wf_display (display m))
               (fun m => exists g, frame_of g m)).
  { intros r. apply triple_ret. now intros m [H _]. }
  assert (Hweak : forall (r : Z) (c : M unit),
             triple (fun m => wf_display (display m)) c
               (fun _ m => wf_display (display m))
               (fun m => exists g, frame_of g m) ->
             triple (fun m => wf_display (display m) /\ (r = 0 \/ r = 1)) c
               (fun _ m => wf_display (display m))
               (fun m => exists g, frame_of g m)).
  { intros r c Hc. apply (triple_weaken _ _ _ _ _ _ _ Hc); auto. now intros m [H _]. }
  eapply triple_bind; [apply (triple_run_frames Dave) |].
  intros r1. destruct (r1 =? 0); [| apply Hret]. apply Hweak.
  eapply triple_bind; [apply (triple_run_frames Points) |].
  intros r2. destruct (r2 =? 0); [| apply Hret]. apply Hweak.
  eapply triple_bind; [apply (triple_run_frames Planes) |].
  intros r3. destruct (r3 =? 0); [| apply Hret]. apply Hweak.
  apply (triple_run_once All).
Qed.

Lemma triple_main_loop n :
  triple (fun m => wf_display (display m)) (main_loop n)
    (fun _ m => wf_display (display m))
    (fun m => exists g, frame_of g m).
Proof.
  induction n as [| n IH]; [apply triple_ret; auto |].
  cbn [main_loop]. eapply triple_bind; [apply triple_dispatch |].
  intros u. exact IH.
Qed.

(** X10.  The program, started with any frame buffer of the right shape,
    for any number of rounds of its main loop and any samples of the
    port: whenever the main thread waits for the port the cube shows one
    of the frames of the four generators (one glyph of "DAVE" on one y
    plane, one LED, one plane, or all LEDs alike), never a mixture of two
    frames or a half-drawn one. *)
Theorem main_shows_designed_frames n inp m :
  wf_display (display m) ->
  match main n inp m with
  | Done _ m' _ => wf_display (display m')
  | Starved m' => exists g, frame_of g m'
  end.
Proof.
  intros Hwf. revert inp m Hwf. fold (triple (fun m => wf_display (display m)) (main n)
    (fun _ m => wf_display (display m)) (fun m => exists g, frame_of g m)).
  unfold main.
  apply (triple_bind _ _ _ (fun _ m => wf_display (display m)));
    [apply triple_step; auto |].
  intros _.
  apply (triple_bind _ _ _ (fun _ m => wf_display (display m)));
    [apply triple_step; auto |].
  intros _. apply triple_main_loop.
Qed.

Lemma main_shows_designed_frames_witness :
  match main 3 ([255; 255; 247] ++ repeat 251 7) reset_machine with
  | Done _ m' _ => wf_display (display m')
  | Starved m' => exists g, frame_of g m'
  end.
Proof.
  apply (main_shows_designed_frames 3 ([255; 255; 247] ++ repeat 251 7) reset_machine),
    wf_reset.
Defined.

(** ** Successive firings of the timer interrupt *)

Lemma timer_isr_display m : display (timer_isr m) = display m.
Proof.
  apply (mod_display _ _ _ (modifies_timer_isr m)).
  intros z y [E | (r & E)]; discriminate E.
Qed.

Lemma ticks_out r v m : ticks (out r v m) = ticks m.
Proof. reflexivity. Qed.
Lemma ticks_store_layer v m : ticks (store_layer v m) = ticks m.
Proof. reflexivity. Qed.
Lemma ticks_delay i m : ticks (delay i m) = ticks m + uint i.
Proof. now rewrite delay_eq. Qed.

(** The latch loop of the interrupt calls [delay5us] six times for each
    latch. *)
Lemma timer_isr_latches_ticks xs m :
  ticks (fold_left (fun s i =>
           delay 3 (out P0 (peek (display s) (layer s) i)
             (delay 3 (out P2 (uchar (Z.shiftl 1 i)) s)))) xs m)
  = ticks m + 6 * Z.of_nat (length xs).
Proof.
  revert m. induction xs as [| x xs IH]; intros m.
  - simpl. lia.
  - cbn [fold_left length]. rewrite IH.
    rewrite ticks_delay, ticks_out, ticks_delay, ticks_out.
    change (uint 3) with 3. lia.
Qed.

Lemma timer_isr_ticks m : ticks (timer_isr m) = ticks m + 48.
Proof.
  unfold timer_isr, for8. cbv beta zeta.
  rewrite !ticks_out.
  match goal with
  | |- ticks (if ?c then _ else _) = _ => destruct c
  end; rewrite ?ticks_store_layer, ticks_out, timer_isr_latches_ticks, ticks_out;
    reflexivity.
Qed.

Lemma timer_isr_iter n m :
  0 <= layer m < 8 ->
  trace (Nat.iter n timer_isr m)
  = trace m ++ flat_map (fun k => scan (display m) ((layer m + k) mod 8))
                        (seqZ 0 (Z.of_nat n))
  /\ layer (Nat.iter n timer_isr m) = (layer m + Z.of_nat n) mod 8
  /\ display (Nat.iter n timer_isr m) = display m
  /\ ticks (Nat.iter n timer_isr m) = ticks m + 48 * Z.of_nat n.
Proof.
  intros Hl. induction n as [| n (Ht & Hy & Hd & Hk)].
  - simpl Nat.iter. change (Z.of_nat 0) with 0.
    rewrite Z.add_0_r, Z.mod_small by lia.
    change (seqZ 0 0) with (@nil Z). cbn [flat_map].
    rewrite app_nil_r. split; [reflexivity | split; [reflexivity |]].
    split; [reflexivity | lia].
  - simpl Nat.iter.
    assert (Hn : 0 <= layer (Nat.iter n timer_isr m) < 8)
      by (rewrite Hy; apply Z.mod_pos_bound; lia).
    rewrite timer_isr_trace, timer_isr_layer, timer_isr_display, timer_isr_ticks
      by assumption.
    rewrite Ht, Hy, Hd, Hk. split; [| split; [| split]].
    + replace (Z.of_nat (S n)) with (Z.of_nat n + 1) by lia.
      rewrite seqZ_app by lia. rewrite flat_map_app, <- app_assoc.
      rewrite (seqZ_cons _ 1), (seqZ_nil _ (Z.pred 1)) by lia.
      cbn [flat_map]. now rewrite app_nil_r, Z.add_0_l.
    + rewrite Zplus_mod_idemp_l. f_equal. lia.
    + reflexivity.
    + lia.
Qed.

(** X11.  [n] firings of the timer interrupt in a row, from a layer
    index in [0,8): the stores are those of [n] scans, of the layers
    layer, layer+1, ... modulo 8 in this order, each of the same frame
    buffer; the layer index ends at (layer + n) mod 8; the frame buffer
    is not changed; and each firing calls [delay5us] exactly 48 times,
    whatever the frame buffer holds. *)
Theorem timer_isr_scans_in_order n m :
  0 <= layer m < 8 ->
  trace (Nat.iter n timer_isr m)
  = trace m ++ flat_map (fun k => scan (display m) ((layer m + k) mod 8))
                        (seqZ 0 (Z.of_nat n))
  /\ layer (Nat.iter n timer_isr m) = (layer m + Z.of_nat n) mod 8
  /\ display (Nat.iter n timer_isr m) = display m
  /\ ticks (Nat.iter n timer_isr m) = ticks m + 48 * Z.of_nat n.
Proof. apply timer_isr_iter. Qed.

Lemma timer_isr_scans_in_order_witness :
  layer (Nat.iter 11 timer_isr reset_machine)
  = (layer reset_machine + Z.of_nat 11) mod 8.
Proof.
  destruct (timer_isr_scans_in_order 11 reset_machine) as (_ & Hy & _);
    [simpl; lia | exact Hy].
Defined.

(** X12.  Eight firings of the timer interrupt in a row, from a layer
    index in [0,8), scan every layer of the frame buffer exactly once
    (the layers in some order that is a permutation of 0..7) and bring
    the layer index back to where it was. *)
Theorem timer_isr_eight_firings m :
  0 <= layer m < 8 ->
  layer (Nat.iter 8 timer_isr m) = layer m
  /\ exists order,
       order ≡ₚ seqZ 0 8
       /\ trace (Nat.iter 8 timer_isr m)
          = trace m ++ flat_map (scan (display m)) order.
Proof.
  intros Hl. destruct (timer_isr_iter 8 m Hl) as (Ht & Hy & _ & _).
  split.
  - rewrite Hy. change (Z.of_nat 8) with 8.
    rewrite <- Zplus_mod_idemp_r, Z.mod_same, Z.add_0_r by lia.
    apply Z.mod_small. lia.
  - exists ((fun k => (layer m + k) mod 8) <$> seqZ 0 (Z.of_nat 8)). split.
    + revert Hl. generalize (layer m) as l. intros l Hl.
      change (seqZ 0 (Z.of_nat 8)) with [0; 1; 2; 3; 4; 5; 6; 7].
      change (seqZ 0 8) with [0; 1; 2; 3; 4; 5; 6; 7].
      index8 l; vm_compute; solve_Permutation.
    + rewrite Ht. reflexivity.
Qed.

Lemma timer_isr_eight_firings_witness :
  layer (Nat.iter 8 timer_isr (timer_isr reset_machine)) = layer (timer_isr reset_machine).
Proof.
  destruct (timer_isr_eight_firings (timer_isr reset_machine)) as (Hy & _);
    [vm_compute; split; [discriminate | reflexivity] | exact Hy].
Defined.

(** ** Running with no button touched *)

Lemma poll_idle p1 p2 p3 rest m :
  pause_flag m = 0 -> idle p1 -> idle p2 -> idle p3 ->
  poll (p1 :: p2 :: p3 :: rest) m
  = Done None (store_p43key 0 (store_p41key 0 m)) rest.
Proof.
  intros Hf (H1 & _) (_ & H2 & _) (_ & _ & H3). unfold poll, bind.
  cbn [spin_loop]. rewrite (button1_release p1 m H1).
  change (pause_flag (store_p41key 0 m)) with (pause_flag m). rewrite Hf.
  cbn [Z.eqb]. rewrite handle_cons, (button2_release p2 _ H2). cbn [fst snd].
  rewrite handle_cons, (button3_release p3 _ H3). reflexivity.
Qed.

Lemma pause_loop_idle n samples rest m :
  pause_flag m = 0 -> Forall idle samples -> length samples = (3 * n)%nat ->
  exists m', pause_loop n (samples ++ rest) m = Done 0 m' rest
    /\ pause_flag m' = 0 /\ mode m' = mode m /\ display m' = display m
    /\ p42key m' = p42key m
    /\ ticks m' = ticks m + Z.of_nat n
    /\ trace m' = trace m ++ concat (replicate n [Store Lp41key 0; Store Lp43key 0]).
Proof.
  revert samples m. induction n as [| n IH]; intros samples m Hf Hs Hl.
  - destruct samples; [| cbn [length] in Hl; lia]. exists m. cbn [pause_loop app].
    split; [reflexivity |]. rewrite app_nil_r.
    repeat (split; [assumption || reflexivity || lia |]). reflexivity.
  - destruct samples as [| p1 [| p2 [| p3 samples]]];
      try (cbn [length] in Hl; lia).
    apply Forall_cons in Hs as [H1 Hs]. apply Forall_cons in Hs as [H2 Hs].
    apply Forall_cons in Hs as [H3 Hs].
    rewrite pause_loop_S. cbn [app].
    rewrite (poll_idle p1 p2 p3 (samples ++ rest) (delay5us m) Hf H1 H2 H3).
    cbn [after_poll].
    set (m1 := store_p43key 0 (store_p41key 0 (delay5us m))).
    assert (Hf1 : pause_flag m1 = 0) by exact Hf.
    assert (Hm1 : mode m1 = mode m) by reflexivity.
    assert (Hd1 : display m1 = display m) by reflexivity.
    assert (Hk1 : p42key m1 = p42key m) by reflexivity.
    assert (Ht1 : ticks m1 = ticks m + 1) by reflexivity.
    assert (Hr1 : trace m1 = (trace m ++ [Store Lp41key 0]) ++ [Store Lp43key 0])
      by reflexivity.
    clearbody m1.
    destruct (IH samples m1 Hf1 Hs) as (m' & E & Hf' & Hm' & Hd' & Hk' & Ht' & Hr').
    { cbn [length] in Hl. lia. }
    exists m'. split; [exact E |].
    split; [exact Hf' |]. split; [congruence |]. split; [congruence |].
    split; [congruence |]. split; [lia |].
    rewrite Hr', Hr1. cbn [replicate concat]. now rewrite <- !app_assoc.
Qed.

(** X13.  A call [pause(i)] during which no button is pressed, entered
    with the pause flag clear: it reads three samples of the port for
    each of its [i] rounds and no more, calls [delay5us] exactly [i]
    times, and returns 0; the mode, the frame buffer, the pause flag and
    the latch of button 2 are as before, and all it stores is 0 to the
    latches of buttons 1 and 3, once each round. *)
Theorem pause_idle_returns_0 i samples rest m :
  pause_flag m = 0 -> Forall idle samples ->
  Z.of_nat (length samples) = 3 * uint i ->
  exists m', pause i (samples ++ rest) m = Done 0 m' rest
    /\ pause_flag m' = 0 /\ mode m' = mode m /\ display m' = display m
    /\ p42key m' = p42key m
    /\ ticks m' = ticks m + uint i
    /\ trace m' = trace m ++ concat (replicate (Z.to_nat (uint i))
                                       [Store Lp41key 0; Store Lp43key 0]).
Proof.
  intros Hf Hs Hl.
  assert (Hu : 0 <= uint i) by (unfold uint; apply Z.mod_pos_bound; lia).
  destruct (pause_loop_idle (Z.to_nat (uint i)) samples rest m Hf Hs)
    as (m' & E & Hf' & Hm' & Hd' & Hk' & Ht' & Hr'); [lia |].
  exists m'. unfold pause. split; [exact E |].
  repeat (split; [assumption |]). split; [lia | exact Hr'].
Qed.

Lemma idle_255 : idle 255.
Proof. repeat split. Qed.

Lemma pause_idle_returns_0_witness :
  exists m', pause 2 (replicate 6 255 ++ [251]) reset_machine = Done 0 m' [251]
    /\ pause_flag m' = 0 /\ mode m' = mode reset_machine
    /\ display m' = display reset_machine
    /\ p42key m' = p42key reset_machine
    /\ ticks m' = ticks reset_machine + uint 2
    /\ trace m' = trace reset_machine
                  ++ concat (replicate (Z.to_nat (uint 2))
                               [Store Lp41key 0; Store Lp43key 0]).
Proof.
  apply (pause_idle_returns_0 2 (replicate 6 255) [251] reset_machine).
  - reflexivity.
  - apply Forall_replicate, idle_255.
  - reflexivity.
Defined.

Lemma undisturbed_ret {A} (a : A) : undisturbed (ret a) a 0.
Proof.
  intros samples rest m Hf _ Hl.
  destruct samples; [| cbn [length] in Hl; lia].
  exists m. unfold ret. cbn [app].
  split; [reflexivity | split; [assumption | split; [reflexivity | lia]]].
Qed.

Lemma undisturbed_bind {A B} (c : M A) (k : A -> M B) a b n1 n2 n :
  undisturbed c a n1 -> undisturbed (k a) b n2 ->
  0 <= n1 -> 0 <= n2 -> n = n1 + n2 ->
  undisturbed (bind c k) b n.
Proof.
  intros Hc Hk H1 H2 -> samples rest m Hf Hs Hl.
  pose proof (take_drop (Z.to_nat (3 * n1)) samples) as E.
  assert (Hl1 : Z.of_nat (length (take (Z.to_nat (3 * n1)) samples)) = 3 * n1)
    by (rewrite length_take; lia).
  assert (Hl2 : Z.of_nat (length (drop (Z.to_nat (3 * n1)) samples)) = 3 * n2)
    by (rewrite length_drop; lia).
  revert E Hl1 Hl2.
  generalize (take (Z.to_nat (3 * n1)) samples) as s1,
             (drop (Z.to_nat (3 * n1)) samples) as s2.
  intros s1 s2 <- Hl1 Hl2. apply Forall_app in Hs as [Hs1 Hs2].
  rewrite <- app_assoc.
  destruct (Hc s1 (s2 ++ rest) m Hf Hs1 Hl1) as (m1 & E1 & Hf1 & Hm1 & Ht1).
  destruct (Hk s2 rest m1 Hf1 Hs2 Hl2) as (m2 & E2 & Hf2 & Hm2 & Ht2).
  exists m2. unfold bind. rewrite E1.
  split; [exact E2 | split; [exact Hf2 | split; [congruence | lia]]].
Qed.

Lemma undisturbed_for_each xs body n total :
  0 <= n -> total = Z.of_nat (length xs) * n ->
  (forall x, x ∈ xs -> undisturbed (body x) None n) ->
  undisturbed (for_each xs body) None total.
Proof.
  intros Hn -> Hb. induction xs as [| x xs IH].
  - apply undisturbed_ret.
  - cbn [for_each].
    apply (undisturbed_bind _ _ None None n (Z.of_nat (length xs) * n)).
    + apply Hb. now left.
    + apply IH. intros y Hy. apply Hb. now right.
    + exact Hn.
    + apply Z.mul_nonneg_nonneg; lia.
    + cbn [length]. lia.
Qed.

Lemma ticks_fold (body : Z -> machine -> machine) xs m :
  (forall i s, ticks (body i s) = ticks s) ->
  ticks (fold_left (fun s i => body i s) xs m) = ticks m.
Proof.
  intros Hb. revert m. induction xs as [| x xs IH]; intros m; [reflexivity |].
  cbn [fold_left]. now rewrite IH, Hb.
Qed.

(** The display primitives do not call [delay5us]. *)
Lemma ticks_paints f m : paints f -> ticks (f m) = ticks m.
Proof.
  intros [v | x v | y v | z v | x y z v | y c].
  - unfold set_all, for8. apply ticks_fold. intros j s.
    apply ticks_fold. reflexivity.
  - unfold set_x_plane, for8. apply ticks_fold. intros j s.
    apply ticks_fold. intros i s'. now destruct (v =? 0).
  - unfold set_y_plane, for8. apply ticks_fold. intros j s. now destruct (v =? 0).
  - unfold set_z_plane, for8. apply ticks_fold. intros i s. now destruct (v =? 0).
  - unfold set_point. now destruct (v =? 0).
  - unfold character_on_y, for8. apply ticks_fold. reflexivity.
Qed.

Lemma undisturbed_paint f : paints f -> undisturbed (step f) tt 0.
Proof.
  intros Hp samples rest m Hf _ Hl.
  destruct samples; [| cbn [length] in Hl; lia].
  pose proof (paints_modifies f m Hp) as Hm.
  exists (f m). unfold step. cbn [app]. split; [reflexivity |].
  split; [| split].
  - rewrite (mod_pause _ _ _ Hm); [exact Hf | intros []].
  - apply (mod_mode _ _ _ Hm). intros [].
  - rewrite ticks_paints by assumption. lia.
Qed.

Lemma uint_nonneg i : 0 <= uint i.
Proof. unfold uint. apply Z.mod_pos_bound. lia. Qed.

Lemma undisturbed_pause i : undisturbed (pause i) 0 (uint i).
Proof.
  intros samples rest m Hf Hs Hl. pose proof (uint_nonneg i) as Hu.
  destruct (pause_loop_idle (Z.to_nat (uint i)) samples rest m Hf Hs)
    as (m' & E & Hf' & Hm' & _ & _ & Ht' & _); [lia |].
  exists m'. unfold pause.
  split; [exact E | split; [exact Hf' | split; [exact Hm' | lia]]].
Qed.

Lemma undisturbed_pause_or_return i : undisturbed (pause_or_return i) None (uint i).
Proof.
  unfold pause_or_return.
  apply (undisturbed_bind _ _ 0 None (uint i) 0);
    [apply undisturbed_pause | apply (undisturbed_ret None) | apply uint_nonneg
    | lia | lia].
Qed.

(** One frame of an animation: draw, wait, erase. *)
Lemma undisturbed_show on off i :
  paints on -> paints off ->
  undisturbed
    (step on ;;
     r <- pause_or_return i ;;
     match r with
     | Some v => ret (Some v)
     | None => step off ;; ret None
     end) None (uint i).
Proof.
  intros Hon Hoff. pose proof (uint_nonneg i) as Hu.
  apply (undisturbed_bind _ _ tt None 0 (uint i));
    [now apply undisturbed_paint | | lia | lia | lia].
  apply (undisturbed_bind _ _ None None (uint i) 0);
    [apply undisturbed_pause_or_return | | lia | lia | lia].
  apply (undisturbed_bind _ _ tt None 0 0);
    [now apply undisturbed_paint | apply undisturbed_ret | lia | lia | lia].
Qed.

Lemma undisturbed_last_wait i :
  undisturbed (r <- pause_or_return i ;; or_return 0 r) 0 (uint i).
Proof.
  apply (undisturbed_bind _ _ None 0 (uint i) 0);
    [apply undisturbed_pause_or_return | apply (undisturbed_ret 0)
    | apply uint_nonneg | lia | lia].
Qed.

Lemma undisturbed_sweep set_plane :
  (forall k v, paints (set_plane k v)) ->
  undisturbed (sweep set_plane) None (8 * 10000).
Proof.
  intros Hp. unfold sweep.
  apply (undisturbed_for_each _ _ (uint 10000)); [apply uint_nonneg | reflexivity |].
  intros k _. now apply undisturbed_show.
Qed.

Lemma undisturbed_all : undisturbed all 0 (duration All).
Proof.
  unfold all.
  apply (undisturbed_bind _ _ tt 0 0 (2 * 60000));
    [apply undisturbed_paint, paints_set_all | | lia | lia | reflexivity].
  apply (undisturbed_bind _ _ None 0 (uint 60000) 60000);
    [apply undisturbed_pause_or_return | | apply uint_nonneg | lia | reflexivity].
  apply (undisturbed_bind _ _ tt 0 0 60000);
    [apply undisturbed_paint, paints_set_all | | lia | lia | reflexivity].
  apply (undisturbed_last_wait 60000).
Qed.

Lemma undisturbed_points : undisturbed points 0 (duration Points).
Proof.
  unfold points.
  apply (undisturbed_bind _ _ tt 0 0 (8 * 8 * 8 * 1000));
    [apply undisturbed_paint, paints_set_all | | lia | lia | reflexivity].
  apply (undisturbed_bind _ _ None 0 (8 * 8 * 8 * 1000) 0);
    [| apply (undisturbed_ret 0) | lia | lia | reflexivity].
  apply (undisturbed_for_each _ _ (8 * 8 * 1000)); [lia | reflexivity |].
  intros x _.
  apply (undisturbed_for_each _ _ (8 * 1000)); [lia | reflexivity |].
  intros y _.
  apply (undisturbed_for_each _ _ (uint 1000)); [apply uint_nonneg | reflexivity |].
  intros z _. apply undisturbed_show; apply paints_set_point.
Qed.

Lemma undisturbed_planes : undisturbed planes 0 (duration Planes).
Proof.
  unfold planes.
  apply (undisturbed_bind _ _ tt 0 0 (3 * 8 * 10000));
    [apply undisturbed_paint, paints_set_all | | lia | lia | reflexivity].
  apply (undisturbed_bind _ _ None 0 (8 * 10000) (2 * 8 * 10000));
    [apply undisturbed_sweep, paints_set_x_plane | | lia | lia | reflexivity].
  apply (undisturbed_bind _ _ None 0 (8 * 10000) (8 * 10000));
    [apply undisturbed_sweep, paints_set_y_plane | | lia | lia | reflexivity].
  apply (undisturbed_bind _ _ None 0 (8 * 10000) 0);
    [apply undisturbed_sweep, paints_set_z_plane | apply (undisturbed_ret 0)
    | lia | lia | reflexivity].
Qed.

Lemma undisturbed_dave : undisturbed dave 0 (duration Dave).
Proof.
  unfold dave.
  apply (undisturbed_bind _ _ tt 0 0 (4 * 8 * 5000 + 30000));
    [apply undisturbed_paint, paints_set_all | | lia | lia | reflexivity].
  apply (undisturbed_bind _ _ None 0 (4 * 8 * 5000) 30000);
    [| | lia | lia | reflexivity].
  - apply (undisturbed_for_each _ _ (8 * 5000)); [lia | reflexivity |].
    intros c _.
    apply (undisturbed_for_each _ _ (uint 5000)); [apply uint_nonneg | reflexivity |].
    intros y _. apply undisturbed_show;
      [apply paints_character_on_y | apply paints_set_y_plane].
  - apply (undisturbed_bind _ _ tt 0 0 30000);
      [apply undisturbed_paint, paints_set_all | | lia | lia | reflexivity].
    apply (undisturbed_last_wait 30000).
Qed.

Lemma undisturbed_run g : undisturbed (run g) 0 (duration g).
Proof.
  destruct g; [apply undisturbed_dave | apply undisturbed_points
              | apply undisturbed_planes | apply undisturbed_all].
Qed.

(** X14.  Each generator, when no button is pressed and the pause flag
    is clear, runs to its end: it returns 0 after exactly as many calls
    of [delay5us] as the budgets of its calls of [pause] add up to
    (dave 190000, points 512000, planes 240000, all 120000), having
    read three samples of the port for each of them and no more, with
    the mode and the pause flag as they were. *)
Theorem generator_runs_to_its_end g samples rest m :
  pause_flag m = 0 -> Forall idle samples ->
  Z.of_nat (length samples) = 3 * duration g ->
  exists m', run g (samples ++ rest) m = Done 0 m' rest
    /\ pause_flag m' = 0 /\ mode m' = mode m /\ ticks m' = ticks m + duration g.
Proof. apply undisturbed_run. Qed.

Lemma generator_runs_to_its_end_witness :
  exists m', run All (replicate (Z.to_nat 360000) 255 ++ [247]) reset_machine
             = Done 0 m' [247]
    /\ pause_flag m' = 0 /\ mode m' = mode reset_machine
    /\ ticks m' = ticks reset_machine + duration All.
Proof.
  apply (generator_runs_to_its_end All (replicate (Z.to_nat 360000) 255) [247]
           reset_machine).
  - reflexivity.
  - apply Forall_replicate, idle_255.
  - rewrite length_replicate, Z2Nat.id by lia. reflexivity.
Defined.

Lemma duration_nonneg g : 0 <= duration g.
Proof. destruct g; cbn [duration]; lia. Qed.

Lemma undisturbed_run_once g : undisturbed (run g ;; ret tt) tt (duration g + 0).
Proof.
  apply (undisturbed_bind _ _ 0 tt (duration g) 0);
    [apply undisturbed_run | apply (undisturbed_ret tt) | apply duration_nonneg
    | lia | reflexivity].
Qed.

(** The composite of mode 4, when no generator is interrupted. *)
Lemma undisturbed_composite :
  undisturbed
    (r <- dave ;;
     if r =? 0 then
       r <- points ;;
       if r =? 0 then
         r <- planes ;;
         if r =? 0 then all ;; ret tt else ret tt
       else ret tt
     else ret tt) tt
    (duration Dave + (duration Points + (duration Planes + (duration All + 0)))).
Proof.
  pose proof (duration_nonneg Dave). pose proof (duration_nonneg Points).
  pose proof (duration_nonneg Planes). pose proof (duration_nonneg All).
  apply (undisturbed_bind _ _ 0 tt (duration Dave)
           (duration Points + (duration Planes + (duration All + 0))));
    [apply (undisturbed_run Dave) | | lia | lia | reflexivity].
  apply (undisturbed_bind _ _ 0 tt (duration Points)
           (duration Planes + (duration All + 0)));
    [apply (undisturbed_run Points) | | lia | lia | reflexivity].
  apply (undisturbed_bind _ _ 0 tt (duration Planes) (duration All + 0));
    [apply (undisturbed_run Planes) | | lia | lia | reflexivity].
  apply (undisturbed_run_once All).
Qed.

Lemma round_nonneg k : 0 <= round k.
Proof.
  unfold round, programme.
  repeat match goal with |- context [if ?c then _ else _] => destruct c end;
    cbn [foldr duration]; lia.
Qed.

Lemma dispatch_undisturbed samples rest m :
  pause_flag m = 0 -> Forall idle samples ->
  Z.of_nat (length samples) = 3 * round (mode m) ->
  exists m', dispatch (samples ++ rest) m = Done tt m' rest
    /\ pause_flag m' = 0 /\ mode m' = mode m
    /\ ticks m' = ticks m + round (mode m).
Proof.
  unfold dispatch, round, programme.
  destruct (mode m =? 0); [apply (undisturbed_run_once Dave) |].
  destruct (mode m =? 1); [apply (undisturbed_run_once Points) |].
  destruct (mode m =? 2); [apply (undisturbed_run_once Planes) |].
  destruct (mode m =? 3); [apply (undisturbed_run_once All) |].
  destruct (mode m =? 4); [apply undisturbed_composite |].
  apply (undisturbed_ret tt).
Qed.

Lemma main_loop_undisturbed n samples rest m :
  pause_flag m = 0 -> Forall idle samples ->
  Z.of_nat (length samples) = 3 * (Z.of_nat n * round (mode m)) ->
  exists m', main_loop n (samples ++ rest) m = Done tt m' rest
    /\ pause_flag m' = 0 /\ mode m' = mode m
    /\ ticks m' = ticks m + Z.of_nat n * round (mode m).
Proof.
  revert samples m. induction n as [| n IH]; intros samples m Hf Hs Hl.
  - destruct samples; [| cbn [length] in Hl; lia].
    exists m. cbn [main_loop app]. unfold ret.
    split; [reflexivity | split; [assumption | split; [reflexivity | lia]]].
  - pose proof (round_nonneg (mode m)) as Hr.
    pose proof (take_drop (Z.to_nat (3 * round (mode m))) samples) as E.
    assert (Hl1 : Z.of_nat (length (take (Z.to_nat (3 * round (mode m))) samples))
                  = 3 * round (mode m))
      by (rewrite length_take; lia).
    assert (Hl2 : Z.of_nat (length (drop (Z.to_nat (3 * round (mode m))) samples))
                  = 3 * (Z.of_nat n * round (mode m)))
      by (rewrite length_drop; lia).
    revert E Hl1 Hl2.
    generalize (take (Z.to_nat (3 * round (mode m))) samples) as s1,
               (drop (Z.to_nat (3 * round (mode m))) samples) as s2.
    intros s1 s2 <- Hl1 Hl2. apply Forall_app in Hs as [Hs1 Hs2].
    rewrite <- app_assoc.
    destruct (dispatch_undisturbed s1 (s2 ++ rest) m Hf Hs1 Hl1)
      as (m1 & E1 & Hf1 & Hm1 & Ht1).
    rewrite <- Hm1 in Hl2.
    destruct (IH s2 m1 Hf1 Hs2 Hl2) as (m2 & E2 & Hf2 & Hm2 & Ht2).
    exists m2. cbn [main_loop]. unfold bind at 1. rewrite E1.
    split; [exact E2 | split; [exact Hf2 | split; [congruence |]]].
    rewrite Ht2, Ht1, Hm1. lia.
Qed.

(** X15.  The main loop, when no button is pressed and the pause flag is
    clear: every round runs the programme of the current mode to its end
    (one generator in modes 0 to 3, dave, points, planes, all in mode 4)
    and leaves the mode alone, so [n] rounds repeat the same programme
    [n] times, in exactly [n] times the duration of the programme. *)
Theorem main_loop_repeats_programme n samples rest m :
  pause_flag m = 0 -> Forall idle samples ->
  Z.of_nat (length samples) = 3 * (Z.of_nat n * round (mode m)) ->
  exists m', main_loop n (samples ++ rest) m = Done tt m' rest
    /\ pause_flag m' = 0 /\ mode m' = mode m
    /\ ticks m' = ticks m + Z.of_nat n * round (mode m).
Proof. apply main_loop_undisturbed. Qed.

Lemma main_loop_repeats_programme_witness :
  exists m', main_loop 2 (replicate (Z.to_nat 1140000) 255 ++ [247]) reset_machine
             = Done tt m' [247]
    /\ pause_flag m' = 0 /\ mode m' = mode reset_machine
    /\ ticks m' = ticks reset_machine + Z.of_nat 2 * round (mode reset_machine).
Proof.
  apply (main_loop_repeats_programme 2 (replicate (Z.to_nat 1140000) 255) [247]
           reset_machine).
  - reflexivity.
  - apply Forall_replicate, idle_255.
  - rewrite length_replicate, Z2Nat.id by lia. reflexivity.
Defined.

(** ** Configuration *)

(** X16.  [main] configures the machine once, before anything else: its
    first stores are those of [sinter] (IE = 0x82, TCON = 1, TH0 = 0xC0,
    TL0 = 0, TR0 = 1, in this order) and P4 = 0xFF; whatever the port
    reads afterwards, the main thread stores to no register again (so it
    never disables the interrupt or stops the timer), only to the frame
    buffer, the mode, the pause flag and the button latches. *)
Theorem main_configures_once n inp m :
  exists t,
    trace (final (main n inp m))
    = trace m
      ++ [Store (Lsfr IE) 130; Store (Lsfr TCON) 1; Store (Lsfr TH0) 192;
          Store (Lsfr TL0) 0; Store (Lsfr TR0) 1; Store (Lsfr P4) 255]
      ++ t
    /\ Forall (fun e => animator_locs (target e)) t.
Proof.
  unfold main. rewrite !bind_step.
  destruct (mod_trace _ _ _ (frames_main_loop n inp (out P4 255 (sinter m))))
    as (t & Ht & Hall).
  exists t. split; [| exact Hall]. rewrite Ht. unfold sinter.
  rewrite !trace_out, <- !app_assoc. reflexivity.
Qed.

(** ** Button 3 held *)

Lemma pause_loop_button3_held n inp m :
  Forall (fun p => released 2 p /\ pressed 3 p) inp -> p43key m <> 0 ->
  match pause_loop n inp m with
  | Done r m' _ => r = 0 /\ p43key m' <> 0
  | Starved _ => True
  end.
Proof.
  revert inp m. induction n as [| n IH]; intros inp m Hall Hk.
  - cbn [pause_loop]. unfold ret. now split.
  - rewrite pause_loop_S. unfold after_poll.
    pose proof (poll_button3_held inp (delay5us m) Hall Hk) as Hp.
    destruct (poll inp (delay5us m)) as [[v |] m1 r1 | m1];
      [contradiction | | exact I].
    destruct Hp as [Hk1 Hrest]. now apply IH.
Qed.

(** X17.  Button 3 held low after it has fired (its latch set), with
    button 2 released: a call of [pause], however long, does not fire
    again; it returns 0 when its budget is used up, it has not stored to
    the mode, and the latch is still set, so the calls of [pause] that
    follow during the same hold do not fire either. *)
Theorem button3_held_fires_once i inp m :
  Forall (fun p => released 2 p /\ pressed 3 p) inp -> p43key m <> 0 ->
  match pause i inp m with
  | Done r m' rest =>
      r = 0 /\ quiet m m' /\ p43key m' <> 0
      /\ Forall (fun p => released 2 p /\ pressed 3 p) rest
  | Starved m' => quiet m m'
  end.
Proof.
  intros Hall Hk. unfold pause.
  pose proof (pause_loop_button3_held (Z.to_nat (uint i)) inp m Hall Hk) as Hh.
  pose proof (pause_loop_result (Z.to_nat (uint i)) inp m) as Hr.
  pose proof (frames_pause i inp m) as Hf. unfold pause in Hf.
  destruct (pause_loop (Z.to_nat (uint i)) inp m) as [r m' rest | m'] eqn:E;
    [| exact Hr].
  destruct Hh as [-> Hk']. destruct Hr as [[Hr _] | [_ Hq]]; [discriminate Hr |].
  split; [reflexivity | split; [exact Hq | split; [exact Hk' |]]].
  clear - E Hall. revert inp m E Hall.
  induction (Z.to_nat (uint i)) as [| n IH]; intros inp m E Hall.
  - cbn [pause_loop] in E. unfold ret in E.
    replace rest with inp by congruence. exact Hall.
  - rewrite pause_loop_S in E. unfold after_poll in E.
    destruct (poll inp (delay5us m)) as [[v |] m1 r1 | m1] eqn:Ep;
      [| | discriminate E].
    + replace rest with r1 by congruence.
      destruct (poll_rest _ _ _ _ _ Ep) as (used & ->).
      now apply Forall_app in Hall as [_ Hall].
    + destruct (poll_rest _ _ _ _ _ Ep) as (used & ->).
      apply Forall_app in Hall as [_ Hall]. now apply (IH r1 m1).
Qed.

Lemma button3_held_fires_once_witness :
  match pause 2 (repeat 247 7) (store_p43key 1 reset_machine) with
  | Done r m' rest =>
      r = 0 /\ quiet (store_p43key 1 reset_machine) m' /\ p43key m' <> 0
      /\ Forall (fun p => released 2 p /\ pressed 3 p) rest
  | Starved m' => quiet (store_p43key 1 reset_machine) m'
  end.
Proof.
  apply (button3_held_fires_once 2 (repeat 247 7) (store_p43key 1 reset_machine)).
  - repeat (apply List.Forall_cons; [split; reflexivity |]). apply List.Forall_nil.
  - discriminate.
Defined.

(** ** The mode buttons, in terms of the samples of the port *)








